(** * A minimal WebSocket relay: frame codec, connection loop and room registry

    Shallow embedding of [real-time communication/ws-server.js] and proofs of
    the properties its design document states about it.

    Conventions of the embedding:
    - a [Buffer] is a list of bytes, each a [Z] in [0, 256);
    - a JavaScript string is the list of its UTF-16 code units, each a [Z] in
      [0, 65536), so that [.length] counts what the runtime counts;
    - JavaScript numbers that occur in the program are non-negative integers;
      the one place where they can leave the exactly representable range
      (a 64-bit frame length) goes through [to_double];
    - an exception that nobody catches is the [Throw] result; the state in
      which it was raised is not kept, but for the loop of a cleanup, which
      raises between two writes to the registry. *)

From Stdlib Require Import ZArith Bool String Ascii DecimalString DecimalZ
  List Lia.
Import ListNotations.
Local Open Scope string_scope.
Local Open Scope list_scope.
Local Open Scope Z_scope.
#[local] Set Warnings "-register-all".

(** ** Results of fallible code *)

Inductive JsError := TypeError | RangeError.

Inductive Result (A : Type) :=
| Ok (a : A)
| Throw (e : JsError).
Arguments Ok {A} a.
Arguments Throw {A} e.

Definition bind {A B} (r : Result A) (k : A -> Result B) : Result B :=
  match r with
  | Ok a => k a
  | Throw e => Throw e
  end.

Notation "x <- r ;; k" := (bind r (fun x => k))
  (at level 61, r at next level, right associativity).

(** ** Strings and buffers *)

Definition jsstring := list Z.
Definition Buffer := list Z.

Definition lit (s : string) : jsstring :=
  map (fun c => Z.of_N (N_of_ascii c)) (list_ascii_of_string s).

Definition blen (b : Buffer) : Z := Z.of_nat (length b).

Definition is_byte (b : Z) : Prop := 0 <= b < 256.
Definition is_code_unit (u : Z) : Prop := 0 <= u < 65536.

(** [buf.slice(s, e)] and [buf.slice(s)] for non-negative arguments: both ends
    are clamped to the buffer. *)
Definition slice (s e : Z) (b : Buffer) : Buffer :=
  firstn (Z.to_nat (e - s)) (skipn (Z.to_nat s) b).

Definition slice_from (s : Z) (b : Buffer) : Buffer := skipn (Z.to_nat s) b.

(** Rounding of a non-negative integer to the nearest double (ties to even):
    the identity below 2^53. *)
Definition to_double (v : Z) : Z :=
  if v <? 2 ^ 53 then v
  else
    let e := Z.log2 v - 52 in
    let q := v / 2 ^ e in
    let r := v mod 2 ^ e in
    let half := 2 ^ (e - 1) in
    if r <? half then q * 2 ^ e
    else if half <? r then (q + 1) * 2 ^ e
    else if Z.even q then q * 2 ^ e
    else (q + 1) * 2 ^ e.

(** [a + b] on numbers. *)
Definition js_add (a b : Z) : Z := to_double (a + b).

(** ** UTF-8, as [Buffer.from(str, 'utf8')] and [buf.toString('utf8')] do it *)

Definition in_range (b lo hi : Z) : bool := (lo <=? b) && (b <=? hi).
Definition is_high (u : Z) : bool := in_range u 0xD800 0xDBFF.
Definition is_low (u : Z) : bool := in_range u 0xDC00 0xDFFF.

Definition REPLACEMENT : Z := 0xFFFD.
Definition REPLACEMENT_utf8 : Buffer := [0xEF; 0xBF; 0xBD].

Definition enc2 (u : Z) : Buffer := [0xC0 + u / 64; 0x80 + u mod 64].
Definition enc3 (u : Z) : Buffer :=
  [0xE0 + u / 4096; 0x80 + (u / 64) mod 64; 0x80 + u mod 64].
Definition enc4 (cp : Z) : Buffer :=
  [0xF0 + cp / 262144; 0x80 + (cp / 4096) mod 64;
   0x80 + (cp / 64) mod 64; 0x80 + cp mod 64].
Definition pair_cp (hi lo : Z) : Z :=
  0x10000 + (hi - 0xD800) * 1024 + (lo - 0xDC00).

(** An unpaired surrogate is written as U+FFFD. *)
Fixpoint utf8_encode (s : jsstring) : Buffer :=
  match s with
  | [] => []
  | u :: rest =>
    if u <? 0x80 then u :: utf8_encode rest
    else if u <? 0x800 then enc2 u ++ utf8_encode rest
    else if is_high u then
      match rest with
      | lo :: rest' =>
        if is_low lo then enc4 (pair_cp u lo) ++ utf8_encode rest'
        else REPLACEMENT_utf8 ++ utf8_encode rest
      | [] => REPLACEMENT_utf8
      end
    else if is_low u then REPLACEMENT_utf8 ++ utf8_encode rest
    else enc3 u ++ utf8_encode rest
  end.

Definition dec2 (b0 b1 : Z) : Z := (b0 mod 32) * 64 + b1 mod 64.
Definition dec3 (b0 b1 b2 : Z) : Z :=
  (b0 mod 16) * 4096 + (b1 mod 64) * 64 + b2 mod 64.
Definition dec4 (b0 b1 b2 b3 : Z) : Z :=
  (b0 mod 8) * 262144 + (b1 mod 64) * 4096 + (b2 mod 64) * 64 + b3 mod 64.
Definition surrogates (cp : Z) : jsstring :=
  [0xD800 + (cp - 0x10000) / 1024; 0xDC00 + (cp - 0x10000) mod 1024].

(** Bounds on the second byte of a three- and four-byte sequence. *)
Definition lower3 (b0 : Z) : Z := if b0 =? 0xE0 then 0xA0 else 0x80.
Definition upper3 (b0 : Z) : Z := if b0 =? 0xED then 0x9F else 0xBF.
Definition lower4 (b0 : Z) : Z := if b0 =? 0xF0 then 0x90 else 0x80.
Definition upper4 (b0 : Z) : Z := if b0 =? 0xF4 then 0x8F else 0xBF.

(** The decoder never fails: every maximal ill-formed prefix becomes one
    U+FFFD and decoding resumes at the byte that broke the sequence. *)
Fixpoint utf8_decode (b : Buffer) : jsstring :=
  match b with
  | [] => []
  | b0 :: r0 =>
    if in_range b0 0 0x7F then b0 :: utf8_decode r0
    else if in_range b0 0xC2 0xDF then
      match r0 with
      | b1 :: r1 =>
        if in_range b1 0x80 0xBF then dec2 b0 b1 :: utf8_decode r1
        else REPLACEMENT :: utf8_decode r0
      | [] => [REPLACEMENT]
      end
    else if in_range b0 0xE0 0xEF then
      match r0 with
      | b1 :: r1 =>
        if in_range b1 (lower3 b0) (upper3 b0) then
          match r1 with
          | b2 :: r2 =>
            if in_range b2 0x80 0xBF then dec3 b0 b1 b2 :: utf8_decode r2
            else REPLACEMENT :: utf8_decode r1
          | [] => [REPLACEMENT]
          end
        else REPLACEMENT :: utf8_decode r0
      | [] => [REPLACEMENT]
      end
    else if in_range b0 0xF0 0xF4 then
      match r0 with
      | b1 :: r1 =>
        if in_range b1 (lower4 b0) (upper4 b0) then
          match r1 with
          | b2 :: r2 =>
            if in_range b2 0x80 0xBF then
              match r2 with
              | b3 :: r3 =>
                if in_range b3 0x80 0xBF
                then surrogates (dec4 b0 b1 b2 b3) ++ utf8_decode r3
                else REPLACEMENT :: utf8_decode r2
              | [] => [REPLACEMENT]
              end
            else REPLACEMENT :: utf8_decode r1
          | [] => [REPLACEMENT]
          end
        else REPLACEMENT :: utf8_decode r0
      | [] => [REPLACEMENT]
      end
    else REPLACEMENT :: utf8_decode r0
  end.

(** [str.toWellFormed()] and [str.isWellFormed()]. *)
Fixpoint toWellFormed (s : jsstring) : jsstring :=
  match s with
  | [] => []
  | u :: rest =>
    if is_high u then
      match rest with
      | lo :: rest' =>
        if is_low lo then u :: lo :: toWellFormed rest'
        else REPLACEMENT :: toWellFormed rest
      | [] => [REPLACEMENT]
      end
    else if is_low u then REPLACEMENT :: toWellFormed rest
    else u :: toWellFormed rest
  end.

Fixpoint isWellFormed (s : jsstring) : bool :=
  match s with
  | [] => true
  | u :: rest =>
    if is_high u then
      match rest with
      | lo :: rest' => is_low lo && isWellFormed rest'
      | [] => false
      end
    else negb (is_low u) && isWellFormed rest
  end.

(** ** Frame codec *)

(** Big-endian integers: [buf.readUInt16BE], [buf.readBigUInt64BE],
    [buf.writeUInt16BE] and [buf.writeBigUInt64BE]. *)
Definition be_value (l : Buffer) : Z := fold_left (fun acc b => acc * 256 + b) l 0.

Fixpoint be_bytes (n : nat) (v : Z) : Buffer :=
  match n with
  | O => []
  | S n' => be_bytes n' (Z.shiftr v 8) ++ [Z.land v 0xff]
  end.

(** A read that does not fit in the buffer raises a RangeError. *)
Definition readUIntBE (n : nat) (buffer : Buffer) (offset : Z) : Result Z :=
  if blen buffer <? offset + Z.of_nat n then Throw RangeError
  else Ok (be_value (slice offset (offset + Z.of_nat n) buffer)).

Definition readUInt16BE := readUIntBE 2.
Definition readBigUInt64BE := readUIntBE 8.

Record Frame := {
  fin : bool;
  opcode : Z;
  payload : jsstring;
  frameLen : Z
}.

(** [payload[i] ^= mask[i % 4]], from index [i] on; a mask byte that is not
    there reads as [undefined], which [^] takes for 0. *)
Fixpoint unmask (i : nat) (mask payload : Buffer) : Buffer :=
  match payload with
  | [] => []
  | p :: rest => Z.lxor p (nth (i mod 4) mask 0) :: unmask (S i) mask rest
  end.

(** [Ok None] is the [null] return. The payload slice is a view on the
    argument, so unmasking writes into the caller's buffer; the only caller
    drops the first [frameLen] bytes straight away, which cover that region,
    so the write is not modelled. *)
Definition parseFrame (buffer : Buffer) : Result (option Frame) :=
  if blen buffer <? 2 then Ok None
  else
    let first := nth 0 buffer 0 in
    let second := nth 1 buffer 0 in
    let fin := negb (Z.land first 0x80 =? 0) in
    let opcode := Z.land first 0x0f in
    let masked := negb (Z.land second 0x80 =? 0) in
    let payloadLen := Z.land second 0x7f in
    let offset := 2 in
    lo <- (if payloadLen =? 126 then
             v <- readUInt16BE buffer offset ;; Ok (v, offset + 2)
           else if payloadLen =? 127 then
             v <- readBigUInt64BE buffer offset ;; Ok (to_double v, offset + 8)
           else Ok (payloadLen, offset)) ;;
    let payloadLen := fst lo in
    let offset := snd lo in
    let mask := if masked then slice offset (offset + 4) buffer else [] in
    let offset := if masked then offset + 4 else offset in
    let payload := slice offset (js_add offset payloadLen) buffer in
    let payload := if masked then unmask 0 mask payload else payload in
    Ok (Some {| fin := fin; opcode := opcode; payload := utf8_decode payload;
                frameLen := js_add offset payloadLen |}).

(** The two halves of [parseFrame], named for the proofs: the payload length
    and the offset that the header declares, and the frame cut out of the
    buffer with them (see [parseFrame_split]). *)
Definition declared (buffer : Buffer) : Result (Z * Z) :=
  let payloadLen := Z.land (nth 1 buffer 0) 0x7f in
  if payloadLen =? 126 then
    v <- readUInt16BE buffer 2 ;; Ok (v, 2 + 2)
  else if payloadLen =? 127 then
    v <- readBigUInt64BE buffer 2 ;; Ok (to_double v, 2 + 8)
  else Ok (payloadLen, 2).

Definition cut_frame (buffer : Buffer) (lo : Z * Z) : Frame :=
  let masked := negb (Z.land (nth 1 buffer 0) 0x80 =? 0) in
  let offset := if masked then snd lo + 4 else snd lo in
  let body := slice offset (js_add offset (fst lo)) buffer in
  {| fin := negb (Z.land (nth 0 buffer 0) 0x80 =? 0);
     opcode := Z.land (nth 0 buffer 0) 0x0f;
     payload := utf8_decode
                  (if masked
                   then unmask 0 (slice (snd lo) (snd lo + 4) buffer) body
                   else body);
     frameLen := js_add offset (fst lo) |}.

(** Server to client: no mask. [writeBigUInt64BE] would raise on a length of
    2^64 or more, which no buffer has. *)
Definition buildTextFrame (str : jsstring) : Buffer :=
  let payload := utf8_encode str in
  let len := blen payload in
  let header :=
    if len <? 126 then [0x81; len]
    else if len <? 65536 then [0x81; 126] ++ be_bytes 2 len
    else [0x81; 127] ++ be_bytes 8 len in
  header ++ payload.

(** The header of an unmasked final text frame as the design document words
    it: the base length for a payload below 126 bytes, else 126 and a 16-bit
    big-endian length below 65536 bytes, else 127 and a 64-bit big-endian
    length. To be compared with what [buildTextFrame] writes. *)
Definition Spec_text_header (len : Z) : Buffer :=
  if len <? 126 then [0x80 + 0x1; len]
  else if len <? 65536 then [0x80 + 0x1; 126; len / 256; len mod 256]
  else [0x80 + 0x1; 127] ++
       map (fun i => (len / 256 ^ i) mod 256) [7; 6; 5; 4; 3; 2; 1; 0].

(** ** Values, keys and insertion-ordered collections *)

(** What [JSON.parse] can return, plus [undefined] for a property that is not
    there. A number is kept as its IEEE-754 binary64 bit pattern. *)
Inductive JsVal :=
| VUndef
| VNull
| VBool (b : bool)
| VNum (bits : Z)
| VStr (s : jsstring)
| VArr (items : list JsVal)
| VObj (fields : list (jsstring * JsVal)).

Definition num_is_zero (bits : Z) : bool := (bits =? 0) || (bits =? 2 ^ 63).
Definition num_is_nan (bits : Z) : bool :=
  0x7FF0000000000000 <? Z.land bits 0x7FFFFFFFFFFFFFFF.

Definition truthy (v : JsVal) : bool :=
  match v with
  | VUndef | VNull => false
  | VBool b => b
  | VNum bits => negb (num_is_zero bits || num_is_nan bits)
  | VStr s => match s with [] => false | _ => true end
  | VArr _ | VObj _ => true
  end.

(** [a || b] *)
Definition js_or (a b : JsVal) : JsVal := if truthy a then a else b.

Definition jsstring_eq_dec : forall a b : jsstring, {a = b} + {a <> b} :=
  list_eq_dec Z.eq_dec.

(** [v === 'literal'] *)
Definition is_str (v : JsVal) (s : jsstring) : bool :=
  match v with
  | VStr t => if jsstring_eq_dec t s then true else false
  | _ => false
  end.

Fixpoint assoc {V} (fields : list (jsstring * V)) (name : jsstring) : option V :=
  match fields with
  | [] => None
  | (k, v) :: rest => if jsstring_eq_dec name k then Some v else assoc rest name
  end.

(** [v.name] for the property names the relay reads (type, room, to, text,
    name), none of which a string, number, boolean or array has. On [null]
    the access raises a TypeError, see [is_nullish]. *)
Definition get (v : JsVal) (name : jsstring) : JsVal :=
  match v with
  | VObj fields => match assoc fields name with Some x => x | None => VUndef end
  | _ => VUndef
  end.

Definition is_nullish (v : JsVal) : bool :=
  match v with
  | VUndef | VNull => true
  | _ => false
  end.

(** The values that a template literal can turn into a string. The
    conversion of an object calls its [toString], which is the one of
    [Object.prototype] unless the object has a property of that name of its
    own; from a JSON text such a property is no function, and the conversion
    raises a TypeError. An array is converted by joining the conversions of
    its elements. *)
Fixpoint printable (v : JsVal) : bool :=
  match v with
  | VObj fields =>
    match assoc fields (lit "toString") with
    | Some _ => false
    | None => true
    end
  | VArr items => forallb printable items
  | _ => true
  end.

(** Keys of a [Map] or [Set] under SameValueZero: primitives by value (one
    zero, one NaN), objects and arrays by identity. *)
Inductive Key :=
| KUndef
| KNull
| KBool (b : bool)
| KNum (bits : Z)
| KStr (s : jsstring)
| KRef (r : positive).

Definition Key_eq_dec : forall a b : Key, {a = b} + {a <> b}.
Proof.
  decide equality;
    auto using Bool.bool_dec, Z.eq_dec, jsstring_eq_dec, Pos.eq_dec.
Defined.

(** [ref] is the identity of the object that the value is, when it is one. *)
Definition to_key (ref : positive) (v : JsVal) : Key :=
  match v with
  | VUndef => KUndef
  | VNull => KNull
  | VBool b => KBool b
  | VNum bits =>
    if num_is_zero bits then KNum 0
    else if num_is_nan bits then KNum 0x7FF8000000000000
    else KNum bits
  | VStr s => KStr s
  | VArr _ | VObj _ => KRef ref
  end.

Section Collections.
Context {K V : Type} (eq_dec : forall a b : K, {a = b} + {a <> b}).

Fixpoint map_get (m : list (K * V)) (k : K) : option V :=
  match m with
  | [] => None
  | (k', v) :: m' => if eq_dec k k' then Some v else map_get m' k
  end.

Definition map_has (m : list (K * V)) (k : K) : bool :=
  match map_get m k with Some _ => true | None => false end.

(** An existing key keeps its place, a new one goes last. *)
Fixpoint map_set (m : list (K * V)) (k : K) (v : V) : list (K * V) :=
  match m with
  | [] => [(k, v)]
  | (k', v') :: m' =>
    if eq_dec k k' then (k, v) :: m' else (k', v') :: map_set m' k v
  end.

Definition map_delete (m : list (K * V)) (k : K) : list (K * V) :=
  filter (fun kv => if eq_dec k (fst kv) then false else true) m.

Definition set_has (s : list K) (k : K) : bool :=
  if in_dec eq_dec k s then true else false.

Definition set_add (s : list K) (k : K) : list K :=
  if set_has s k then s else s ++ [k].

Definition set_delete (s : list K) (k : K) : list K :=
  filter (fun x => if eq_dec k x then false else true) s.
End Collections.

(** ** The server's state *)

Record Client := {
  socket : nat;
  client_rooms : list Key;
  name : JsVal
}.

(** A socket, with the [recvBuffer] of the closure that serves it. *)
Record Socket := {
  destroyed : bool;
  ended : bool;
  written : list Buffer;
  recvBuffer : Buffer
}.

Definition fresh_socket : Socket :=
  {| destroyed := false; ended := false; written := []; recvBuffer := [] |}.

Record World := {
  clients : list (jsstring * Client);
  rooms : list (Key * list jsstring);
  nextId : Z;
  sockets : list (nat * Socket);
  heap : positive
}.

Definition initial : World :=
  {| clients := []; rooms := []; nextId := 1; sockets := []; heap := 1%positive |}.

Definition set_clients (w : World) (c : list (jsstring * Client)) : World :=
  {| clients := c; rooms := rooms w; nextId := nextId w;
     sockets := sockets w; heap := heap w |}.
Definition set_rooms (w : World) (r : list (Key * list jsstring)) : World :=
  {| clients := clients w; rooms := r; nextId := nextId w;
     sockets := sockets w; heap := heap w |}.
Definition set_nextId (w : World) (n : Z) : World :=
  {| clients := clients w; rooms := rooms w; nextId := n;
     sockets := sockets w; heap := heap w |}.
Definition set_sockets (w : World) (s : list (nat * Socket)) : World :=
  {| clients := clients w; rooms := rooms w; nextId := nextId w;
     sockets := s; heap := heap w |}.
Definition set_heap (w : World) (h : positive) : World :=
  {| clients := clients w; rooms := rooms w; nextId := nextId w;
     sockets := sockets w; heap := h |}.

Definition clients_get (w : World) (id : jsstring) : option Client :=
  map_get jsstring_eq_dec (clients w) id.

(** [clients.get(k)] for an arbitrary value: only a string can be an id. *)
Definition clients_get_key (w : World) (k : Key) : option Client :=
  match k with
  | KStr id => clients_get w id
  | _ => None
  end.

Definition rooms_get (w : World) (room : Key) : option (list jsstring) :=
  map_get Key_eq_dec (rooms w) room.

(** A socket nobody touched yet is open and has nothing written. *)
Definition socket_get (w : World) (s : nat) : Socket :=
  match map_get Nat.eq_dec (sockets w) s with
  | Some sk => sk
  | None => fresh_socket
  end.

Definition socket_put (s : nat) (sk : Socket) (w : World) : World :=
  set_sockets w (map_set Nat.eq_dec (sockets w) s sk).

(** [socket.write(chunk)]: nothing goes out once the socket is ended or
    destroyed. (The runtime then reports the failed write with an error
    event; events are what the environment calls, see [on_error].) *)
Definition socket_write (s : nat) (chunk : Buffer) (w : World) : World :=
  let sk := socket_get w s in
  if destroyed sk || ended sk then w
  else socket_put s {| destroyed := false; ended := false;
                       written := written sk ++ [chunk];
                       recvBuffer := recvBuffer sk |} w.

Definition socket_end (s : nat) (w : World) : World :=
  let sk := socket_get w s in
  socket_put s {| destroyed := destroyed sk; ended := true;
                  written := written sk; recvBuffer := recvBuffer sk |} w.

Definition socket_destroy (s : nat) (w : World) : World :=
  let sk := socket_get w s in
  socket_put s {| destroyed := true; ended := ended sk;
                  written := written sk; recvBuffer := recvBuffer sk |} w.

Definition set_recvBuffer (s : nat) (b : Buffer) (w : World) : World :=
  let sk := socket_get w s in
  socket_put s {| destroyed := destroyed sk; ended := ended sk;
                  written := written sk; recvBuffer := b |} w.

(** ** The relay *)

Definition lobby : jsstring := lit "lobby".

(** Object literals of the program. *)
Definition obj (fields : list (string * JsVal)) : JsVal :=
  VObj (map (fun kv => (lit (fst kv), snd kv)) fields).

Definition error_obj (message : string) : JsVal :=
  obj [("type", VStr (lit "error")); ("message", VStr (lit message))].

Definition notice_obj (message from : jsstring) : JsVal :=
  obj [("type", VStr (lit "notice")); ("message", VStr message);
       ("from", VStr from)].

(** ['c' + n] for the integers a counter takes: decimal digits. *)
Definition decimal (n : Z) : jsstring :=
  lit (NilEmpty.string_of_int (Z.to_int n)).

Definition genClientId (w : World) : jsstring * World :=
  (lit "c" ++ decimal (nextId w), set_nextId w (js_add (nextId w) 1)).

Section Relay.
(** Services of the runtime that the relay calls and this development does
    not look into: [JSON.parse] ([None] when it raises a SyntaxError),
    [JSON.stringify], the string that a template literal makes of a value it
    can convert, and the SHA-1/base64 digest behind [computeAccept]. *)
Variable JSON_parse : jsstring -> option JsVal.
Variable JSON_stringify : JsVal -> jsstring.
Variable ToString : JsVal -> jsstring.
Variable computeAccept : jsstring -> jsstring.

(** [`${v}`] *)
Definition interpolate (v : JsVal) : Result jsstring :=
  if printable v then Ok (ToString v) else Throw TypeError.

Definition sendToClient (clientId : Key) (o : JsVal) (w : World) : World :=
  match clients_get_key w clientId with
  | None => w
  | Some client =>
    if destroyed (socket_get w (socket client)) then w
    else socket_write (socket client) (buildTextFrame (JSON_stringify o)) w
  end.

(** The body of the [for (const cid of s)] loop. *)
Definition broadcast_one (frame : Buffer) (excludeId : jsstring)
    (w : World) (cid : jsstring) : World :=
  if jsstring_eq_dec cid excludeId then w
  else
    match clients_get w cid with
    | Some c =>
      if destroyed (socket_get w (socket c)) then w
      else socket_write (socket c) frame w
    | None => w
    end.

Definition broadcastRoom (room : Key) (o : JsVal) (excludeId : jsstring)
    (w : World) : World :=
  match rooms_get w room with
  | None => w
  | Some s =>
    let frame := buildTextFrame (JSON_stringify o) in
    fold_left (broadcast_one frame excludeId) s w
  end.

(** [rooms.get(room).add(clientId)] and [.delete(clientId)] *)
Definition room_add (room : Key) (clientId : jsstring) (w : World) : World :=
  match rooms_get w room with
  | Some s =>
    set_rooms w (map_set Key_eq_dec (rooms w) room
                   (set_add jsstring_eq_dec s clientId))
  | None => w
  end.

Definition room_delete (room : Key) (clientId : jsstring) (w : World) : World :=
  match rooms_get w room with
  | Some s =>
    set_rooms w (map_set Key_eq_dec (rooms w) room
                   (set_delete jsstring_eq_dec s clientId))
  | None => w
  end.

(** [if (!rooms.has(room)) rooms.set(room, new Set())] *)
Definition ensure_room (room : Key) (w : World) : World :=
  if map_has Key_eq_dec (rooms w) room then w
  else set_rooms w (map_set Key_eq_dec (rooms w) room []).

(** A write to the client object that [clients] holds under [clientId]. *)
Definition client_put (clientId : jsstring) (c : Client) (w : World) : World :=
  set_clients w (map_set jsstring_eq_dec (clients w) clientId c).

Definition on_join (clientId : jsstring) (ref : positive) (parsed : JsVal)
    (w : World) : Result World :=
  match clients_get w clientId with
  | None => Throw TypeError
  | Some client =>
    let room := js_or (get parsed (lit "room")) (VStr lobby) in
    let k := to_key ref room in
    let client :=
      {| socket := socket client;
         client_rooms := set_add Key_eq_dec (client_rooms client) k;
         name := name client |} in
    let w := client_put clientId client w in
    let w := ensure_room k w in
    let w := room_add k clientId w in
    let client :=
      {| socket := socket client;
         client_rooms := client_rooms client;
         name := js_or (get parsed (lit "name"))
                       (js_or (name client) (VStr clientId)) |} in
    let w := client_put clientId client w in
    let w := sendToClient (KStr clientId)
               (obj [("type", VStr (lit "joined")); ("room", room);
                     ("id", VStr clientId)]) w in
    text <- interpolate (name client) ;;
    Ok (broadcastRoom k (notice_obj (text ++ lit " joined") clientId)
          clientId w)
  end.

Definition on_leave (clientId : jsstring) (ref : positive) (parsed : JsVal)
    (w : World) : Result World :=
  let room := get parsed (lit "room") in
  let k := to_key ref room in
  if truthy room && map_has Key_eq_dec (rooms w) k then
    let w := room_delete k clientId w in
    match clients_get w clientId with
    | None => Throw TypeError
    | Some client =>
      let client :=
        {| socket := socket client;
           client_rooms := set_delete Key_eq_dec (client_rooms client) k;
           name := name client |} in
      let w := client_put clientId client w in
      let w := sendToClient (KStr clientId)
                 (obj [("type", VStr (lit "left")); ("room", room)]) w in
      text <- interpolate (name client) ;;
      Ok (broadcastRoom k (notice_obj (text ++ lit " left") clientId)
            clientId w)
    end
  else Ok w.

Definition on_msg (clientId : jsstring) (ref : positive) (parsed : JsVal)
    (w : World) : Result World :=
  let to := get parsed (lit "to") in
  if truthy to then
    let toId := to_key ref to in
    let w := sendToClient toId
               (obj [("type", VStr (lit "msg")); ("from", VStr clientId);
                     ("text", get parsed (lit "text"));
                     ("private", VBool true)]) w in
    Ok (sendToClient (KStr clientId)
          (obj [("type", VStr (lit "msg")); ("from", VStr clientId);
                ("to", to); ("text", get parsed (lit "text"));
                ("private", VBool true)]) w)
  else
    let room := get parsed (lit "room") in
    if negb (truthy room) then
      Ok (sendToClient (KStr clientId) (error_obj "no_room") w)
    else
      Ok (broadcastRoom (to_key ref room)
            (obj [("type", VStr (lit "msg")); ("from", VStr clientId);
                  ("text", get parsed (lit "text")); ("room", room)])
            clientId w).

(** [{ id, name: clients.get(id)?.name }] *)
Definition member_obj (w : World) (id : jsstring) : JsVal :=
  obj [("id", VStr id);
       ("name", match clients_get w id with
                | Some c => name c
                | None => VUndef
                end)].

Definition on_list (clientId : jsstring) (ref : positive) (parsed : JsVal)
    (w : World) : Result World :=
  let room := js_or (get parsed (lit "room")) (VStr lobby) in
  let set := match rooms_get w (to_key ref room) with
             | Some s => s
             | None => []
             end in
  let members := map (member_obj w) set in
  Ok (sendToClient (KStr clientId)
        (obj [("type", VStr (lit "list")); ("room", room);
              ("members", VArr members)]) w).

(** Every call parses once; [heap w] names the object that comes out, and
    the next call gets another one. Reading [parsed.type] off [null]
    raises. *)
Definition handleJsonMessage (clientId : jsstring) (data : jsstring)
    (w : World) : Result World :=
  match JSON_parse data with
  | None => Ok (sendToClient (KStr clientId) (error_obj "invalid_json") w)
  | Some parsed =>
    let ref := heap w in
    let w := set_heap w (Pos.succ ref) in
    if is_nullish parsed then Throw TypeError
    else
      let type := get parsed (lit "type") in
      if is_str type (lit "join") then on_join clientId ref parsed w
      else if is_str type (lit "leave") then on_leave clientId ref parsed w
      else if is_str type (lit "msg") then on_msg clientId ref parsed w
      else if is_str type (lit "list") then on_list clientId ref parsed w
      else Ok (sendToClient (KStr clientId) (error_obj "unknown_type") w)
  end.

(** The [for (const room of client.rooms)] loop over the rooms [rs] that
    are left: the state in which it ends, and the exception that ended it
    when the conversion of the name raised one. *)
Fixpoint cleanup_rooms (clientId : jsstring) (client : Client)
    (rs : list Key) (w : World) : World * option JsError :=
  match rs with
  | [] => (w, None)
  | room :: rs' =>
    match rooms_get w room with
    | Some _ =>
      let w := room_delete room clientId w in
      match interpolate (name client) with
      | Ok text =>
        cleanup_rooms clientId client rs'
          (broadcastRoom room
             (notice_obj (text ++ lit " disconnected") clientId) clientId w)
      | Throw e => (w, Some e)
      end
    | None => cleanup_rooms clientId client rs' w
    end
  end.

Definition cleanupClient (clientId : jsstring) (w : World) : Result World :=
  match clients_get w clientId with
  | None => Ok w
  | Some client =>
    match cleanup_rooms clientId client (client_rooms client) w with
    | (w, None) =>
      let w := socket_destroy (socket client) w in
      Ok (set_clients w (map_delete jsstring_eq_dec (clients w) clientId))
    | (_, Some e) => Throw e
    end
  end.

(** ** The connection *)

(** [Buffer.concat([Buffer.from([0x8A, payload.length]), Buffer.from(payload)])]:
    an array element is stored modulo 256. *)
Definition pongFrame (payload : jsstring) : Buffer :=
  [0x8A; Z.of_nat (length payload) mod 256] ++ utf8_encode payload.

(** What the data handler does with one frame, once its bytes are off the
    buffer: the new state, and whether the loop goes on ([false] is the
    [return] after a close frame). *)
Definition handle_frame (clientId : jsstring) (sock : nat) (frame : Frame)
    (w : World) : Result (bool * World) :=
  if opcode frame =? 0x8 then
    w' <- cleanupClient clientId w ;; Ok (false, socket_end sock w')
  else if opcode frame =? 0x9 then
    Ok (true, socket_write sock (pongFrame (payload frame)) w)
  else if opcode frame =? 0xA then Ok (true, w)
  else if opcode frame =? 0x1 then
    w' <- handleJsonMessage clientId (payload frame) w ;; Ok (true, w')
  else Ok (true, w).

(** The [while (recvBuffer.length > 2)] loop of the data handler. Every
    round drops at least two bytes, so the buffer's length is fuel enough
    (see [data_loop_fuel]). *)
Fixpoint data_loop (fuel : nat) (clientId : jsstring) (sock : nat)
    (w : World) : Result World :=
  let buffer := recvBuffer (socket_get w sock) in
  if 2 <? blen buffer then
    match fuel with
    | O => Ok w
    | S fuel' =>
      r <- parseFrame buffer ;;
      match r with
      | None => Ok w
      | Some frame =>
        let w := set_recvBuffer sock (slice_from (frameLen frame) buffer) w in
        r <- handle_frame clientId sock frame w ;;
        if fst r then data_loop fuel' clientId sock (snd r) else Ok (snd r)
      end
    end
  else Ok w.

Definition on_data (clientId : jsstring) (sock : nat) (buf : Buffer)
    (w : World) : Result World :=
  let buffer := recvBuffer (socket_get w sock) ++ buf in
  data_loop (length buffer) clientId sock (set_recvBuffer sock buffer w).



Definition CRLF : jsstring := [13; 10].

(** The upgrade handler; [key] is the Sec-WebSocket-Key header, if any.
    It returns the id it registered. *)
Definition on_upgrade (key : option jsstring) (sock : nat) (w : World)
    : option jsstring * World :=
  match key with
  | Some ((_ :: _) as key) =>
    let accept := computeAccept key in
    let w := socket_write sock
               (utf8_encode
                  (lit "HTTP/1.1 101 Switching Protocols" ++ CRLF ++
                   lit "Upgrade: websocket" ++ CRLF ++
                   lit "Connection: Upgrade" ++ CRLF ++
                   lit "Sec-WebSocket-Accept: " ++ accept ++ CRLF ++ CRLF)) w in
    let (clientId, w) := genClientId w in
    let client := {| socket := sock; client_rooms := []; name := VStr clientId |} in
    let w := client_put clientId client w in
    let w := set_recvBuffer sock [] w in
    (Some clientId,
     sendToClient (KStr clientId)
       (obj [("type", VStr (lit "welcome")); ("id", VStr clientId);
             ("message", VStr (lit "welcome to minimal-ws-relay"))]) w)
  | _ =>
    (None,
     socket_destroy sock
       (socket_write sock
          (utf8_encode (lit "HTTP/1.1 400 Bad Request" ++ CRLF ++ CRLF)) w))
  end.
End Relay.

(** ** A reference instance of the runtime services

    Enough of [JSON.parse], [JSON.stringify] and string conversion to run the
    relay on concrete traffic: JSON texts whose numbers are integer literals
    below 2^53 in size and whose object keys are not array indices. Outside
    that domain [JSON_parse] answers [None], which is not what the runtime
    does; the general theorems below hold for every instance and do not use
    this one. *)
Module Reference.

(** The binary64 bit pattern of an integer below 2^53 in size, and back. *)
Definition bits_of_int (negative : bool) (n : Z) : Z :=
  let sign := if negative then 2 ^ 63 else 0 in
  if n =? 0 then sign
  else
    let e := Z.log2 n in
    sign + (e + 1023) * 2 ^ 52 + (n * 2 ^ 52 / 2 ^ e - 2 ^ 52).

Definition int_of_bits (bits : Z) : option (bool * Z) :=
  let negative := 2 ^ 63 <=? bits in
  let b := bits mod 2 ^ 63 in
  let e := b / 2 ^ 52 - 1023 in
  let m := b mod 2 ^ 52 + 2 ^ 52 in
  if b =? 0 then Some (negative, 0)
  else if (e <? 0) || (1024 <=? e) then None
  else if (m * 2 ^ e) mod 2 ^ 52 =? 0 then Some (negative, m * 2 ^ e / 2 ^ 52)
  else None.

Definition is_ws (c : Z) : bool :=
  (c =? 0x20) || (c =? 0x09) || (c =? 0x0A) || (c =? 0x0D).

Fixpoint skip_ws (s : jsstring) : jsstring :=
  match s with
  | c :: r => if is_ws c then skip_ws r else s
  | [] => []
  end.

Fixpoint strip_prefix (p s : jsstring) : option jsstring :=
  match p, s with
  | [], _ => Some s
  | a :: p', b :: s' => if a =? b then strip_prefix p' s' else None
  | _ :: _, [] => None
  end.

Definition hex_digit (c : Z) : option Z :=
  if in_range c 48 57 then Some (c - 48)
  else if in_range c 65 70 then Some (c - 55)
  else if in_range c 97 102 then Some (c - 87)
  else None.

Definition hex4 (a b c d : Z) : option Z :=
  match hex_digit a, hex_digit b, hex_digit c, hex_digit d with
  | Some x, Some y, Some z, Some t => Some (((x * 16 + y) * 16 + z) * 16 + t)
  | _, _, _, _ => None
  end.

Definition cons_fst (c : Z) (r : option (jsstring * jsstring)) :=
  match r with
  | Some (str, rest) => Some (c :: str, rest)
  | None => None
  end.

(** After the opening quote. *)
Fixpoint parse_string (s : jsstring) : option (jsstring * jsstring) :=
  match s with
  | [] => None
  | c :: r =>
    if c =? 34 then Some ([], r)
    else if c =? 92 then
      match r with
      | e :: r1 =>
        if e =? 34 then cons_fst 34 (parse_string r1)
        else if e =? 92 then cons_fst 92 (parse_string r1)
        else if e =? 47 then cons_fst 47 (parse_string r1)
        else if e =? 98 then cons_fst 8 (parse_string r1)
        else if e =? 102 then cons_fst 12 (parse_string r1)
        else if e =? 110 then cons_fst 10 (parse_string r1)
        else if e =? 114 then cons_fst 13 (parse_string r1)
        else if e =? 116 then cons_fst 9 (parse_string r1)
        else if e =? 117 then
          match r1 with
          | a :: b :: x :: d :: r2 =>
            match hex4 a b x d with
            | Some u => cons_fst u (parse_string r2)
            | None => None
            end
          | _ => None
          end
        else None
      | [] => None
      end
    else if c <? 0x20 then None
    else cons_fst c (parse_string r)
  end.

Definition is_digit (c : Z) : bool := in_range c 48 57.

Fixpoint parse_digits (acc : Z) (s : jsstring) : Z * jsstring :=
  match s with
  | c :: r => if is_digit c then parse_digits (acc * 10 + (c - 48)) r else (acc, s)
  | [] => (acc, [])
  end.

(** An integer literal; a fraction, an exponent or a value of 2^53 or more
    is outside the domain. *)
Definition parse_number (s : jsstring) : option (JsVal * jsstring) :=
  let (negative, s) := match s with
                       | c :: r => if c =? 45 then (true, r) else (false, s)
                       | [] => (false, s)
                       end in
  match s with
  | c :: r =>
    if negb (is_digit c) then None
    else
      let (n, rest) := if c =? 48 then (0, r) else parse_digits 0 s in
      match rest with
      | d :: _ =>
        if is_digit d || (d =? 46) || (d =? 101) || (d =? 69) then None
        else if 2 ^ 53 <=? n then None
        else Some (VNum (bits_of_int negative n), rest)
      | [] =>
        if 2 ^ 53 <=? n then None
        else Some (VNum (bits_of_int negative n), rest)
      end
  | [] => None
  end.

(** A key that is an array index, the decimal form of an integer below
    2^32 - 1: the runtime lists such keys first, in numeric order, and this
    instance does not follow it there. *)
Definition is_array_index (key : jsstring) : bool :=
  match key with
  | [] => false
  | c :: r =>
    forallb is_digit key &&
    (negb (c =? 48) || match r with [] => true | _ :: _ => false end) &&
    (fst (parse_digits 0 key) <? 2 ^ 32 - 1)
  end.

Fixpoint parse_value (fuel : nat) (s : jsstring) : option (JsVal * jsstring) :=
  match fuel with
  | O => None
  | S fuel =>
    let s := skip_ws s in
    match strip_prefix (lit "null") s with Some r => Some (VNull, r) | None =>
    match strip_prefix (lit "true") s with Some r => Some (VBool true, r) | None =>
    match strip_prefix (lit "false") s with Some r => Some (VBool false, r) | None =>
    match s with
    | [] => None
    | c :: r =>
      if c =? 34 then
        match parse_string r with
        | Some (str, rest) => Some (VStr str, rest)
        | None => None
        end
      else if c =? 91 then
        match skip_ws r with
        | d :: r' =>
          if d =? 93 then Some (VArr [], r')
          else match parse_elements fuel r with
               | Some (items, rest) => Some (VArr items, rest)
               | None => None
               end
        | [] => None
        end
      else if c =? 123 then
        match skip_ws r with
        | d :: r' =>
          if d =? 125 then Some (VObj [], r')
          else match parse_members fuel [] r with
               | Some (fields, rest) => Some (VObj fields, rest)
               | None => None
               end
        | [] => None
        end
      else parse_number s
    end end end end
  end
with parse_elements (fuel : nat) (s : jsstring)
    : option (list JsVal * jsstring) :=
  match fuel with
  | O => None
  | S fuel =>
    match parse_value fuel s with
    | Some (v, rest) =>
      match skip_ws rest with
      | c :: r =>
        if c =? 93 then Some ([v], r)
        else if c =? 44 then
          match parse_elements fuel r with
          | Some (items, rest') => Some (v :: items, rest')
          | None => None
          end
        else None
      | [] => None
      end
    | None => None
    end
  end
with parse_members (fuel : nat) (acc : list (jsstring * JsVal)) (s : jsstring)
    : option (list (jsstring * JsVal) * jsstring) :=
  match fuel with
  | O => None
  | S fuel =>
    match skip_ws s with
    | q :: r =>
      if q =? 34 then
        match parse_string r with
        | Some (key, rest) =>
          match skip_ws rest with
          | colon :: r1 =>
            if is_array_index key then None
            else if colon =? 58 then
              match parse_value fuel r1 with
              | Some (v, rest1) =>
                let acc := map_set jsstring_eq_dec acc key v in
                match skip_ws rest1 with
                | c :: r2 =>
                  if c =? 125 then Some (acc, r2)
                  else if c =? 44 then parse_members fuel acc r2
                  else None
                | [] => None
                end
              | None => None
              end
            else None
          | [] => None
          end
        | None => None
        end
      else None
    | [] => None
    end
  end.

Definition JSON_parse (text : jsstring) : option JsVal :=
  match parse_value (2 * length text + 2) text with
  | Some (v, rest) => match skip_ws rest with [] => Some v | _ => None end
  | None => None
  end.

Definition hex_char (d : Z) : Z := if d <? 10 then 48 + d else 87 + d.

Definition backslash : Z := 92.

Definition escape_unit (c : Z) : jsstring :=
  backslash :: lit "u" ++ [hex_char (c / 4096); hex_char ((c / 256) mod 16);
               hex_char ((c / 16) mod 16); hex_char (c mod 16)].

(** A surrogate that has its partner is copied, a lone one is escaped. *)
Fixpoint quote_body (s : jsstring) : jsstring :=
  match s with
  | [] => []
  | c :: r =>
    if c =? 34 then backslash :: 34 :: quote_body r
    else if c =? 92 then backslash :: backslash :: quote_body r
    else if c =? 8 then backslash :: lit "b" ++ quote_body r
    else if c =? 12 then backslash :: lit "f" ++ quote_body r
    else if c =? 10 then backslash :: lit "n" ++ quote_body r
    else if c =? 13 then backslash :: lit "r" ++ quote_body r
    else if c =? 9 then backslash :: lit "t" ++ quote_body r
    else if c <? 0x20 then escape_unit c ++ quote_body r
    else if is_high c then
      match r with
      | lo :: r' =>
        if is_low lo then c :: lo :: quote_body r'
        else escape_unit c ++ quote_body r
      | [] => escape_unit c
      end
    else if is_low c then escape_unit c ++ quote_body r
    else c :: quote_body r
  end.

Definition quote (s : jsstring) : jsstring := [34] ++ quote_body s ++ [34].

Definition number_text (bits : Z) : option jsstring :=
  match int_of_bits bits with
  | Some (negative, n) =>
    if 2 ^ 53 <=? n then None
    else Some ((if negative && negb (n =? 0) then lit "-" else []) ++ decimal n)
  | None => None
  end.

Fixpoint join_with (sep : jsstring) (parts : list jsstring) : jsstring :=
  match parts with
  | [] => []
  | [x] => x
  | x :: rest => x ++ sep ++ join_with sep rest
  end.

(** A property whose value is [undefined] is left out; in an array it is
    written [null], like a number that is not finite. *)
Fixpoint JSON_stringify (v : JsVal) : jsstring :=
  match v with
  | VUndef | VNull => lit "null"
  | VBool true => lit "true"
  | VBool false => lit "false"
  | VNum bits => match number_text bits with Some t => t | None => lit "null" end
  | VStr s => quote s
  | VArr items => lit "[" ++ join_with (lit ",") (map JSON_stringify items) ++ lit "]"
  | VObj fields =>
    lit "{" ++
    join_with (lit ",")
      ((fix members (l : list (jsstring * JsVal)) : list jsstring :=
          match l with
          | [] => []
          | (k, VUndef) :: rest => members rest
          | (k, x) :: rest => (quote k ++ lit ":" ++ JSON_stringify x) :: members rest
          end) fields) ++
    lit "}"
  end.

(** [`${v}`] *)
Fixpoint ToString (v : JsVal) : jsstring :=
  match v with
  | VUndef => lit "undefined"
  | VNull => lit "null"
  | VBool true => lit "true"
  | VBool false => lit "false"
  | VNum bits =>
    match number_text bits with
    | Some t => t
    | None => if num_is_nan bits then lit "NaN" else lit "Infinity"
    end
  | VStr s => s
  | VArr items =>
    join_with (lit ",")
      (map (fun x => if is_nullish x then [] else ToString x) items)
  | VObj _ => lit "[object Object]"
  end.

(** The digest is not computed: a fixed token stands for it. *)
Definition computeAccept (key : jsstring) : jsstring := lit "<accept>".

(** A JSON text written with ['] for the double quote. *)
Definition json (text : string) : jsstring :=
  map (fun c => if c =? 39 then 34 else c) (lit text).

End Reference.

(** ** The accept token

    [crypto.createHash('sha1').update(s).digest('base64')]: SHA-1 (FIPS 180-4)
    of the UTF-8 of the string, written in base64 (RFC 4648) with padding. *)
Module Digest.

Definition GUID : jsstring := lit "258EAFA5-E914-47DA-95CA-C5AB0DC85B11".

(** Words of 32 bits. *)
Definition add32 (a b : Z) : Z := (a + b) mod 2 ^ 32.
Definition not32 (a : Z) : Z := Z.lxor a 0xFFFFFFFF.
Definition rotl (n a : Z) : Z :=
  Z.lor (Z.shiftl a n mod 2 ^ 32) (Z.shiftr a (32 - n)).

(** The message, a 1 bit, zeros up to 56 modulo 64 bytes, and the length in
    bits on 64 bits. *)
Definition pad (msg : Buffer) : Buffer :=
  msg ++ [0x80] ++ repeat 0 (Z.to_nat ((55 - blen msg) mod 64)) ++
  be_bytes 8 (8 * blen msg).

(** The sixteen words of a block, and the block cut off. *)
Fixpoint words (n : nat) (b : Buffer) : list Z * Buffer :=
  match n with
  | O => ([], b)
  | S n' =>
    match b with
    | b0 :: b1 :: b2 :: b3 :: rest =>
      let (ws, rest') := words n' rest in
      (be_value [b0; b1; b2; b3] :: ws, rest')
    | _ => ([], [])
    end
  end.

(** The message schedule: [n] more words. *)
Fixpoint schedule (n : nat) (ws : list Z) : list Z :=
  match n with
  | O => ws
  | S n' =>
    let i := length ws in
    let w j := nth (i - j) ws 0 in
    schedule n' (ws ++ [rotl 1 (Z.lxor (Z.lxor (w 3%nat) (w 8%nat))
                                       (Z.lxor (w 14%nat) (w 16%nat)))])
  end.

Definition State := (Z * Z * Z * Z * Z)%type.

Definition round (i : nat) (s : State) (w : Z) : State :=
  let '(a, b, c, d, e) := s in
  let '(f, k) :=
    if (i <? 20)%nat then (Z.lor (Z.land b c) (Z.land (not32 b) d), 0x5A827999)
    else if (i <? 40)%nat then (Z.lxor (Z.lxor b c) d, 0x6ED9EBA1)
    else if (i <? 60)%nat then
      (Z.lor (Z.lor (Z.land b c) (Z.land b d)) (Z.land c d), 0x8F1BBCDC)
    else (Z.lxor (Z.lxor b c) d, 0xCA62C1D6) in
  let temp := add32 (add32 (add32 (add32 (rotl 5 a) f) e) k) w in
  (temp, a, rotl 30 b, c, d).

Fixpoint rounds (i : nat) (ws : list Z) (s : State) : State :=
  match ws with
  | [] => s
  | w :: rest => rounds (S i) rest (round i s w)
  end.

Definition compress (h : State) (block : list Z) : State :=
  let '(h0, h1, h2, h3, h4) := h in
  let '(a, b, c, d, e) := rounds 0 (schedule 64 block) h in
  (add32 h0 a, add32 h1 b, add32 h2 c, add32 h3 d, add32 h4 e).

(** One block for every 64 bytes; [n] is a bound on their number. *)
Fixpoint blocks (n : nat) (b : Buffer) (h : State) : State :=
  match n with
  | O => h
  | S n' =>
    match b with
    | [] => h
    | _ => let (ws, rest) := words 16 b in blocks n' rest (compress h ws)
    end
  end.

Definition initial_hash : State :=
  (0x67452301, 0xEFCDAB89, 0x98BADCFE, 0x10325476, 0xC3D2E1F0).

Definition sha1 (msg : Buffer) : Buffer :=
  let '(h0, h1, h2, h3, h4) := blocks (length (pad msg)) (pad msg) initial_hash in
  be_bytes 4 h0 ++ be_bytes 4 h1 ++ be_bytes 4 h2 ++ be_bytes 4 h3 ++ be_bytes 4 h4.

Definition alphabet : jsstring :=
  lit "ABCDEFGHIJKLMNOPQRSTUVWXYZabcdefghijklmnopqrstuvwxyz0123456789+/".

Definition digit (v : Z) : Z := nth (Z.to_nat (v mod 64)) alphabet 0.

Fixpoint base64 (n : nat) (b : Buffer) : jsstring :=
  match n with
  | O => []
  | S n' =>
    match b with
    | [] => []
    | [x] => [digit (x / 4); digit (x mod 4 * 16); 61; 61]
    | [x; y] => [digit (x / 4); digit (x mod 4 * 16 + y / 16);
                 digit (y mod 16 * 4); 61]
    | x :: y :: z :: rest =>
      [digit (x / 4); digit (x mod 4 * 16 + y / 16);
       digit (y mod 16 * 4 + z / 64); digit z] ++ base64 n' rest
    end
  end.

Definition digest_base64 (msg : Buffer) : jsstring :=
  let d := sha1 msg in base64 (length d) d.

Definition computeAccept (key : jsstring) : jsstring :=
  digest_base64 (utf8_encode (key ++ GUID)).

End Digest.

(** ** The status page *)

Record Response := {
  statusCode : Z;
  contentType : jsstring;
  body : jsstring
}.

(** The number [n], for a size. *)
Definition number (n : nat) : JsVal :=
  VNum (Reference.bits_of_int false (Z.of_nat n)).

Section Status.
Variable JSON_stringify : JsVal -> jsstring.

(** The request handler of [http.createServer]. *)
Definition on_request (url : jsstring) (w : World) : Response :=
  if jsstring_eq_dec url (lit "/status") then
    {| statusCode := 200; contentType := lit "application/json";
       body := JSON_stringify
                 (obj [("ok", VBool true);
                       ("clients", number (length (clients w)))]) |}
  else
    {| statusCode := 200; contentType := lit "text/plain";
       body := lit "This is a minimal WebSocket relay server." ++ [10] |}.
End Status.

(** ** Concrete traffic

    Two clients on two sockets and the frames they send, run on the reference
    instance. *)
Module Scenario.
Import Reference.

Definition key : jsstring := lit "dGhlIHNhbXBsZSBub25jZQ==".

(** A client connects on [sock]. *)
Definition upgrade (sock : nat) (w : World) : World :=
  snd (on_upgrade JSON_stringify computeAccept (Some key) sock w).

Definition c1 : jsstring := lit "c1".
Definition c2 : jsstring := lit "c2".
Definition r1 : Key := KStr (lit "r1").

(** [c1] on socket 0, alone; then [c2] on socket 1 as well. *)
Definition one : World := Eval vm_compute in upgrade 0 initial.
Definition two : World := Eval vm_compute in upgrade 1 one.

Definition say (cid : jsstring) (text : string) (w : World) : Result World :=
  handleJsonMessage JSON_parse JSON_stringify ToString cid (json text) w.

Definition receive (cid : jsstring) (sock : nat) (chunk : Buffer) (w : World)
    : Result World :=
  on_data JSON_parse JSON_stringify ToString cid sock chunk w.

Fixpoint feed (cid : jsstring) (sock : nat) (chunks : list Buffer) (w : World)
    : Result World :=
  match chunks with
  | [] => Ok w
  | chunk :: rest => w' <- receive cid sock chunk w ;; feed cid sock rest w'
  end.

Definition one_by_one (b : Buffer) : list Buffer := map (fun x => [x]) b.

(** The state a run leaves; the initial state stands for a run that raised. *)
Definition state (r : Result World) : World :=
  match r with
  | Ok w => w
  | Throw _ => initial
  end.

(** Both clients in room "r1". *)
Definition both_in_r1 : World :=
  Eval vm_compute in
    state (w <- say c1 "{'type':'join','room':'r1','name':'alice'}" two ;;
           say c2 "{'type':'join','room':'r1'}" w).

(** The same with [c1] under a name that no template literal converts, the
    object of the JSON text [{"toString":1}]. *)
Definition odd_name : JsVal := VObj [(lit "toString", VNum (bits_of_int false 1))].


(** A frame as a client sends it: final, masked, payload below 126 bytes. *)
Definition client_frame (opcode : Z) (mask payload : Buffer) : Buffer :=
  [0x80 + opcode; 0x80 + blen payload] ++ mask ++ unmask 0 mask payload.

Definition mask : Buffer := [0x37; 0xfa; 0x21; 0x3d].

Definition text_frame (text : string) : Buffer :=
  client_frame 0x1 mask (utf8_encode (json text)).

Definition parsed (text : string) : JsVal :=
  match JSON_parse (json text) with
  | Some v => v
  | None => VUndef
  end.

Definition client (w : World) (cid : jsstring) : Client :=
  match clients_get w cid with
  | Some c => c
  | None => {| socket := 0; client_rooms := []; name := VUndef |}
  end.

Definition sent (w : World) (s : nat) : list Buffer := written (socket_get w s).

Definition reply (o : JsVal) : Buffer := buildTextFrame (JSON_stringify o).
End Scenario.

(** ** Vocabulary of the statements *)

(** A result that is a state, of which [P] holds. *)
Definition holds_after (r : Result World) (P : World -> Prop) : Prop :=
  match r with
  | Ok w => P w
  | Throw _ => False
  end.

(** A socket that still takes writes. *)
Definition open_socket (w : World) (s : nat) : bool :=
  negb (destroyed (socket_get w s) || ended (socket_get w s)).

(** The members of [set] for whom a broadcast that leaves out [excludeId]
    writes on socket [s]: registered, served by [s], and [s] takes writes. *)
Definition recipients (w : World) (excludeId : jsstring) (set : list jsstring)
    (s : nat) : list jsstring :=
  filter (fun cid =>
            if jsstring_eq_dec cid excludeId then false
            else match clients_get w cid with
                 | Some c => Nat.eqb (socket c) s && open_socket w s
                 | None => false
                 end) set.

(** [rooms.get(room) || new Set()] *)
Definition members (w : World) (room : Key) : list jsstring :=
  match rooms_get w room with
  | Some s => s
  | None => []
  end.

(** The registry invariant: an id is in a room's set exactly when it is the id
    of a registered client whose own set has the room. *)
Definition consistent (w : World) : Prop :=
  forall id room,
    In id (members w room) <->
    exists c, clients_get w id = Some c /\ In room (client_rooms c).

(** The room a join goes to, and the client record it leaves. *)
Definition join_room (ref : positive) (parsed : JsVal) : Key :=
  to_key ref (js_or (get parsed (lit "room")) (VStr lobby)).

Definition joined_client (clientId : jsstring) (ref : positive)
    (parsed : JsVal) (c : Client) : Client :=
  {| socket := socket c;
     client_rooms := set_add Key_eq_dec (client_rooms c) (join_room ref parsed);
     name := js_or (get parsed (lit "name")) (js_or (name c) (VStr clientId)) |}.

(** The room a leave names, and the client record it leaves. *)
Definition leave_room (ref : positive) (parsed : JsVal) : Key :=
  to_key ref (get parsed (lit "room")).

Definition left_client (ref : positive) (parsed : JsVal) (c : Client) : Client :=
  {| socket := socket c;
     client_rooms := set_delete Key_eq_dec (client_rooms c) (leave_room ref parsed);
     name := name c |}.

(** The name under which [cid] is registered, if it is, can be converted. *)
Definition printable_name (w : World) (cid : jsstring) : Prop :=
  forall c, clients_get w cid = Some c -> printable (name c) = true.

(** [consistent], as a check that runs. *)
Definition consistentb (w : World) : bool :=
  forallb (fun rs =>
             forallb (fun id =>
                        match clients_get w id with
                        | Some c => set_has Key_eq_dec (client_rooms c) (fst rs)
                        | None => false
                        end) (snd rs)) (rooms w) &&
  forallb (fun ic =>
             match clients_get w (fst ic) with
             | Some c =>
               forallb (fun room => set_has jsstring_eq_dec (members w room) (fst ic))
                       (client_rooms c)
             | None => false
             end) (clients w).

(** Every socket is as open, as ended and as far in its input as before. *)
Definition sockets_kept (w w' : World) : Prop :=
  forall s, destroyed (socket_get w' s) = destroyed (socket_get w s) /\
            ended (socket_get w' s) = ended (socket_get w s) /\
            recvBuffer (socket_get w' s) = recvBuffer (socket_get w s).

(** The notice that a cleanup broadcasts. *)
Definition departure_notice (ToString : JsVal -> jsstring) (clientId : jsstring)
    (c : Client) : JsVal :=
  notice_obj (ToString (name c) ++ lit " disconnected") clientId.

(** One round of the loop of a cleanup that converts the name, and the state
    that a cleanup leaves when it returns. *)
Definition cleanup_round (JSON_stringify ToString : JsVal -> jsstring)
    (clientId : jsstring) (client : Client) (w : World) (room : Key) : World :=
  match rooms_get w room with
  | Some _ =>
    broadcastRoom JSON_stringify room (departure_notice ToString clientId client)
      clientId (room_delete room clientId w)
  | None => w
  end.

Definition cleaned_up (JSON_stringify ToString : JsVal -> jsstring)
    (clientId : jsstring) (w : World) : World :=
  match clients_get w clientId with
  | None => w
  | Some client =>
    let w := fold_left (cleanup_round JSON_stringify ToString clientId client)
               (client_rooms client) w in
    let w := socket_destroy (socket client) w in
    set_clients w (map_delete jsstring_eq_dec (clients w) clientId)
  end.

(** One entry for every room of [c] and every recipient in it on socket [s]. *)
Definition departures (w : World) (clientId : jsstring) (c : Client) (s : nat)
    : list jsstring :=
  flat_map (fun room => recipients w clientId (members w room) s) (client_rooms c).

(** [k] is the id of a registered client whose socket is not destroyed:
    the condition under which [sendToClient] writes. *)
Definition connected (w : World) (k : Key) : bool :=
  match clients_get_key w k with
  | Some c => negb (destroyed (socket_get w (socket c)))
  | None => false
  end.

(** The state in which the dispatcher works once [JSON.parse] has returned. *)
Definition parsed_in (w : World) : World := set_heap w (Pos.succ (heap w)).

(** Two states that differ at most in what was written to sockets. *)
Definition writes_only (w w' : World) : Prop :=
  clients w' = clients w /\ rooms w' = rooms w /\
  nextId w' = nextId w /\ heap w' = heap w /\
  forall s, destroyed (socket_get w' s) = destroyed (socket_get w s) /\
            ended (socket_get w' s) = ended (socket_get w s) /\
            recvBuffer (socket_get w' s) = recvBuffer (socket_get w s).

(** ** Vocabulary of the further properties *)

(** A frame as a client writes it (RFC 6455, section 5.2): the first byte, the
    length of the payload in the shortest of the three forms with the mask
    bit set, the four mask bytes, and the payload XORed with them. *)
Definition masked_length (len : Z) : Buffer :=
  if len <? 126 then [0x80 + len]
  else if len <? 65536 then [0x80 + 126] ++ be_bytes 2 len
  else [0x80 + 127] ++ be_bytes 8 len.

Definition masked_frame (first : Z) (mask payload : Buffer) : Buffer :=
  [first] ++ masked_length (blen payload) ++ mask ++ unmask 0 mask payload.

(** The [while] loop of the data handler without a bound on its rounds:
    entered in state [w] it is left with the result [r] after having taken
    [n] frames off the buffer. It is left when the buffer has no more than
    two bytes, when [parseFrame] answers [null] or raises, when the handling
    of a frame raises, and by the [return] after a close frame. *)
Inductive loop_ends (JSON_parse : jsstring -> option JsVal)
    (JSON_stringify ToString : JsVal -> jsstring)
    (clientId : jsstring) (sock : nat) : World -> nat -> Result World -> Prop :=
| loop_short w :
    blen (recvBuffer (socket_get w sock)) <= 2 ->
    loop_ends JSON_parse JSON_stringify ToString clientId sock w 0 (Ok w)
| loop_break w :
    2 < blen (recvBuffer (socket_get w sock)) ->
    parseFrame (recvBuffer (socket_get w sock)) = Ok None ->
    loop_ends JSON_parse JSON_stringify ToString clientId sock w 0 (Ok w)
| loop_parse_raises w e :
    2 < blen (recvBuffer (socket_get w sock)) ->
    parseFrame (recvBuffer (socket_get w sock)) = Throw e ->
    loop_ends JSON_parse JSON_stringify ToString clientId sock w 0 (Throw e)
| loop_frame_raises w frame e :
    2 < blen (recvBuffer (socket_get w sock)) ->
    parseFrame (recvBuffer (socket_get w sock)) = Ok (Some frame) ->
    handle_frame JSON_parse JSON_stringify ToString clientId sock frame
      (set_recvBuffer sock
         (slice_from (frameLen frame) (recvBuffer (socket_get w sock))) w) =
    Throw e ->
    loop_ends JSON_parse JSON_stringify ToString clientId sock w 1 (Throw e)
| loop_return w frame w' :
    2 < blen (recvBuffer (socket_get w sock)) ->
    parseFrame (recvBuffer (socket_get w sock)) = Ok (Some frame) ->
    handle_frame JSON_parse JSON_stringify ToString clientId sock frame
      (set_recvBuffer sock
         (slice_from (frameLen frame) (recvBuffer (socket_get w sock))) w) =
    Ok (false, w') ->
    loop_ends JSON_parse JSON_stringify ToString clientId sock w 1 (Ok w')
| loop_again w frame w' n r :
    2 < blen (recvBuffer (socket_get w sock)) ->
    parseFrame (recvBuffer (socket_get w sock)) = Ok (Some frame) ->
    handle_frame JSON_parse JSON_stringify ToString clientId sock frame
      (set_recvBuffer sock
         (slice_from (frameLen frame) (recvBuffer (socket_get w sock))) w) =
    Ok (true, w') ->
    loop_ends JSON_parse JSON_stringify ToString clientId sock w' n r ->
    loop_ends JSON_parse JSON_stringify ToString clientId sock w (S n) r.

(** No one else is served by the socket: what the runtime guarantees, every
    connection having a socket of its own. *)
Definition sole_user (w : World) (cid : jsstring) (sock : nat) : Prop :=
  forall id c, clients_get w id = Some c -> socket c = sock -> id = cid.

(** Every element is in [0, n). *)
Definition all_below (n : Z) (l : list Z) : bool :=
  forallb (fun x => (0 <=? x) && (x <? n)) l.

(** [sole_user], as a check that runs. *)
Definition sole_userb (w : World) (cid : jsstring) (sock : nat) : bool :=
  forallb (fun ic => (if jsstring_eq_dec (fst ic) cid then true else false) ||
                     negb (Nat.eqb (socket (snd ic)) sock)) (clients w).

(** Every room that is in the map is still in it. *)
Definition rooms_kept (w w' : World) : Prop :=
  forall room, rooms_get w room <> None -> rooms_get w' room <> None.

(** A room given as an object or an array is a new key with every message;
    any other value is its own key. *)
Definition primitive (v : JsVal) : bool :=
  match v with
  | VArr _ | VObj _ => false
  | _ => true
  end.

(** Everybody but [cid] has the record and the memberships of before, and
    [cid] has the socket of before. *)
Definition others_kept (cid : jsstring) (w w' : World) : Prop :=
  (forall id, id <> cid -> clients_get w' id = clients_get w id) /\
  (forall c, clients_get w cid = Some c ->
             exists c', clients_get w' cid = Some c' /\ socket c' = socket c) /\
  (forall room id, id <> cid -> In id (members w' room) <-> In id (members w room)).

(** Every id in use is one that the counter has handed out. *)
Definition ids_below (w : World) : Prop :=
  forall id, clients_get w id <> None ->
             exists k, 1 <= k < nextId w /\ id = lit "c" ++ decimal k.

(** The counter stands where it stood and no id has come into use. *)
Definition ids_kept (w w' : World) : Prop :=
  nextId w' = nextId w /\
  forall id, clients_get w id = None -> clients_get w' id = None.

(** What the upgrade handler writes. *)
Definition switching_protocols (accept : jsstring) : Buffer :=
  utf8_encode
    (lit "HTTP/1.1 101 Switching Protocols" ++ CRLF ++
     lit "Upgrade: websocket" ++ CRLF ++
     lit "Connection: Upgrade" ++ CRLF ++
     lit "Sec-WebSocket-Accept: " ++ accept ++ CRLF ++ CRLF).

Definition bad_request : Buffer :=
  utf8_encode (lit "HTTP/1.1 400 Bad Request" ++ CRLF ++ CRLF).

Definition welcome_obj (clientId : jsstring) : JsVal :=
  obj [("type", VStr (lit "welcome")); ("id", VStr clientId);
       ("message", VStr (lit "welcome to minimal-ws-relay"))].

(** The record of a client that has just connected on [sock]. *)
Definition new_client (clientId : jsstring) (sock : nat) : Client :=
  {| socket := sock; client_rooms := []; name := VStr clientId |}.

(** The ids in use, in the order of the map, are the same. *)
Definition keys_kept (w w' : World) : Prop :=
  map fst (clients w') = map fst (clients w).

(** Every registered client has a name that can be converted, and the same
    as a check that runs. *)
Definition names_printable (w : World) : Prop :=
  forall cid, printable_name w cid.

Definition names_printableb (w : World) : bool :=
  forallb (fun ic => printable (name (snd ic))) (clients w).

(** A character of a base64 text. *)
Definition base64_char (c : Z) : Prop := In c Digest.alphabet \/ c = 61.

(** * Proofs *)

(** Division and remainder by a literal are linear arithmetic. *)
Ltac Zify.zify_post_hook ::= Z.to_euclidean_division_equations.

(** ** UTF-8 *)

Lemma in_range_true b lo hi : lo <= b <= hi -> in_range b lo hi = true.
Proof. unfold in_range. intros. apply andb_true_iff. split; apply Z.leb_le; lia. Qed.

Lemma in_range_false b lo hi : b < lo \/ hi < b -> in_range b lo hi = false.
Proof.
  unfold in_range. intros [H | H].
  - apply andb_false_iff. left. apply Z.leb_gt. lia.
  - apply andb_false_iff. right. apply Z.leb_gt. lia.
Qed.

Lemma in_range_spec b lo hi : in_range b lo hi = true <-> lo <= b <= hi.
Proof. unfold in_range. rewrite andb_true_iff, !Z.leb_le. tauto. Qed.

Ltac range_solve :=
  unfold lower3, upper3, lower4, upper4;
  repeat match goal with
         | |- context [?a =? ?b] => destruct (Z.eqb_spec a b)
         end;
  lia.

Ltac decide_ranges :=
  repeat match goal with
         | |- context [in_range ?b ?lo ?hi] =>
           first [ rewrite (in_range_true b lo hi) by range_solve
                 | rewrite (in_range_false b lo hi) by range_solve ]
         end.

Lemma utf8_decode_ascii u t :
  0 <= u < 0x80 -> utf8_decode (u :: t) = u :: utf8_decode t.
Proof. intros. cbn [utf8_decode]. decide_ranges. reflexivity. Qed.

Lemma utf8_decode_enc2 u t :
  0x80 <= u < 0x800 -> utf8_decode (enc2 u ++ t) = u :: utf8_decode t.
Proof.
  intros. unfold enc2. cbn [app utf8_decode]. decide_ranges.
  f_equal. unfold dec2. lia.
Qed.

Lemma utf8_decode_enc3 u t :
  0x800 <= u < 0x10000 -> is_high u = false -> is_low u = false ->
  utf8_decode (enc3 u ++ t) = u :: utf8_decode t.
Proof.
  unfold is_high, is_low. intros Hu Hh Hl.
  assert (u < 0xD800 \/ 0xDFFF < u) as Hs.
  { destruct (Z.ltb_spec u 0xD800); [ lia | ].
    destruct (Z.ltb_spec 0xDFFF u); [ lia | ].
    destruct (Z.ltb_spec u 0xDC00).
    - rewrite in_range_true in Hh by lia. discriminate.
    - rewrite in_range_true in Hl by lia. discriminate. }
  unfold enc3. cbn [app utf8_decode]. decide_ranges.
  f_equal. unfold dec3. lia.
Qed.

Lemma utf8_decode_enc4 hi lo t :
  is_high hi = true -> is_low lo = true ->
  utf8_decode (enc4 (pair_cp hi lo) ++ t) = hi :: lo :: utf8_decode t.
Proof.
  unfold is_high, is_low. rewrite !in_range_spec. intros Hh Hl.
  unfold enc4, pair_cp. cbn [app utf8_decode]. decide_ranges.
  unfold surrogates, dec4. cbn [app]. f_equal; [ lia | f_equal; lia ].
Qed.

Lemma enc3_REPLACEMENT : enc3 REPLACEMENT = REPLACEMENT_utf8.
Proof. reflexivity. Qed.

Lemma utf8_decode_REPLACEMENT t :
  utf8_decode (REPLACEMENT_utf8 ++ t) = REPLACEMENT :: utf8_decode t.
Proof.
  rewrite <- enc3_REPLACEMENT.
  apply utf8_decode_enc3; [ unfold REPLACEMENT; lia | reflexivity | reflexivity ].
Qed.

Lemma surrogate_bounds u :
  (is_high u = true -> 0xD800 <= u <= 0xDBFF) /\
  (is_low u = true -> 0xDC00 <= u <= 0xDFFF) /\
  (is_high u = false -> is_low u = false -> u < 0xD800 \/ 0xDFFF < u).
Proof.
  unfold is_high, is_low.
  split; [ apply in_range_spec | split; [ apply in_range_spec | ] ].
  intros Hh Hl.
  destruct (Z.ltb_spec u 0xD800); [ lia | ].
  destruct (Z.ltb_spec 0xDFFF u); [ lia | ].
  destruct (Z.ltb_spec u 0xDC00).
  - rewrite in_range_true in Hh by lia. discriminate.
  - rewrite in_range_true in Hl by lia. discriminate.
Qed.

(** Encoding and decoding again gives the string back, up to unpaired
    surrogates, which come back as U+FFFD. *)
Lemma utf8_roundtrip_upto n :
  forall s, (length s <= n)%nat -> Forall is_code_unit s ->
            utf8_decode (utf8_encode s) = toWellFormed s.
Proof.
  induction n as [| n IH]; intros s Hlen Hs.
  - destruct s; [ reflexivity | simpl in Hlen; lia ].
  - destruct s as [| u rest]; [ reflexivity | ].
    inversion Hs as [| ? ? Hu Hrest]; subst.
    unfold is_code_unit in Hu. simpl in Hlen.
    assert (IHrest : utf8_decode (utf8_encode rest) = toWellFormed rest)
      by (apply IH; [ lia | assumption ]).
    destruct (surrogate_bounds u) as (Hhi & Hlo & Hno).
    cbn [utf8_encode toWellFormed].
    destruct (Z.ltb_spec u 0x80).
    { rewrite utf8_decode_ascii by lia.
      unfold is_high, is_low. rewrite !in_range_false by lia. congruence. }
    destruct (Z.ltb_spec u 0x800).
    { rewrite utf8_decode_enc2 by lia.
      unfold is_high, is_low. rewrite !in_range_false by lia. congruence. }
    destruct (is_high u) eqn:Hh.
    { destruct rest as [| lo rest']; [ reflexivity | ].
      destruct (is_low lo) eqn:Hl.
      - rewrite utf8_decode_enc4 by assumption.
        inversion Hrest; subst. simpl in Hlen.
        rewrite IH by (assumption || lia). reflexivity.
      - rewrite utf8_decode_REPLACEMENT. congruence. }
    destruct (is_low u) eqn:Hl.
    { rewrite utf8_decode_REPLACEMENT. congruence. }
    rewrite utf8_decode_enc3 by (assumption || lia). congruence.
Qed.

Lemma utf8_roundtrip s :
  Forall is_code_unit s -> utf8_decode (utf8_encode s) = toWellFormed s.
Proof. apply (utf8_roundtrip_upto (length s)). lia. Qed.

(** The bytes of a string are those of its well-formed version. *)
Lemma utf8_encode_toWellFormed_upto n :
  forall s, (length s <= n)%nat -> utf8_encode (toWellFormed s) = utf8_encode s.
Proof.
  induction n as [| n IH]; intros s Hlen.
  - destruct s; [ reflexivity | simpl in Hlen; lia ].
  - destruct s as [| u rest]; [ reflexivity | ].
    simpl in Hlen.
    assert (IHrest : utf8_encode (toWellFormed rest) = utf8_encode rest)
      by (apply IH; lia).
    destruct (surrogate_bounds u) as (Hhi & Hlo & Hno).
    assert (HR : forall t, utf8_encode (REPLACEMENT :: t) = REPLACEMENT_utf8 ++ utf8_encode t)
      by reflexivity.
    cbn [toWellFormed].
    destruct (is_high u) eqn:Hh.
    { specialize (Hhi eq_refl).
      destruct rest as [| lo rest'].
      - cbn [utf8_encode]. rewrite Hh.
        destruct (Z.ltb_spec u 0x80); [ lia | ].
        destruct (Z.ltb_spec u 0x800); [ lia | ]. reflexivity.
      - destruct (is_low lo) eqn:Hl.
        + cbn [utf8_encode]. rewrite Hh, Hl.
          destruct (Z.ltb_spec u 0x80); [ lia | ].
          destruct (Z.ltb_spec u 0x800); [ lia | ].
          simpl in Hlen. rewrite IH by lia. reflexivity.
        + rewrite HR, IHrest.
          cbn [utf8_encode]. rewrite Hh, Hl.
          destruct (Z.ltb_spec u 0x80); [ lia | ].
          destruct (Z.ltb_spec u 0x800); [ lia | ]. reflexivity. }
    destruct (is_low u) eqn:Hl.
    { specialize (Hlo eq_refl). rewrite HR, IHrest.
      cbn [utf8_encode]. rewrite Hh, Hl.
      destruct (Z.ltb_spec u 0x80); [ lia | ].
      destruct (Z.ltb_spec u 0x800); [ lia | ]. reflexivity. }
    cbn [utf8_encode]. rewrite Hh, Hl, IHrest. reflexivity.
Qed.

Lemma utf8_encode_toWellFormed s :
  utf8_encode (toWellFormed s) = utf8_encode s.
Proof. apply (utf8_encode_toWellFormed_upto (length s)). lia. Qed.

Lemma toWellFormed_isWellFormed_upto n :
  forall s, (length s <= n)%nat -> isWellFormed s = true -> toWellFormed s = s.
Proof.
  induction n as [| n IH]; intros s Hlen Hwf.
  - destruct s; [ reflexivity | simpl in Hlen; lia ].
  - destruct s as [| u rest]; [ reflexivity | ].
    simpl in Hlen. cbn [toWellFormed isWellFormed] in *.
    destruct (is_high u).
    + destruct rest as [| lo rest']; [ discriminate | ].
      apply andb_true_iff in Hwf as [Hl Hwf]. rewrite Hl.
      simpl in Hlen. rewrite IH by (assumption || lia). reflexivity.
    + apply andb_true_iff in Hwf as [Hl Hwf].
      apply negb_true_iff in Hl. rewrite Hl.
      rewrite IH by (assumption || lia). reflexivity.
Qed.

Lemma toWellFormed_isWellFormed s :
  isWellFormed s = true -> toWellFormed s = s.
Proof. apply (toWellFormed_isWellFormed_upto (length s)). lia. Qed.

(** ** Buffers *)

Lemma blen_nonneg b : 0 <= blen b.
Proof. unfold blen. lia. Qed.

Lemma blen_app a b : blen (a ++ b) = blen a + blen b.
Proof. unfold blen. rewrite length_app. lia. Qed.

Lemma blen_cons x b : blen (x :: b) = 1 + blen b.
Proof. unfold blen. cbn [length]. lia. Qed.

Lemma slice_app h p rest :
  slice (blen h) (blen h + blen p) (h ++ p ++ rest) = p.
Proof.
  unfold slice, blen.
  replace (Z.of_nat (length h) + Z.of_nat (length p) - Z.of_nat (length h))
    with (Z.of_nat (length p)) by lia.
  rewrite !Nat2Z.id, skipn_app, skipn_all, Nat.sub_diag. cbn [app skipn].
  rewrite firstn_app, firstn_all, Nat.sub_diag. cbn [firstn].
  apply app_nil_r.
Qed.

Lemma slice_from_app h rest : slice_from (blen h) (h ++ rest) = rest.
Proof.
  unfold slice_from, blen.
  rewrite Nat2Z.id, skipn_app, skipn_all, Nat.sub_diag. reflexivity.
Qed.

Lemma to_double_small v : v < 2 ^ 53 -> to_double v = v.
Proof. unfold to_double. intros H. destruct (Z.ltb_spec v (2 ^ 53)); [ reflexivity | lia ]. Qed.

Lemma js_add_small a b : a + b < 2 ^ 53 -> js_add a b = a + b.
Proof. apply to_double_small. Qed.

(** A property of every number below a bound, by running through them. *)
Lemma forall_below (P : Z -> bool) (n : nat) :
  forallb P (map Z.of_nat (seq 0 n)) = true ->
  forall x, 0 <= x < Z.of_nat n -> P x = true.
Proof.
  intros H x Hx. rewrite forallb_forall in H. apply H.
  apply in_map_iff. exists (Z.to_nat x). split; [ lia | ].
  apply in_seq. lia.
Qed.

Lemma short_length_byte len :
  0 <= len < 126 -> Z.land len 0x80 = 0 /\ Z.land len 0x7f = len.
Proof.
  intros H.
  pose proof (forall_below
                (fun x => (Z.land x 0x80 =? 0) && (Z.land x 0x7f =? x)) 126
                eq_refl len H) as E.
  apply andb_true_iff in E as [E1 E2].
  split; apply Z.eqb_eq; assumption.
Qed.

Lemma be_value_snoc l b : be_value (l ++ [b]) = be_value l * 256 + b.
Proof. unfold be_value. rewrite fold_left_app. reflexivity. Qed.

Lemma be_bytes_S n v :
  be_bytes (S n) v = be_bytes n (v / 256) ++ [v mod 256].
Proof.
  cbn [be_bytes]. rewrite Z.shiftr_div_pow2 by lia.
  change 0xff with (Z.ones 8). rewrite Z.land_ones by lia. reflexivity.
Qed.

Lemma length_be_bytes n : forall v, length (be_bytes n v) = n.
Proof.
  induction n as [| n IH]; intros v; [ reflexivity | ].
  cbn [be_bytes]. rewrite length_app, IH. cbn [length]. lia.
Qed.

Lemma be_value_be_bytes n :
  forall v, 0 <= v < 256 ^ Z.of_nat n -> be_value (be_bytes n v) = v.
Proof.
  induction n as [| n IH]; intros v Hv.
  - cbn in *. lia.
  - rewrite be_bytes_S, be_value_snoc.
    rewrite Nat2Z.inj_succ, Z.pow_succ_r in Hv by lia.
    rewrite IH; [ lia | ].
    split; [ apply Z.div_pos; lia | apply Z.div_lt_upper_bound; lia ].
Qed.

Lemma to_double_large v : 2 ^ 53 <= v -> 2 ^ 53 <= to_double v.
Proof.
  intros Hv. unfold to_double.
  destruct (Z.ltb_spec v (2 ^ 53)); [ lia | ].
  assert (53 <= Z.log2 v) as Hl
    by (change 53 with (Z.log2 (2 ^ 53)) at 1; apply Z.log2_le_mono; lia).
  set (e := Z.log2 v - 52).
  assert (0 < 2 ^ e) as He by (apply Z.pow_pos_nonneg; lia).
  assert (0 < 2 ^ (e - 1)) by (apply Z.pow_pos_nonneg; lia).
  assert (2 * 2 ^ (e - 1) = 2 ^ e) as He2
    by (rewrite <- Z.pow_succ_r by lia; f_equal; lia).
  assert (2 ^ 52 * 2 ^ e <= v) as Hq.
  { rewrite <- Z.pow_add_r by lia. replace (52 + e) with (Z.log2 v) by lia.
    apply Z.log2_spec. lia. }
  assert (2 ^ 52 <= v / 2 ^ e) as Hq'
    by (apply Z.div_le_lower_bound; lia).
  assert (2 ^ 53 <= v / 2 ^ e * 2 ^ e) by nia.
  repeat match goal with |- context [if ?c then _ else _] => destruct c end; nia.
Qed.

Lemma to_double_nonneg v : 0 <= v -> 0 <= to_double v.
Proof.
  intros. destruct (Z.lt_ge_cases v (2 ^ 53)).
  - rewrite to_double_small; assumption.
  - pose proof (to_double_large v). lia.
Qed.

Lemma js_add_ge a b : 0 <= b -> a < 2 ^ 53 -> a <= js_add a b.
Proof.
  intros Hb Ha. unfold js_add.
  destruct (Z.lt_ge_cases (a + b) (2 ^ 53)).
  - rewrite to_double_small by assumption. lia.
  - pose proof (to_double_large (a + b)). lia.
Qed.

(** A sum that came out below 2^53 is exact. *)
Lemma js_add_exact a b : js_add a b < 2 ^ 53 -> js_add a b = a + b.
Proof.
  unfold js_add. intros H.
  destruct (Z.lt_ge_cases (a + b) (2 ^ 53)).
  - apply to_double_small. assumption.
  - pose proof (to_double_large (a + b)). lia.
Qed.

Lemma slice_app_l s e b rest :
  0 <= s -> e <= blen b -> slice s e (b ++ rest) = slice s e b.
Proof.
  unfold slice, blen. intros Hs0 He.
  destruct (Nat.le_gt_cases (Z.to_nat s) (length b)) as [Hs | Hs].
  - rewrite skipn_app. replace (Z.to_nat s - length b)%nat with 0%nat by lia.
    cbn [skipn]. rewrite firstn_app.
    replace (Z.to_nat (e - s) - length (skipn (Z.to_nat s) b))%nat with 0%nat
      by (rewrite length_skipn; lia).
    cbn [firstn]. apply app_nil_r.
  - replace (Z.to_nat (e - s)) with 0%nat by lia. reflexivity.
Qed.

Lemma slice_to_end s e b : blen b <= e -> slice s e b = slice_from s b.
Proof.
  unfold slice, slice_from, blen. intros He.
  apply firstn_all2. rewrite length_skipn. lia.
Qed.

Lemma Forall_slice (P : Z -> Prop) s e b : Forall P b -> Forall P (slice s e b).
Proof.
  unfold slice. intros H.
  rewrite <- (firstn_skipn (Z.to_nat s) b) in H. apply Forall_app in H as [_ H].
  rewrite <- (firstn_skipn (Z.to_nat (e - s)) (skipn (Z.to_nat s) b)) in H.
  apply Forall_app in H as [H _]. exact H.
Qed.

Lemma fold_be_nonneg l :
  Forall is_byte l -> forall acc, 0 <= acc ->
  0 <= fold_left (fun acc b => acc * 256 + b) l acc.
Proof.
  induction 1 as [| b l Hb _ IH]; intros acc Hacc; cbn [fold_left].
  - assumption.
  - apply IH. unfold is_byte in Hb. lia.
Qed.

Lemma be_value_nonneg l : Forall is_byte l -> 0 <= be_value l.
Proof. intros H. apply fold_be_nonneg; [ assumption | lia ]. Qed.

(** ** The frame codec *)

Lemma parseFrame_short buffer : blen buffer < 2 -> parseFrame buffer = Ok None.
Proof.
  intros H. unfold parseFrame.
  destruct (Z.ltb_spec (blen buffer) 2); [ reflexivity | lia ].
Qed.

Lemma parseFrame_split buffer :
  2 <= blen buffer ->
  parseFrame buffer = (lo <- declared buffer ;; Ok (Some (cut_frame buffer lo))).
Proof.
  intros H. unfold parseFrame, declared, cut_frame.
  destruct (Z.ltb_spec (blen buffer) 2); [ lia | ].
  cbv zeta.
  destruct (Z.land (nth 1 buffer 0) 127 =? 126).
  { destruct (readUInt16BE buffer 2); [ | reflexivity ].
    cbn [bind fst snd]. destruct (negb (Z.land (nth 1 buffer 0) 128 =? 0)); reflexivity. }
  destruct (Z.land (nth 1 buffer 0) 127 =? 127).
  { destruct (readBigUInt64BE buffer 2); [ | reflexivity ].
    cbn [bind fst snd]. destruct (negb (Z.land (nth 1 buffer 0) 128 =? 0)); reflexivity. }
  cbn [bind fst snd]. destruct (negb (Z.land (nth 1 buffer 0) 128 =? 0)); reflexivity.
Qed.

Lemma readUIntBE_app n b rest v :
  readUIntBE n b 2 = Ok v -> readUIntBE n (b ++ rest) 2 = Ok v.
Proof.
  unfold readUIntBE. rewrite blen_app. pose proof (blen_nonneg rest).
  destruct (Z.ltb_spec (blen b) (2 + Z.of_nat n)); [ discriminate | ].
  destruct (Z.ltb_spec (blen b + blen rest) (2 + Z.of_nat n)); [ lia | ].
  rewrite slice_app_l by lia. trivial.
Qed.

Lemma readUIntBE_nonneg n b v :
  Forall is_byte b -> readUIntBE n b 2 = Ok v -> 0 <= v.
Proof.
  unfold readUIntBE. intros Hb.
  destruct (blen b <? 2 + Z.of_nat n); [ discriminate | ].
  intros [= <-]. apply be_value_nonneg, Forall_slice, Hb.
Qed.

Lemma nth_app_l2 (i : nat) (b rest : Buffer) :
  (i < length b)%nat -> nth i (b ++ rest) 0 = nth i b 0.
Proof. intros. apply app_nth1. assumption. Qed.

(** What the header declares: a length that is not negative and one of three
    offsets. *)
Lemma declared_bounds b lo :
  Forall is_byte b -> declared b = Ok lo ->
  0 <= fst lo /\ (snd lo = 2 \/ snd lo = 4 \/ snd lo = 10).
Proof.
  unfold declared, readUInt16BE, readBigUInt64BE. intros Hb.
  destruct (Z.land (nth 1 b 0) 127 =? 126).
  { destruct (readUIntBE 2 b 2) eqn:E; [ | discriminate ].
    intros [= <-]. cbn [fst snd]. split; [ | lia ].
    eapply readUIntBE_nonneg; eassumption. }
  destruct (Z.land (nth 1 b 0) 127 =? 127).
  { destruct (readUIntBE 8 b 2) eqn:E; [ | discriminate ].
    intros [= <-]. cbn [fst snd]. split; [ | lia ].
    apply to_double_nonneg. eapply readUIntBE_nonneg; eassumption. }
  intros [= <-]. cbn [fst snd]. split; [ | lia ].
  apply Z.land_nonneg. right. lia.
Qed.

Lemma declared_app b rest lo :
  2 <= blen b -> declared b = Ok lo -> declared (b ++ rest) = Ok lo.
Proof.
  unfold declared, readUInt16BE, readBigUInt64BE, blen. intros Hlen.
  rewrite nth_app_l2 by lia.
  destruct (Z.land (nth 1 b 0) 127 =? 126).
  { destruct (readUIntBE 2 b 2) eqn:E; [ | discriminate ].
    rewrite (readUIntBE_app _ _ _ _ E). trivial. }
  destruct (Z.land (nth 1 b 0) 127 =? 127).
  { destruct (readUIntBE 8 b 2) eqn:E; [ | discriminate ].
    rewrite (readUIntBE_app _ _ _ _ E). trivial. }
  trivial.
Qed.

Lemma cut_frame_app b rest lo :
  2 <= blen b -> 0 <= fst lo -> 0 <= snd lo <= 10 ->
  frameLen (cut_frame b lo) <= blen b ->
  cut_frame (b ++ rest) lo = cut_frame b lo.
Proof.
  unfold cut_frame, blen. cbn [frameLen]. intros Hlen Hl Ho Hf.
  rewrite !nth_app_l2 by lia.
  destruct (negb (Z.land (nth 1 b 0) 128 =? 0)).
  - pose proof (js_add_ge (snd lo + 4) (fst lo)).
    rewrite !slice_app_l by (unfold blen; lia). reflexivity.
  - rewrite !slice_app_l by (unfold blen; lia). reflexivity.
Qed.

(** A frame that is all there parses the same with more bytes behind it. *)
Lemma parseFrame_app b rest f :
  Forall is_byte b -> parseFrame b = Ok (Some f) -> frameLen f <= blen b ->
  parseFrame (b ++ rest) = Ok (Some f).
Proof.
  intros Hb Hp Hf.
  destruct (Z.lt_ge_cases (blen b) 2) as [Hs | Hs].
  { rewrite parseFrame_short in Hp by assumption. discriminate. }
  rewrite parseFrame_split in Hp by assumption.
  rewrite parseFrame_split by (rewrite blen_app; pose proof (blen_nonneg rest); lia).
  destruct (declared b) as [lo |] eqn:E; [ | discriminate ].
  rewrite (declared_app _ _ _ Hs E). cbn [bind] in *.
  injection Hp as <-.
  destruct (declared_bounds _ _ Hb E) as [Hl Ho].
  rewrite cut_frame_app by (assumption || lia). reflexivity.
Qed.

Lemma slice_middle s e h p rest :
  s = blen h -> e = s + blen p -> slice s e (h ++ p ++ rest) = p.
Proof. intros -> ->. apply slice_app. Qed.

Lemma be_bytes_2 v : be_bytes 2 v = [(v / 256) mod 256; v mod 256].
Proof. rewrite !be_bytes_S. reflexivity. Qed.

Lemma be_bytes_8 v :
  be_bytes 8 v = map (fun i => (v / 256 ^ i) mod 256) [7; 6; 5; 4; 3; 2; 1; 0].
Proof.
  rewrite !be_bytes_S. cbn [be_bytes app map].
  rewrite !Z.div_div by lia. rewrite Z.div_1_r. reflexivity.
Qed.

Lemma buildTextFrame_header str :
  buildTextFrame str = Spec_text_header (blen (utf8_encode str)) ++ utf8_encode str.
Proof.
  unfold buildTextFrame, Spec_text_header.
  pose proof (blen_nonneg (utf8_encode str)).
  destruct (Z.ltb_spec (blen (utf8_encode str)) 126); [ reflexivity | ].
  destruct (Z.ltb_spec (blen (utf8_encode str)) 65536).
  - rewrite be_bytes_2.
    rewrite (Z.mod_small (blen (utf8_encode str) / 256) 256) by lia. reflexivity.
  - rewrite be_bytes_8. reflexivity.
Qed.

Lemma slice_tail s e h p :
  s = blen h -> e = s + blen p -> slice s e (h ++ p) = p.
Proof.
  intros Hs He. rewrite <- (app_nil_r p) at 1. apply slice_middle; assumption.
Qed.

Lemma blen_be_bytes n v : blen (be_bytes n v) = Z.of_nat n.
Proof. unfold blen. rewrite length_be_bytes. reflexivity. Qed.

(** The frame cut out of [h ++ P] when the header [h] declares [blen P]
    bytes, unmasked. *)
Lemma cut_frame_unmasked buf h P off :
  buf = h ++ P -> off = blen h -> Z.land (nth 1 buf 0) 0x80 = 0 ->
  off + blen P < 2 ^ 53 ->
  cut_frame buf (blen P, off) =
  {| fin := negb (Z.land (nth 0 buf 0) 0x80 =? 0);
     opcode := Z.land (nth 0 buf 0) 0x0f;
     payload := utf8_decode P; frameLen := off + blen P |}.
Proof.
  intros -> -> Hm Hfit. unfold cut_frame. cbn [fst snd]. rewrite Hm.
  cbn [Z.eqb negb]. rewrite js_add_small by lia.
  rewrite slice_tail by reflexivity. reflexivity.
Qed.

Lemma parseFrame_buildTextFrame str :
  blen (buildTextFrame str) < 2 ^ 53 ->
  parseFrame (buildTextFrame str) =
  Ok (Some {| fin := true; opcode := 0x1;
              payload := utf8_decode (utf8_encode str);
              frameLen := blen (buildTextFrame str) |}).
Proof.
  unfold buildTextFrame. set (P := utf8_encode str).
  pose proof (blen_nonneg P) as HP. intros Hfit.
  assert (forall h, 2 <= blen h -> 2 <= blen (h ++ P)) as Htwo
    by (intros h Hh; rewrite blen_app; lia).
  destruct (Z.ltb_spec (blen P) 126) as [H1 | H1].
  { rewrite parseFrame_split by (apply Htwo; cbn; lia).
    destruct (short_length_byte (blen P)) as [E1 E2]; [ lia | ].
    unfold declared. cbn [app nth] in *. rewrite E2.
    destruct (Z.eqb_spec (blen P) 126); [ lia | ].
    destruct (Z.eqb_spec (blen P) 127); [ lia | ].
    cbn [bind]. rewrite !blen_cons in *.
    rewrite (cut_frame_unmasked _ [129; blen P] P 2)
      by (reflexivity || assumption || lia).
    cbn [nth]. do 2 apply f_equal. f_equal. lia. }
  destruct (Z.ltb_spec (blen P) 65536) as [H2 | H2].
  { rewrite parseFrame_split
      by (apply Htwo; rewrite blen_app, blen_be_bytes; cbn; lia).
    rewrite <- app_assoc in *. cbn [app] in *.
    rewrite !blen_cons, blen_app, blen_be_bytes in *.
    unfold declared, readUInt16BE, readUIntBE. cbn [nth].
    change (Z.land 126 127 =? 126) with true. cbv iota.
    rewrite !blen_cons, blen_app, blen_be_bytes.
    destruct (Z.ltb_spec (1 + (1 + (Z.of_nat 2 + blen P))) (2 + Z.of_nat 2)); [ lia | ].
    change (129 :: 126 :: be_bytes 2 (blen P) ++ P)
      with ([129; 126] ++ be_bytes 2 (blen P) ++ P) at 1.
    rewrite slice_middle by (rewrite ?blen_be_bytes; reflexivity).
    rewrite be_value_be_bytes by (cbn; lia).
    cbn [bind].
    rewrite (cut_frame_unmasked _ ([129; 126] ++ be_bytes 2 (blen P)) P (2 + 2))
      by (rewrite <- ?app_assoc, ?blen_app, ?blen_be_bytes; reflexivity || lia).
    cbn [nth]. do 2 apply f_equal. f_equal. lia. }
  rewrite parseFrame_split
    by (apply Htwo; rewrite blen_app, blen_be_bytes; cbn; lia).
  rewrite <- app_assoc in *. cbn [app] in *.
  rewrite !blen_cons, blen_app, blen_be_bytes in *.
  unfold declared, readBigUInt64BE, readUIntBE. cbn [nth].
  change (Z.land 127 127 =? 126) with false.
  change (Z.land 127 127 =? 127) with true. cbv iota.
  rewrite !blen_cons, blen_app, blen_be_bytes.
  destruct (Z.ltb_spec (1 + (1 + (Z.of_nat 8 + blen P))) (2 + Z.of_nat 8)); [ lia | ].
  change (129 :: 127 :: be_bytes 8 (blen P) ++ P)
    with ([129; 127] ++ be_bytes 8 (blen P) ++ P) at 1.
  rewrite slice_middle by (rewrite ?blen_be_bytes; reflexivity).
  rewrite be_value_be_bytes by (cbn; lia).
  cbn [bind]. rewrite to_double_small by lia.
  rewrite (cut_frame_unmasked _ ([129; 127] ++ be_bytes 8 (blen P)) P (2 + 8))
    by (rewrite <- ?app_assoc, ?blen_app, ?blen_be_bytes; reflexivity || lia).
  cbn [nth]. do 2 apply f_equal. f_equal. lia.
Qed.

Lemma declared_offset b lo :
  declared b = Ok lo -> snd lo = 2 \/ snd lo = 4 \/ snd lo = 10.
Proof.
  unfold declared.
  destruct (Z.land (nth 1 b 0) 127 =? 126).
  { destruct (readUInt16BE b 2); [ | discriminate ]. intros [= <-]. cbn. lia. }
  destruct (Z.land (nth 1 b 0) 127 =? 127).
  { destruct (readBigUInt64BE b 2); [ | discriminate ]. intros [= <-]. cbn. lia. }
  intros [= <-]. cbn. lia.
Qed.

(** A frame of well-formed bytes is at least its two header bytes long. *)
Lemma frameLen_ge_2 b f :
  Forall is_byte b -> parseFrame b = Ok (Some f) -> 2 <= frameLen f.
Proof.
  intros Hb Hp.
  destruct (Z.lt_ge_cases (blen b) 2) as [Hs | Hs].
  { rewrite parseFrame_short in Hp by assumption. discriminate. }
  rewrite parseFrame_split in Hp by assumption.
  destruct (declared b) as [lo |] eqn:E; [ | discriminate ].
  destruct (declared_bounds _ _ Hb E) as [Hl Ho].
  injection Hp as <-. unfold cut_frame. cbn [frameLen].
  destruct (negb (Z.land (nth 1 b 0) 128 =? 0)).
  - pose proof (js_add_ge (snd lo + 4) (fst lo)). lia.
  - pose proof (js_add_ge (snd lo) (fst lo)). lia.
Qed.

Lemma Forall_slice_from (P : Z -> Prop) n b : Forall P b -> Forall P (slice_from n b).
Proof.
  unfold slice_from. intros H.
  rewrite <- (firstn_skipn (Z.to_nat n) b) in H. apply Forall_app in H. tauto.
Qed.

(** The pong is the ping's payload again as long as that is ASCII and
    shorter than 126 bytes. *)
Lemma utf8_decode_all_ascii P :
  Forall (fun b => 0 <= b < 0x80) P -> utf8_decode P = P.
Proof.
  induction 1 as [| b P Hb _ IH]; [ reflexivity | ].
  rewrite utf8_decode_ascii by assumption. congruence.
Qed.

Lemma utf8_encode_all_ascii s :
  Forall (fun u => 0 <= u < 0x80) s -> utf8_encode s = s.
Proof.
  induction 1 as [| u s Hu _ IH]; [ reflexivity | ].
  cbn [utf8_encode]. destruct (Z.ltb_spec u 0x80); [ congruence | lia ].
Qed.

Lemma pongFrame_ascii P :
  Forall (fun b => 0 <= b < 0x80) P -> blen P < 126 ->
  pongFrame (utf8_decode P) = [0x8A; blen P] ++ P.
Proof.
  intros HP Hlen. unfold pongFrame.
  rewrite utf8_decode_all_ascii, utf8_encode_all_ascii by assumption.
  fold (blen P). pose proof (blen_nonneg P).
  rewrite Z.mod_small by lia. reflexivity.
Qed.

(** ** Insertion-ordered maps and sets *)

Section CollectionFacts.
Context {K V : Type} (eq_dec : forall a b : K, {a = b} + {a <> b}).

Lemma map_get_set (m : list (K * V)) k v k' :
  map_get eq_dec (map_set eq_dec m k v) k' =
  if eq_dec k' k then Some v else map_get eq_dec m k'.
Proof.
  induction m as [| [k0 v0] m IH]; cbn [map_set map_get].
  - destruct (eq_dec k' k); reflexivity.
  - destruct (eq_dec k k0) as [-> | Hk]; cbn [map_get].
    + destruct (eq_dec k' k0); reflexivity.
    + destruct (eq_dec k' k0) as [-> | Hk'].
      * destruct (eq_dec k0 k); [ congruence | reflexivity ].
      * apply IH.
Qed.

Lemma map_get_delete (m : list (K * V)) k k' :
  map_get eq_dec (map_delete eq_dec m k) k' =
  if eq_dec k' k then None else map_get eq_dec m k'.
Proof.
  unfold map_delete.
  induction m as [| [k0 v0] m IH]; cbn [filter map_get fst].
  - destruct (eq_dec k' k); reflexivity.
  - destruct (eq_dec k k0) as [-> | Hk]; cbn [map_get].
    + rewrite IH. destruct (eq_dec k' k0); reflexivity.
    + destruct (eq_dec k' k0) as [-> | Hk'].
      * destruct (eq_dec k0 k); [ congruence | reflexivity ].
      * apply IH.
Qed.

Lemma map_set_set (m : list (K * V)) k v v' :
  map_set eq_dec (map_set eq_dec m k v) k v' = map_set eq_dec m k v'.
Proof.
  induction m as [| [k0 v0] m IH]; cbn [map_set].
  - destruct (eq_dec k k); [ reflexivity | congruence ].
  - destruct (eq_dec k k0) as [-> | Hk]; cbn [map_set].
    + destruct (eq_dec k0 k0); [ reflexivity | congruence ].
    + destruct (eq_dec k k0); [ congruence | ]. rewrite IH. reflexivity.
Qed.

Lemma map_has_get (m : list (K * V)) k :
  map_has eq_dec m k = true <-> exists v, map_get eq_dec m k = Some v.
Proof.
  unfold map_has. destruct (map_get eq_dec m k) as [v |].
  - split; [ intros _; exists v; reflexivity | intros _; reflexivity ].
  - split; [ discriminate | intros [v Hv]; discriminate ].
Qed.

Lemma set_has_In (s : list K) k : set_has eq_dec s k = true <-> In k s.
Proof.
  unfold set_has. destruct (in_dec eq_dec k s) as [i | n]; split; intros H;
    [ exact i | reflexivity | discriminate | contradiction ].
Qed.

Lemma In_set_add (s : list K) k x :
  In x (set_add eq_dec s k) <-> x = k \/ In x s.
Proof.
  unfold set_add. destruct (set_has eq_dec s k) eqn:E.
  - apply set_has_In in E. split; [ tauto | intros [-> | H]; assumption ].
  - rewrite in_app_iff. cbn [In]. split; [ intros [H | [H | []]] | intros [H | H] ]; auto.
Qed.

Lemma In_set_delete (s : list K) k x :
  In x (set_delete eq_dec s k) <-> x <> k /\ In x s.
Proof.
  unfold set_delete. rewrite filter_In.
  destruct (eq_dec k x) as [-> | H]; split; intros [A B]; split;
    trivial; try discriminate; congruence.
Qed.

Lemma NoDup_set_add (s : list K) k : NoDup s -> NoDup (set_add eq_dec s k).
Proof.
  unfold set_add. intros H. destruct (set_has eq_dec s k) eqn:E; [ assumption | ].
  assert (~ In k s) as Hn
    by (intros Hin; apply set_has_In in Hin; congruence).
  clear E. induction H as [| x s Hx H IH]; cbn [app].
  - constructor; [ intros [] | constructor ].
  - constructor.
    + rewrite in_app_iff. cbn [In] in *. intros [A | [A | []]]; [ auto | subst; auto ].
    + apply IH. cbn [In] in Hn. tauto.
Qed.

Lemma NoDup_set_delete (s : list K) k : NoDup s -> NoDup (set_delete eq_dec s k).
Proof. apply NoDup_filter. Qed.
End CollectionFacts.

(** ** Sockets *)

Lemma socket_get_put s sk w s' :
  socket_get (socket_put s sk w) s' =
  if Nat.eq_dec s' s then sk else socket_get w s'.
Proof.
  unfold socket_get, socket_put. cbn [sockets set_sockets].
  rewrite map_get_set. destruct (Nat.eq_dec s' s); reflexivity.
Qed.

Lemma writes_only_refl w : writes_only w w.
Proof. unfold writes_only. repeat split; reflexivity. Qed.

Lemma writes_only_trans w1 w2 w3 :
  writes_only w1 w2 -> writes_only w2 w3 -> writes_only w1 w3.
Proof.
  unfold writes_only. intros (A1 & A2 & A3 & A4 & A5) (B1 & B2 & B3 & B4 & B5).
  repeat split; try congruence;
    destruct (A5 s) as (? & ? & ?), (B5 s) as (? & ? & ?); congruence.
Qed.

Lemma writes_only_clients_get w w' id :
  writes_only w w' -> clients_get w' id = clients_get w id.
Proof. unfold clients_get. intros (-> & _). reflexivity. Qed.

Lemma writes_only_rooms_get w w' room :
  writes_only w w' -> rooms_get w' room = rooms_get w room.
Proof. unfold rooms_get. intros (_ & -> & _). reflexivity. Qed.

Lemma writes_only_members w w' room :
  writes_only w w' -> members w' room = members w room.
Proof. unfold members. intros H. rewrite (writes_only_rooms_get _ _ _ H). reflexivity. Qed.

Lemma writes_only_open w w' s :
  writes_only w w' -> open_socket w' s = open_socket w s.
Proof.
  unfold open_socket. intros (_ & _ & _ & _ & H).
  destruct (H s) as (-> & -> & _). reflexivity.
Qed.

Lemma writes_only_recipients w w' ex set s :
  writes_only w w' -> recipients w' ex set s = recipients w ex set s.
Proof.
  intros H. unfold recipients. apply filter_ext. intros cid.
  rewrite (writes_only_clients_get _ _ _ H), (writes_only_open _ _ _ H).
  reflexivity.
Qed.

Lemma writes_only_consistent w w' :
  writes_only w w' -> consistent w -> consistent w'.
Proof.
  unfold consistent. intros H C id room.
  rewrite (writes_only_members _ _ _ H), (writes_only_clients_get _ _ _ H).
  apply C.
Qed.

Lemma socket_write_writes_only s chunk w : writes_only w (socket_write s chunk w).
Proof.
  unfold socket_write.
  destruct (destroyed (socket_get w s) || ended (socket_get w s)) eqn:E;
    [ apply writes_only_refl | ].
  apply orb_false_iff in E as [E1 E2].
  unfold writes_only. cbn [socket_put set_sockets clients rooms nextId heap].
  repeat split; rewrite socket_get_put;
    destruct (Nat.eq_dec s0 s) as [-> | ]; cbn; congruence.
Qed.

(** What a write adds to what a socket has sent. *)
Lemma written_socket_write s chunk w s' :
  written (socket_get (socket_write s chunk w) s') =
  written (socket_get w s') ++
  (if Nat.eqb s s' && open_socket w s' then [chunk] else []).
Proof.
  unfold socket_write, open_socket.
  destruct (Nat.eqb_spec s s') as [<- | Hne]; cbn [andb].
  - destruct (destroyed (socket_get w s) || ended (socket_get w s)); cbn [negb].
    + symmetry. apply app_nil_r.
    + rewrite socket_get_put. destruct (Nat.eq_dec s s); [ reflexivity | congruence ].
  - rewrite app_nil_r.
    destruct (destroyed (socket_get w s) || ended (socket_get w s)); [ reflexivity | ].
    rewrite socket_get_put. destruct (Nat.eq_dec s' s); [ congruence | reflexivity ].
Qed.

(** ** Template literals *)

Lemma interpolate_printable ToString v :
  printable v = true -> interpolate ToString v = Ok (ToString v).
Proof. intros H. unfold interpolate. rewrite H. reflexivity. Qed.

Lemma interpolate_returns ToString v t : interpolate ToString v = Ok t -> printable v = true.
Proof. unfold interpolate. destruct (printable v); [ reflexivity | discriminate ]. Qed.

Lemma interpolate_raises ToString v e :
  interpolate ToString v = Throw e -> printable v = false /\ e = TypeError.
Proof.
  unfold interpolate. destruct (printable v); [ discriminate | ].
  intros [= <-]. auto.
Qed.

Lemma printable_js_or a b :
  printable a = true -> printable b = true -> printable (js_or a b) = true.
Proof. intros Ha Hb. unfold js_or. destruct (truthy a); assumption. Qed.

(** The name that a join sets can be converted when the one in the message
    and the one of before can. *)
Lemma printable_joined_client cid ref parsed c :
  printable (get parsed (lit "name")) = true -> printable (name c) = true ->
  printable (name (joined_client cid ref parsed c)) = true.
Proof.
  intros Hp Hc. cbn [joined_client name].
  apply printable_js_or; [ assumption | ].
  apply printable_js_or; [ assumption | reflexivity ].
Qed.

(** The conversion of a name that can be converted, and the two outcomes of
    a conversion about which nothing is known. *)
Ltac converted H :=
  cbn [name]; cbn [joined_client name] in H;
  rewrite (interpolate_printable _ _ H); cbn [bind].

Ltac conversion :=
  cbn [name];
  match goal with
  | |- context [interpolate ?T ?v] =>
    destruct (interpolate T v) as [? |]; [ cbn [bind] | discriminate ]
  end.

(** ** Sending *)

Section RelayFacts.
Variable JSON_parse : jsstring -> option JsVal.
Variable JSON_stringify : JsVal -> jsstring.
Variable ToString : JsVal -> jsstring.

Local Abbreviation send := (sendToClient JSON_stringify).
Local Abbreviation broadcast := (broadcastRoom JSON_stringify).
Local Abbreviation handle := (handleJsonMessage JSON_parse JSON_stringify ToString).
Local Abbreviation cleanup := (cleanupClient JSON_stringify ToString).
Local Abbreviation cleaned := (cleaned_up JSON_stringify ToString).
Local Abbreviation frame_of o := (buildTextFrame (JSON_stringify o)).

Lemma sendToClient_writes_only k o w : writes_only w (send k o w).
Proof.
  unfold sendToClient. destruct (clients_get_key w k) as [c |];
    [ | apply writes_only_refl ].
  destruct (destroyed (socket_get w (socket c)));
    [ apply writes_only_refl | apply socket_write_writes_only ].
Qed.

Lemma written_sendToClient k o w s :
  written (socket_get (send k o w) s) =
  written (socket_get w s) ++
  match clients_get_key w k with
  | Some c => if Nat.eqb (socket c) s && open_socket w s then [frame_of o] else []
  | None => []
  end.
Proof.
  unfold sendToClient. destruct (clients_get_key w k) as [c |];
    [ | symmetry; apply app_nil_r ].
  destruct (destroyed (socket_get w (socket c))) eqn:E.
  - destruct (Nat.eqb_spec (socket c) s) as [<- | ]; cbn [andb].
    + unfold open_socket. rewrite E. symmetry. apply app_nil_r.
    + symmetry. apply app_nil_r.
  - apply written_socket_write.
Qed.

Lemma broadcast_one_writes_only frame ex w cid :
  writes_only w (broadcast_one frame ex w cid).
Proof.
  unfold broadcast_one. destruct (jsstring_eq_dec cid ex);
    [ apply writes_only_refl | ].
  destruct (clients_get w cid) as [c |]; [ | apply writes_only_refl ].
  destruct (destroyed (socket_get w (socket c)));
    [ apply writes_only_refl | apply socket_write_writes_only ].
Qed.

Lemma written_broadcast_one frame ex w cid s :
  written (socket_get (broadcast_one frame ex w cid) s) =
  written (socket_get w s) ++ repeat frame (length (recipients w ex [cid] s)).
Proof.
  unfold broadcast_one, recipients. cbn [filter].
  destruct (jsstring_eq_dec cid ex); [ symmetry; apply app_nil_r | ].
  destruct (clients_get w cid) as [c |]; [ | symmetry; apply app_nil_r ].
  destruct (destroyed (socket_get w (socket c))) eqn:E.
  - destruct (Nat.eqb_spec (socket c) s) as [<- | ]; cbn [andb].
    + unfold open_socket. rewrite E. symmetry. apply app_nil_r.
    + symmetry. apply app_nil_r.
  - rewrite written_socket_write.
    destruct (Nat.eqb (socket c) s && open_socket w s); reflexivity.
Qed.

Lemma recipients_app w ex a b s :
  recipients w ex (a ++ b) s = recipients w ex a s ++ recipients w ex b s.
Proof. unfold recipients. apply filter_app. Qed.

Lemma broadcast_fold_writes_only frame ex set :
  forall w, writes_only w (fold_left (broadcast_one frame ex) set w).
Proof.
  induction set as [| cid set IH]; intros w; cbn [fold_left].
  - apply writes_only_refl.
  - eapply writes_only_trans; [ apply broadcast_one_writes_only | apply IH ].
Qed.

Lemma written_broadcast_fold frame ex set s :
  forall w,
    written (socket_get (fold_left (broadcast_one frame ex) set w) s) =
    written (socket_get w s) ++ repeat frame (length (recipients w ex set s)).
Proof.
  induction set as [| cid set IH]; intros w; cbn [fold_left].
  - symmetry. apply app_nil_r.
  - rewrite IH, written_broadcast_one, <- app_assoc, <- repeat_app, <- length_app.
    rewrite (writes_only_recipients w _ ex set s)
      by apply broadcast_one_writes_only.
    rewrite <- recipients_app. reflexivity.
Qed.

Lemma broadcastRoom_writes_only room o ex w : writes_only w (broadcast room o ex w).
Proof.
  unfold broadcastRoom. destruct (rooms_get w room);
    [ apply broadcast_fold_writes_only | apply writes_only_refl ].
Qed.

(** A broadcast writes its frame once for every recipient. *)
Lemma written_broadcastRoom room o ex w s :
  written (socket_get (broadcast room o ex w) s) =
  written (socket_get w s) ++
  repeat (frame_of o) (length (recipients w ex (members w room) s)).
Proof.
  unfold broadcastRoom, members. destruct (rooms_get w room).
  - apply written_broadcast_fold.
  - symmetry. apply app_nil_r.
Qed.

(** ** The registry *)

Lemma clients_get_client_put cid c w id :
  clients_get (client_put cid c w) id =
  if jsstring_eq_dec id cid then Some c else clients_get w id.
Proof. unfold clients_get, client_put. cbn [clients set_clients]. apply map_get_set. Qed.

Lemma members_client_put cid c w room :
  members (client_put cid c w) room = members w room.
Proof. reflexivity. Qed.

Lemma members_room_add k cid w room :
  rooms_get w k <> None ->
  members (room_add k cid w) room =
  if Key_eq_dec room k then set_add jsstring_eq_dec (members w k) cid
  else members w room.
Proof.
  unfold room_add, members. intros Hk.
  destruct (rooms_get w k) as [s |] eqn:E; [ | congruence ].
  unfold rooms_get in *. cbn [rooms set_rooms]. rewrite map_get_set.
  destruct (Key_eq_dec room k); reflexivity.
Qed.

Lemma members_room_delete k cid w room :
  members (room_delete k cid w) room =
  if Key_eq_dec room k then set_delete jsstring_eq_dec (members w k) cid
  else members w room.
Proof.
  unfold room_delete, members.
  destruct (rooms_get w k) as [s |] eqn:E.
  - unfold rooms_get in *. cbn [rooms set_rooms]. rewrite map_get_set.
    destruct (Key_eq_dec room k); reflexivity.
  - destruct (Key_eq_dec room k) as [-> | ]; [ rewrite E | ]; reflexivity.
Qed.

Lemma clients_get_room_add k cid w id :
  clients_get (room_add k cid w) id = clients_get w id.
Proof. unfold room_add. destruct (rooms_get w k); reflexivity. Qed.

Lemma clients_get_room_delete k cid w id :
  clients_get (room_delete k cid w) id = clients_get w id.
Proof. unfold room_delete. destruct (rooms_get w k); reflexivity. Qed.

Lemma members_ensure_room k w room : members (ensure_room k w) room = members w room.
Proof.
  unfold ensure_room, members, map_has, rooms_get.
  destruct (map_get Key_eq_dec (rooms w) k) eqn:E; [ reflexivity | ].
  cbn [rooms set_rooms]. rewrite map_get_set.
  destruct (Key_eq_dec room k) as [-> | ]; [ rewrite E | ]; reflexivity.
Qed.

Lemma rooms_get_ensure_room k w : rooms_get (ensure_room k w) k <> None.
Proof.
  unfold ensure_room, map_has, rooms_get.
  destruct (map_get Key_eq_dec (rooms w) k) eqn:E; [ congruence | ].
  cbn [rooms set_rooms]. rewrite map_get_set.
  destruct (Key_eq_dec k k); congruence.
Qed.

Lemma clients_get_ensure_room k w id :
  clients_get (ensure_room k w) id = clients_get w id.
Proof. unfold ensure_room. destruct (map_has Key_eq_dec (rooms w) k); reflexivity. Qed.

(** A join that returns has converted the name it has set. *)
Lemma on_join_returns cid ref parsed w w' c :
  clients_get w cid = Some c ->
  on_join JSON_stringify ToString cid ref parsed w = Ok w' ->
  printable (name (joined_client cid ref parsed c)) = true.
Proof.
  intros Hc. unfold on_join. rewrite Hc. cbv zeta. cbn [name joined_client].
  destruct (interpolate ToString _) as [text |] eqn:E; [ | discriminate ].
  intros _. apply (interpolate_returns _ _ _ E).
Qed.

(** A leave that returns has found nothing to do or has converted the name. *)
Lemma on_leave_returns cid ref parsed w w' c :
  clients_get w cid = Some c ->
  on_leave JSON_stringify ToString cid ref parsed w = Ok w' ->
  truthy (get parsed (lit "room")) &&
  map_has Key_eq_dec (rooms w) (leave_room ref parsed) = false \/
  printable (name c) = true.
Proof.
  intros Hc. unfold on_leave. cbv zeta. fold (leave_room ref parsed).
  destruct (truthy (get parsed (lit "room")) &&
            map_has Key_eq_dec (rooms w) (leave_room ref parsed));
    [ | auto ].
  rewrite clients_get_room_delete, Hc. cbn [name].
  destruct (interpolate ToString _) as [text |] eqn:E; [ | discriminate ].
  intros _. right. apply (interpolate_returns _ _ _ E).
Qed.

(** What a join does to the registry. *)
Lemma on_join_registry cid ref parsed w c :
  clients_get w cid = Some c ->
  printable (name (joined_client cid ref parsed c)) = true ->
  exists w',
    on_join JSON_stringify ToString cid ref parsed w = Ok w' /\
    (forall id, clients_get w' id =
                if jsstring_eq_dec id cid
                then Some (joined_client cid ref parsed c)
                else clients_get w id) /\
    (forall room, members w' room =
                  if Key_eq_dec room (join_room ref parsed)
                  then set_add jsstring_eq_dec (members w (join_room ref parsed)) cid
                  else members w room).
Proof.
  intros Hc Hp. unfold on_join. rewrite Hc. cbv zeta. converted Hp.
  eexists. split; [ reflexivity | ].
  fold (join_room ref parsed).
  match goal with
  | |- context [broadcast ?r ?o ?e (send ?k ?o' ?w0)] =>
    assert (writes_only w0 (broadcast r o e (send k o' w0))) as W
        by (eapply writes_only_trans;
            [ apply sendToClient_writes_only | apply broadcastRoom_writes_only ])
  end.
  split.
  - intros id. rewrite (writes_only_clients_get _ _ _ W).
    rewrite !clients_get_client_put, clients_get_room_add,
      clients_get_ensure_room, clients_get_client_put.
    destruct (jsstring_eq_dec id cid); reflexivity.
  - intros room. rewrite (writes_only_members _ _ _ W).
    rewrite members_client_put, members_room_add by apply rooms_get_ensure_room.
    rewrite !members_ensure_room, !members_client_put. reflexivity.
Qed.

(** What a leave does to the registry: nothing, or the two deletions. *)
Lemma on_leave_registry cid ref parsed w c :
  clients_get w cid = Some c -> printable (name c) = true ->
  exists w',
    on_leave JSON_stringify ToString cid ref parsed w = Ok w' /\
    ((truthy (get parsed (lit "room")) &&
      map_has Key_eq_dec (rooms w) (leave_room ref parsed) = false /\ w' = w) \/
     (forall id, clients_get w' id =
                 if jsstring_eq_dec id cid
                 then Some (left_client ref parsed c)
                 else clients_get w id) /\
     (forall room, members w' room =
                   if Key_eq_dec room (leave_room ref parsed)
                   then set_delete jsstring_eq_dec (members w (leave_room ref parsed)) cid
                   else members w room)).
Proof.
  intros Hc Hp. unfold on_leave. cbv zeta. fold (leave_room ref parsed).
  destruct (truthy (get parsed (lit "room")) &&
            map_has Key_eq_dec (rooms w) (leave_room ref parsed));
    [ | exists w; auto ].
  rewrite clients_get_room_delete, Hc. converted Hp.
  eexists. split; [ reflexivity | right ].
  match goal with
  | |- context [broadcast ?r ?o ?e (send ?k ?o' ?w0)] =>
    assert (writes_only w0 (broadcast r o e (send k o' w0))) as W
        by (eapply writes_only_trans;
            [ apply sendToClient_writes_only | apply broadcastRoom_writes_only ])
  end.
  split.
  - intros id. rewrite (writes_only_clients_get _ _ _ W).
    rewrite clients_get_client_put, clients_get_room_delete. reflexivity.
  - intros room. rewrite (writes_only_members _ _ _ W).
    rewrite members_client_put, members_room_delete. reflexivity.
Qed.

(** The same of a join and of a leave that are known to have returned. *)
Lemma on_join_registry_of cid ref parsed w w' c :
  clients_get w cid = Some c ->
  on_join JSON_stringify ToString cid ref parsed w = Ok w' ->
  (forall id, clients_get w' id =
              if jsstring_eq_dec id cid
              then Some (joined_client cid ref parsed c)
              else clients_get w id) /\
  (forall room, members w' room =
                if Key_eq_dec room (join_room ref parsed)
                then set_add jsstring_eq_dec (members w (join_room ref parsed)) cid
                else members w room).
Proof.
  intros Hc H.
  destruct (on_join_registry cid ref parsed w c Hc (on_join_returns _ _ _ _ _ _ Hc H))
    as (w1 & E & R).
  rewrite E in H. injection H as <-. exact R.
Qed.

Lemma on_leave_registry_of cid ref parsed w w' c :
  clients_get w cid = Some c ->
  on_leave JSON_stringify ToString cid ref parsed w = Ok w' ->
  (truthy (get parsed (lit "room")) &&
   map_has Key_eq_dec (rooms w) (leave_room ref parsed) = false /\ w' = w) \/
  (forall id, clients_get w' id =
              if jsstring_eq_dec id cid
              then Some (left_client ref parsed c)
              else clients_get w id) /\
  (forall room, members w' room =
                if Key_eq_dec room (leave_room ref parsed)
                then set_delete jsstring_eq_dec (members w (leave_room ref parsed)) cid
                else members w room).
Proof.
  intros Hc H.
  destruct (on_leave_returns _ _ _ _ _ _ Hc H) as [Hno | Hp].
  { left. split; [ exact Hno | ].
    revert H. unfold on_leave. cbv zeta. fold (leave_room ref parsed).
    rewrite Hno. intros [= <-]. reflexivity. }
  destruct (on_leave_registry cid ref parsed w c Hc Hp) as (w1 & E & R).
  rewrite E in H. injection H as <-. exact R.
Qed.

Lemma set_delete_idem (s : list jsstring) x :
  set_delete jsstring_eq_dec (set_delete jsstring_eq_dec s x) x =
  set_delete jsstring_eq_dec s x.
Proof.
  unfold set_delete. induction s as [| a s IH]; cbn [filter]; [ reflexivity | ].
  destruct (jsstring_eq_dec x a) eqn:E; [ assumption | ].
  cbn [filter]. rewrite E, IH. reflexivity.
Qed.

Lemma cleanup_round_writes_clients cid c w room id :
  clients_get (cleanup_round JSON_stringify ToString cid c w room) id = clients_get w id.
Proof.
  unfold cleanup_round. destruct (rooms_get w room); [ | reflexivity ].
  rewrite (writes_only_clients_get _ _ _ (broadcastRoom_writes_only _ _ _ _)).
  apply clients_get_room_delete.
Qed.

Lemma members_cleanup_round cid c w room r :
  members (cleanup_round JSON_stringify ToString cid c w room) r =
  if Key_eq_dec r room then set_delete jsstring_eq_dec (members w room) cid
  else members w r.
Proof.
  unfold cleanup_round. destruct (rooms_get w room) eqn:E.
  - rewrite (writes_only_members _ _ _ (broadcastRoom_writes_only _ _ _ _)).
    apply members_room_delete.
  - destruct (Key_eq_dec r room) as [-> | ]; [ | reflexivity ].
    unfold members. rewrite E. reflexivity.
Qed.

Lemma cleanup_fold_clients cid c l :
  forall w id,
    clients_get (fold_left (cleanup_round JSON_stringify ToString cid c) l w) id =
    clients_get w id.
Proof.
  induction l as [| room l IH]; intros w id; cbn [fold_left]; [ reflexivity | ].
  rewrite IH. apply cleanup_round_writes_clients.
Qed.

Lemma members_cleanup_fold cid c l :
  forall w r,
    members (fold_left (cleanup_round JSON_stringify ToString cid c) l w) r =
    if in_dec Key_eq_dec r l then set_delete jsstring_eq_dec (members w r) cid
    else members w r.
Proof.
  clear JSON_parse.
  induction l as [| room l IH]; intros w r; cbn [fold_left]; [ reflexivity | ].
  rewrite IH, members_cleanup_round.
  destruct (in_dec Key_eq_dec r l) as [Hin | Hin];
    destruct (in_dec Key_eq_dec r (room :: l)) as [Hin' | Hin'];
    destruct (Key_eq_dec r room) as [-> | Hne];
    cbn [In] in *;
    first [ reflexivity | apply set_delete_idem | exfalso; intuition congruence ].
Qed.

(** What a cleanup does to the registry. *)
Lemma cleaned_up_registry cid w c :
  clients_get w cid = Some c ->
  (forall id, clients_get (cleaned cid w) id =
              if jsstring_eq_dec id cid then None else clients_get w id) /\
  (forall r, members (cleaned cid w) r =
             if in_dec Key_eq_dec r (client_rooms c)
             then set_delete jsstring_eq_dec (members w r) cid
             else members w r).
Proof.
  clear JSON_parse.
  intros Hc. unfold cleaned_up. rewrite Hc. split.
  - intros id. unfold clients_get at 1. cbn [clients set_clients socket_destroy socket_put set_sockets].
    rewrite map_get_delete. destruct (jsstring_eq_dec id cid); [ reflexivity | ].
    apply cleanup_fold_clients.
  - intros r.
    transitivity
      (members (fold_left (cleanup_round JSON_stringify ToString cid c)
                  (client_rooms c) w) r);
      [ reflexivity | apply members_cleanup_fold ].
Qed.

Lemma cleaned_up_unregistered cid w :
  clients_get w cid = None -> cleaned cid w = w.
Proof. intros H. unfold cleaned_up. rewrite H. reflexivity. Qed.

(** A second cleanup finds nothing to do. *)
Lemma cleaned_up_idempotent cid w :
  cleaned cid (cleaned cid w) = cleaned cid w.
Proof.
  clear JSON_parse.
  apply cleaned_up_unregistered.
  destruct (clients_get w cid) as [c |] eqn:Hc.
  - destruct (cleaned_up_registry cid w c Hc) as [H _]. rewrite H.
    destruct (jsstring_eq_dec cid cid); congruence.
  - rewrite cleaned_up_unregistered; assumption.
Qed.

(** ** The invariant *)






(** ** Sockets under the dispatcher *)

Lemma sockets_kept_refl w : sockets_kept w w.
Proof. intros s. auto. Qed.

Lemma sockets_kept_trans w1 w2 w3 :
  sockets_kept w1 w2 -> sockets_kept w2 w3 -> sockets_kept w1 w3.
Proof.
  intros A B s. destruct (A s) as (? & ? & ?), (B s) as (? & ? & ?).
  repeat split; congruence.
Qed.

Lemma writes_only_sockets_kept w w' : writes_only w w' -> sockets_kept w w'.
Proof. intros (_ & _ & _ & _ & H). exact H. Qed.

Lemma sockets_kept_same_sockets w w' : sockets w' = sockets w -> sockets_kept w w'.
Proof. intros H s. unfold socket_get. rewrite H. auto. Qed.

Lemma sockets_room_add k cid w : sockets (room_add k cid w) = sockets w.
Proof. unfold room_add. destruct (rooms_get w k); reflexivity. Qed.

Lemma sockets_room_delete k cid w : sockets (room_delete k cid w) = sockets w.
Proof. unfold room_delete. destruct (rooms_get w k); reflexivity. Qed.

Lemma sockets_ensure_room k w : sockets (ensure_room k w) = sockets w.
Proof. unfold ensure_room. destruct (map_has Key_eq_dec (rooms w) k); reflexivity. Qed.

Lemma on_join_sockets cid ref parsed w w' :
  on_join JSON_stringify ToString cid ref parsed w = Ok w' -> sockets_kept w w'.
Proof.
  unfold on_join. destruct (clients_get w cid) as [c |]; [ | discriminate ].
  cbv zeta. conversion. intros [= <-].
  eapply sockets_kept_trans;
    [ | apply writes_only_sockets_kept; eapply writes_only_trans;
        [ apply sendToClient_writes_only | apply broadcastRoom_writes_only ] ].
  apply sockets_kept_same_sockets.
  cbn [client_put set_clients sockets]. rewrite sockets_room_add, sockets_ensure_room.
  reflexivity.
Qed.

Lemma on_leave_sockets cid ref parsed w w' :
  on_leave JSON_stringify ToString cid ref parsed w = Ok w' -> sockets_kept w w'.
Proof.
  unfold on_leave. cbv zeta.
  destruct (truthy (get parsed (lit "room")) && _);
    [ | intros [= <-]; apply sockets_kept_refl ].
  destruct (clients_get _ cid) as [c |]; [ | discriminate ].
  conversion. intros [= <-].
  eapply sockets_kept_trans;
    [ | apply writes_only_sockets_kept; eapply writes_only_trans;
        [ apply sendToClient_writes_only | apply broadcastRoom_writes_only ] ].
  apply sockets_kept_same_sockets.
  cbn [client_put set_clients sockets]. apply sockets_room_delete.
Qed.

Lemma on_msg_writes_only cid ref parsed w w' :
  on_msg JSON_stringify cid ref parsed w = Ok w' -> writes_only w w'.
Proof.
  unfold on_msg. cbv zeta.
  destruct (truthy (get parsed (lit "to"))).
  - intros [= <-]. eapply writes_only_trans; apply sendToClient_writes_only.
  - destruct (negb (truthy (get parsed (lit "room")))); intros [= <-];
      [ apply sendToClient_writes_only | apply broadcastRoom_writes_only ].
Qed.

(** The dispatcher closes nothing and leaves every input buffer alone. *)
Lemma handle_sockets_kept cid data w w' :
  handle cid data w = Ok w' -> sockets_kept w w'.
Proof.
  unfold handleJsonMessage.
  destruct (JSON_parse data) as [parsed |].
  2:{ intros [= <-]. apply writes_only_sockets_kept, sendToClient_writes_only. }
  cbv zeta. destruct (is_nullish parsed); [ discriminate | ].
  set (w0 := set_heap w (Pos.succ (heap w))).
  assert (sockets_kept w w0) as K0 by (apply sockets_kept_same_sockets; reflexivity).
  intros H. apply (sockets_kept_trans _ _ _ K0). revert H.
  destruct (is_str (get parsed (lit "type")) (lit "join"));
    [ apply on_join_sockets | ].
  destruct (is_str (get parsed (lit "type")) (lit "leave"));
    [ apply on_leave_sockets | ].
  destruct (is_str (get parsed (lit "type")) (lit "msg")).
  { intros H. apply writes_only_sockets_kept, (on_msg_writes_only _ _ _ _ _ H). }
  destruct (is_str (get parsed (lit "type")) (lit "list")); intros [= <-];
    apply writes_only_sockets_kept, sendToClient_writes_only.
Qed.

(** The dispatcher registers nobody and drops nobody. *)
Lemma handle_registered cid data w w' id :
  handle cid data w = Ok w' ->
  (clients_get w' id = None <-> clients_get w id = None).
Proof.
  unfold handleJsonMessage.
  destruct (JSON_parse data) as [parsed |].
  2:{ intros [= <-].
      rewrite (writes_only_clients_get _ _ _ (sendToClient_writes_only _ _ _)).
      tauto. }
  cbv zeta. destruct (is_nullish parsed); [ discriminate | ].
  set (w0 := set_heap w (Pos.succ (heap w))).
  change (clients_get w id) with (clients_get w0 id).
  destruct (is_str (get parsed (lit "type")) (lit "join")).
  { destruct (clients_get w0 cid) as [c |] eqn:Hc.
    - intros H. destruct (on_join_registry_of _ _ _ _ _ _ Hc H) as (Hcl & _).
      rewrite Hcl.
      destruct (jsstring_eq_dec id cid) as [-> | ]; [ | tauto ].
      rewrite Hc. split; discriminate.
    - unfold on_join. rewrite Hc. discriminate. }
  destruct (is_str (get parsed (lit "type")) (lit "leave")).
  { destruct (clients_get w0 cid) as [c |] eqn:Hc.
    - intros H.
      destruct (on_leave_registry_of _ _ _ _ _ _ Hc H) as [[_ ->] | (Hcl & _)];
        [ tauto | ].
      rewrite Hcl. destruct (jsstring_eq_dec id cid) as [-> | ]; [ | tauto ].
      rewrite Hc. split; discriminate.
    - unfold on_leave. cbv zeta.
      destruct (truthy (get parsed (lit "room")) && _).
      + rewrite clients_get_room_delete, Hc. discriminate.
      + intros [= <-]. tauto. }
  destruct (is_str (get parsed (lit "type")) (lit "msg")).
  { intros H. rewrite (writes_only_clients_get _ _ _ (on_msg_writes_only _ _ _ _ _ H)).
    tauto. }
  destruct (is_str (get parsed (lit "type")) (lit "list")); intros [= <-];
    rewrite (writes_only_clients_get _ _ _ (sendToClient_writes_only _ _ _));
    tauto.
Qed.

(** ** What a cleanup writes *)

Lemma recipients_ext w w' ex set s :
  (forall id, clients_get w' id = clients_get w id) ->
  open_socket w' s = open_socket w s ->
  recipients w' ex set s = recipients w ex set s.
Proof.
  intros Hc Ho. unfold recipients. apply filter_ext. intros cid.
  rewrite Hc, Ho. reflexivity.
Qed.

Lemma recipients_set_delete w ex set s :
  recipients w ex (set_delete jsstring_eq_dec set ex) s = recipients w ex set s.
Proof.
  unfold recipients, set_delete.
  induction set as [| a set IH]; cbn [filter]; [ reflexivity | ].
  destruct (jsstring_eq_dec ex a) as [<- | Hne].
  - destruct (jsstring_eq_dec ex ex); [ assumption | congruence ].
  - cbn [filter]. rewrite IH. reflexivity.
Qed.

Lemma socket_get_room_delete k cid w s :
  socket_get (room_delete k cid w) s = socket_get w s.
Proof. unfold socket_get. rewrite sockets_room_delete. reflexivity. Qed.

Lemma open_socket_room_delete k cid w s :
  open_socket (room_delete k cid w) s = open_socket w s.
Proof. unfold open_socket. rewrite socket_get_room_delete. reflexivity. Qed.

Lemma written_cleanup_round cid c w room s :
  written (socket_get (cleanup_round JSON_stringify ToString cid c w room) s) =
  written (socket_get w s) ++
  repeat (frame_of (departure_notice ToString cid c))
         (length (recipients w cid (members w room) s)).
Proof.
  unfold cleanup_round. destruct (rooms_get w room) as [s0 |] eqn:E.
  - rewrite written_broadcastRoom, socket_get_room_delete.
    rewrite members_room_delete. destruct (Key_eq_dec room room); [ | congruence ].
    rewrite recipients_set_delete.
    rewrite (recipients_ext w (room_delete room cid w))
      by (intros; apply clients_get_room_delete || apply open_socket_room_delete).
    reflexivity.
  - unfold members. rewrite E. cbn. symmetry. apply app_nil_r.
Qed.

Lemma open_socket_cleanup_round cid c w room s :
  open_socket (cleanup_round JSON_stringify ToString cid c w room) s = open_socket w s.
Proof.
  unfold cleanup_round. destruct (rooms_get w room); [ | reflexivity ].
  rewrite (writes_only_open _ _ _ (broadcastRoom_writes_only _ _ _ _)).
  apply open_socket_room_delete.
Qed.

Lemma recipients_cleanup_round cid c w room r s :
  recipients (cleanup_round JSON_stringify ToString cid c w room) cid
    (members (cleanup_round JSON_stringify ToString cid c w room) r) s =
  recipients w cid (members w r) s.
Proof.
  rewrite (recipients_ext w)
    by (intros; apply cleanup_round_writes_clients || apply open_socket_cleanup_round).
  rewrite members_cleanup_round.
  destruct (Key_eq_dec r room) as [-> | ]; [ | reflexivity ].
  apply recipients_set_delete.
Qed.

Lemma written_cleanup_fold cid c s l :
  forall w,
    written (socket_get (fold_left (cleanup_round JSON_stringify ToString cid c) l w) s) =
    written (socket_get w s) ++
    repeat (frame_of (departure_notice ToString cid c))
           (length (flat_map (fun room => recipients w cid (members w room) s) l)).
Proof.
  induction l as [| room l IH]; intros w; cbn [fold_left flat_map].
  - symmetry. apply app_nil_r.
  - rewrite IH, written_cleanup_round, <- app_assoc, <- repeat_app, <- length_app.
    do 4 f_equal. apply flat_map_ext. intros r. apply recipients_cleanup_round.
Qed.

Lemma socket_get_socket_destroy sock w s :
  written (socket_get (socket_destroy sock w) s) = written (socket_get w s) /\
  ended (socket_get (socket_destroy sock w) s) = ended (socket_get w s) /\
  recvBuffer (socket_get (socket_destroy sock w) s) = recvBuffer (socket_get w s) /\
  destroyed (socket_get (socket_destroy sock w) s) =
  (Nat.eqb s sock || destroyed (socket_get w s)).
Proof.
  unfold socket_destroy. rewrite socket_get_put.
  destruct (Nat.eq_dec s sock) as [-> | Hne].
  - rewrite Nat.eqb_refl. cbn. auto.
  - apply Nat.eqb_neq in Hne. rewrite Hne. cbn. auto.
Qed.

(** A cleanup writes one notice for every room of the client and every
    recipient there, and nothing else. *)
Lemma written_cleaned_up cid w c s :
  clients_get w cid = Some c ->
  written (socket_get (cleaned cid w) s) =
  written (socket_get w s) ++
  repeat (frame_of (departure_notice ToString cid c)) (length (departures w cid c s)).
Proof.
  intros Hc. unfold cleaned_up, departures. rewrite Hc.
  rewrite <- written_cleanup_fold.
  match goal with
  | |- written (socket_get (set_clients ?x _) s) = _ =>
    change (written (socket_get x s) =
            written (socket_get (fold_left (cleanup_round JSON_stringify ToString cid c)
                                   (client_rooms c) w) s))
  end.
  apply socket_get_socket_destroy.
Qed.

Lemma cleanup_fold_sockets cid c l :
  forall w, sockets_kept w (fold_left (cleanup_round JSON_stringify ToString cid c) l w).
Proof.
  induction l as [| room l IH]; intros w; cbn [fold_left].
  - apply sockets_kept_refl.
  - eapply sockets_kept_trans; [ | apply IH ].
    unfold cleanup_round. destruct (rooms_get w room); [ | apply sockets_kept_refl ].
    eapply sockets_kept_trans;
      [ apply sockets_kept_same_sockets, sockets_room_delete
      | apply writes_only_sockets_kept, broadcastRoom_writes_only ].
Qed.

(** A cleanup leaves every input buffer alone. *)
Lemma recvBuffer_cleaned_up cid w s :
  recvBuffer (socket_get (cleaned cid w) s) = recvBuffer (socket_get w s).
Proof.
  unfold cleaned_up. destruct (clients_get w cid) as [c |]; [ | reflexivity ].
  match goal with
  | |- recvBuffer (socket_get (set_clients ?x _) s) = _ =>
    change (recvBuffer (socket_get x s) = recvBuffer (socket_get w s))
  end.
  destruct (socket_get_socket_destroy (socket c)
              (fold_left (cleanup_round JSON_stringify ToString cid c) (client_rooms c) w) s)
    as (_ & _ & -> & _).
  apply cleanup_fold_sockets.
Qed.

(** ** A cleanup that returns and one that raises *)

Lemma cleanup_round_some cid c w room :
  rooms_get w room <> None ->
  cleanup_round JSON_stringify ToString cid c w room =
  broadcast room (departure_notice ToString cid c) cid (room_delete room cid w).
Proof.
  intros H. unfold cleanup_round.
  destruct (rooms_get w room); [ reflexivity | congruence ].
Qed.

Lemma cleanup_round_none cid c w room :
  rooms_get w room = None ->
  cleanup_round JSON_stringify ToString cid c w room = w.
Proof. intros H. unfold cleanup_round. rewrite H. reflexivity. Qed.

(** With a name that can be converted the loop runs through. *)
Lemma cleanup_rooms_printable cid c l :
  printable (name c) = true ->
  forall w,
    cleanup_rooms JSON_stringify ToString cid c l w =
    (fold_left (cleanup_round JSON_stringify ToString cid c) l w, None).
Proof.
  intros Hp. induction l as [| room l IH]; intros w; cbn [cleanup_rooms fold_left];
    [ reflexivity | ].
  rewrite (interpolate_printable _ _ Hp).
  destruct (rooms_get w room) eqn:E.
  - rewrite IH, cleanup_round_some by congruence. reflexivity.
  - rewrite IH, cleanup_round_none by assumption. reflexivity.
Qed.

(** A loop that has run through has done the rounds. *)
Lemma cleanup_rooms_returns cid c l :
  forall w w',
    cleanup_rooms JSON_stringify ToString cid c l w = (w', None) ->
    w' = fold_left (cleanup_round JSON_stringify ToString cid c) l w.
Proof.
  induction l as [| room l IH]; intros w w'; cbn [cleanup_rooms fold_left].
  - intros [= <-]. reflexivity.
  - destruct (rooms_get w room) eqn:E.
    + destruct (interpolate ToString (name c)) as [text |] eqn:Et; [ | discriminate ].
      pose proof (interpolate_returns _ _ _ Et) as Hp.
      rewrite (interpolate_printable _ _ Hp) in Et. injection Et as <-.
      intros H. rewrite cleanup_round_some by congruence. apply IH, H.
    + intros H. rewrite cleanup_round_none by assumption. apply IH, H.
Qed.

(** What ends the loop early is a TypeError, for a name that cannot be
    converted. *)
Lemma cleanup_rooms_raises cid c l :
  forall w w' e,
    cleanup_rooms JSON_stringify ToString cid c l w = (w', Some e) ->
    e = TypeError /\ printable (name c) = false.
Proof.
  induction l as [| room l IH]; intros w w' e; cbn [cleanup_rooms];
    [ discriminate | ].
  destruct (rooms_get w room); [ | apply IH ].
  destruct (interpolate ToString (name c)) as [text |] eqn:Et; [ apply IH | ].
  intros [= _ <-]. destruct (interpolate_raises _ _ _ Et). auto.
Qed.

Lemma cleanupClient_returns cid w w' : cleanup cid w = Ok w' -> w' = cleaned cid w.
Proof.
  unfold cleanupClient, cleaned_up.
  destruct (clients_get w cid) as [c |]; [ | intros [= <-]; reflexivity ].
  destruct (cleanup_rooms _ _ _ _ _ _) as [w1 [e |]] eqn:E; [ discriminate | ].
  intros [= <-]. rewrite (cleanup_rooms_returns _ _ _ _ _ E). reflexivity.
Qed.

Lemma cleanupClient_printable cid w :
  printable_name w cid -> cleanup cid w = Ok (cleaned cid w).
Proof.
  intros Hp. unfold cleanupClient, cleaned_up.
  destruct (clients_get w cid) as [c |] eqn:Hc; [ | reflexivity ].
  rewrite (cleanup_rooms_printable _ _ _ (Hp c Hc)). reflexivity.
Qed.


Lemma cleanupClient_raises cid w e :
  cleanup cid w = Throw e ->
  e = TypeError /\
  exists c, clients_get w cid = Some c /\ printable (name c) = false.
Proof.
  unfold cleanupClient.
  destruct (clients_get w cid) as [c |]; [ | discriminate ].
  destruct (cleanup_rooms _ _ _ _ _ _) as [w1 [e0 |]] eqn:E; [ | discriminate ].
  intros [= <-]. destruct (cleanup_rooms_raises _ _ _ _ _ _ E).
  split; [ assumption | ]. exists c. auto.
Qed.

(** ** The data handler *)

Local Abbreviation frame_step := (handle_frame JSON_parse JSON_stringify ToString).
Local Abbreviation loop := (data_loop JSON_parse JSON_stringify ToString).
Local Abbreviation data := (on_data JSON_parse JSON_stringify ToString).

Lemma recvBuffer_set_recvBuffer sock b w s :
  recvBuffer (socket_get (set_recvBuffer sock b w) s) =
  if Nat.eq_dec s sock then b else recvBuffer (socket_get w s).
Proof.
  unfold set_recvBuffer. rewrite socket_get_put.
  destruct (Nat.eq_dec s sock); reflexivity.
Qed.

Lemma set_recvBuffer_twice sock a b w :
  set_recvBuffer sock b (set_recvBuffer sock a w) = set_recvBuffer sock b w.
Proof.
  unfold set_recvBuffer. rewrite !socket_get_put.
  destruct (Nat.eq_dec sock sock); [ | congruence ].
  cbn [destroyed ended written].
  unfold socket_put, set_sockets. cbn [sockets clients rooms nextId heap].
  rewrite map_set_set. reflexivity.
Qed.

Lemma recvBuffer_socket_write sock chunk w s :
  recvBuffer (socket_get (socket_write sock chunk w) s) = recvBuffer (socket_get w s).
Proof. apply (socket_write_writes_only sock chunk w). Qed.

Lemma recvBuffer_socket_end sock w s :
  recvBuffer (socket_get (socket_end sock w) s) = recvBuffer (socket_get w s).
Proof.
  unfold socket_end. rewrite socket_get_put.
  destruct (Nat.eq_dec s sock) as [-> | ]; reflexivity.
Qed.

(** Handling a frame leaves every input buffer alone. *)
Lemma handle_frame_recvBuffer cid sock f w r s :
  frame_step cid sock f w = Ok r ->
  recvBuffer (socket_get (snd r) s) = recvBuffer (socket_get w s).
Proof.
  unfold handle_frame.
  destruct (opcode f =? 8).
  { destruct (cleanup cid w) as [w1 |] eqn:E; [ | discriminate ].
    intros [= <-]. cbn [snd].
    rewrite recvBuffer_socket_end, (cleanupClient_returns _ _ _ E).
    apply recvBuffer_cleaned_up. }
  destruct (opcode f =? 9).
  { intros [= <-]. apply recvBuffer_socket_write. }
  destruct (opcode f =? 10); [ intros [= <-]; reflexivity | ].
  destruct (opcode f =? 1); [ | intros [= <-]; reflexivity ].
  destruct (handle cid (payload f) w) as [w' |] eqn:E; [ | discriminate ].
  intros [= <-]. apply (handle_sockets_kept _ _ _ _ E).
Qed.

(** Only a close frame ends the loop. *)
Lemma handle_frame_continues cid sock f w r :
  opcode f <> 8 -> frame_step cid sock f w = Ok r -> fst r = true.
Proof.
  unfold handle_frame. intros Hop.
  destruct (Z.eqb_spec (opcode f) 8); [ contradiction | ].
  destruct (opcode f =? 9); [ intros [= <-]; reflexivity | ].
  destruct (opcode f =? 10); [ intros [= <-]; reflexivity | ].
  destruct (opcode f =? 1); [ | intros [= <-]; reflexivity ].
  destruct (handle cid (payload f) w); [ | discriminate ].
  intros [= <-]. reflexivity.
Qed.

Lemma data_loop_done fuel cid sock w :
  blen (recvBuffer (socket_get w sock)) <= 2 -> loop fuel cid sock w = Ok w.
Proof.
  intros H. destruct fuel; cbn [data_loop];
    destruct (Z.ltb_spec 2 (blen (recvBuffer (socket_get w sock)))); reflexivity || lia.
Qed.

Lemma data_loop_step fuel cid sock w f :
  2 < blen (recvBuffer (socket_get w sock)) ->
  parseFrame (recvBuffer (socket_get w sock)) = Ok (Some f) ->
  loop (S fuel) cid sock w =
  (r <- frame_step cid sock f
          (set_recvBuffer sock
             (slice_from (frameLen f) (recvBuffer (socket_get w sock))) w) ;;
   if fst r then loop fuel cid sock (snd r) else Ok (snd r)).
Proof.
  intros Hlen Hp. cbn [data_loop].
  destruct (Z.ltb_spec 2 (blen (recvBuffer (socket_get w sock)))); [ | lia ].
  rewrite Hp. reflexivity.
Qed.

(** The loop never runs out of fuel: from the buffer's length on, more fuel
    changes nothing. *)
Lemma data_loop_fuel cid sock fuel1 :
  forall fuel2 w,
    Forall is_byte (recvBuffer (socket_get w sock)) ->
    (length (recvBuffer (socket_get w sock)) <= fuel1)%nat ->
    (length (recvBuffer (socket_get w sock)) <= fuel2)%nat ->
    loop fuel1 cid sock w = loop fuel2 cid sock w.
Proof.
  induction fuel1 as [| fuel1 IH]; intros fuel2 w Hb H1 H2.
  - rewrite !data_loop_done by (unfold blen; lia). reflexivity.
  - destruct (Z.le_gt_cases (blen (recvBuffer (socket_get w sock))) 2) as [Hs | Hs].
    { rewrite !data_loop_done by assumption. reflexivity. }
    destruct fuel2 as [| fuel2]; [ unfold blen in Hs; lia | ].
    destruct (parseFrame (recvBuffer (socket_get w sock))) as [[f |] |] eqn:Hp.
    + rewrite !(data_loop_step _ _ _ _ f) by (assumption || lia).
      destruct (frame_step cid sock f _) as [r |] eqn:Hr; [ | reflexivity ].
      cbn [bind]. destruct (fst r); [ | reflexivity ].
      pose proof (handle_frame_recvBuffer _ _ _ _ _ sock Hr) as Hrecv.
      rewrite recvBuffer_set_recvBuffer in Hrecv.
      destruct (Nat.eq_dec sock sock); [ | congruence ].
      pose proof (frameLen_ge_2 _ _ Hb Hp) as Hf.
      assert (length (slice_from (frameLen f) (recvBuffer (socket_get w sock)))
              < length (recvBuffer (socket_get w sock)))%nat as Hshrink
          by (unfold slice_from; rewrite length_skipn; unfold blen in Hs; lia).
      apply IH; rewrite Hrecv; try lia.
      apply Forall_slice_from. assumption.
    + cbn [data_loop].
      destruct (Z.ltb_spec 2 (blen (recvBuffer (socket_get w sock)))); [ | lia ].
      rewrite Hp. reflexivity.
    + cbn [data_loop].
      destruct (Z.ltb_spec 2 (blen (recvBuffer (socket_get w sock)))); [ | lia ].
      rewrite Hp. reflexivity.
Qed.

(** One whole frame in an empty buffer: it is handled, and that is all. *)
Lemma on_data_one_frame cid sock F f w :
  recvBuffer (socket_get w sock) = [] -> 2 < blen F ->
  parseFrame F = Ok (Some f) -> frameLen f = blen F ->
  data cid sock F w =
  (r <- frame_step cid sock f (set_recvBuffer sock [] w) ;; Ok (snd r)).
Proof.
  intros Hempty Hlen Hp Hf. unfold on_data. rewrite Hempty. cbn [app].
  destruct (length F) as [| n] eqn:En; [ unfold blen in Hlen; lia | ].
  rewrite (data_loop_step _ _ _ _ f);
    rewrite ?recvBuffer_set_recvBuffer;
    destruct (Nat.eq_dec sock sock); try congruence; try assumption.
  rewrite Hf, set_recvBuffer_twice.
  replace (slice_from (blen F) F) with (@nil Z)
    by (unfold slice_from, blen; rewrite Nat2Z.id, skipn_all; reflexivity).
  destruct (frame_step cid sock f (set_recvBuffer sock [] w)) as [r |] eqn:Hr;
    [ | reflexivity ].
  cbn [bind]. destruct (fst r); [ | reflexivity ].
  apply data_loop_done.
  rewrite (handle_frame_recvBuffer _ _ _ _ _ sock Hr), recvBuffer_set_recvBuffer.
  destruct (Nat.eq_dec sock sock); [ cbn; lia | congruence ].
Qed.

(** Two whole frames in one chunk: both are handled, in order, unless the
    first one closes. *)
Lemma on_data_two_frames cid sock F1 F2 f1 f2 w :
  recvBuffer (socket_get w sock) = [] ->
  Forall is_byte F1 ->
  parseFrame F1 = Ok (Some f1) -> frameLen f1 = blen F1 ->
  parseFrame F2 = Ok (Some f2) -> frameLen f2 = blen F2 ->
  opcode f1 <> 8 -> 2 < blen F2 ->
  data cid sock (F1 ++ F2) w =
  (r1 <- frame_step cid sock f1 (set_recvBuffer sock F2 w) ;;
   r2 <- frame_step cid sock f2 (set_recvBuffer sock [] (snd r1)) ;;
   Ok (snd r2)).
Proof.
  intros Hempty Hb1 Hp1 Hf1 Hp2 Hf2 Hop Hlen2.
  pose proof (frameLen_ge_2 _ _ Hb1 Hp1) as Hlen1.
  unfold on_data. rewrite Hempty. cbn [app].
  destruct (length (F1 ++ F2)) as [| [| n]] eqn:En;
    try (rewrite length_app in En; unfold blen in *; lia).
  assert (parseFrame (F1 ++ F2) = Ok (Some f1)) as Hp
    by (apply parseFrame_app; assumption || lia).
  rewrite (data_loop_step _ _ _ _ f1);
    rewrite ?recvBuffer_set_recvBuffer;
    destruct (Nat.eq_dec sock sock); try congruence; try assumption;
    [ | rewrite blen_app; pose proof (blen_nonneg F1); lia ].
  rewrite Hf1, slice_from_app, set_recvBuffer_twice.
  destruct (frame_step cid sock f1 (set_recvBuffer sock F2 w)) as [r1 |] eqn:Hr1;
    [ | reflexivity ].
  cbn [bind]. rewrite (handle_frame_continues _ _ _ _ _ Hop Hr1).
  pose proof (handle_frame_recvBuffer _ _ _ _ _ sock Hr1) as Hrecv.
  rewrite recvBuffer_set_recvBuffer in Hrecv.
  destruct (Nat.eq_dec sock sock); [ | congruence ].
  rewrite (data_loop_step _ _ _ _ f2); rewrite ?Hrecv; try assumption.
  rewrite Hf2.
  replace (slice_from (blen F2) F2) with (@nil Z)
    by (unfold slice_from, blen; rewrite Nat2Z.id, skipn_all; reflexivity).
  destruct (frame_step cid sock f2 (set_recvBuffer sock [] (snd r1))) as [r2 |] eqn:Hr2;
    [ | reflexivity ].
  cbn [bind]. destruct (fst r2); [ | reflexivity ].
  apply data_loop_done.
  rewrite (handle_frame_recvBuffer _ _ _ _ _ sock Hr2), recvBuffer_set_recvBuffer.
  destruct (Nat.eq_dec sock sock); [ cbn; lia | congruence ].
Qed.

(** ** Which branch the dispatcher takes *)

Lemma is_str_true v s : is_str v s = true -> v = VStr s.
Proof.
  destruct v; cbn [is_str]; try discriminate.
  destruct (jsstring_eq_dec s0 s); [ congruence | discriminate ].
Qed.

Lemma is_str_not_nullish parsed s :
  is_str (get parsed (lit "type")) s = true -> is_nullish parsed = false.
Proof. destruct parsed; cbn; trivial; discriminate. Qed.

Ltac pick_branch H :=
  rewrite (is_str_true _ _ H); cbn [is_str];
  repeat match goal with
         | |- context [jsstring_eq_dec ?a ?b] =>
           let D := fresh in
           destruct (jsstring_eq_dec a b) as [D | D];
           [ try discriminate D | try (exfalso; apply D; reflexivity) ]
         end;
  reflexivity.

Lemma handle_join cid data parsed w :
  JSON_parse data = Some parsed ->
  is_str (get parsed (lit "type")) (lit "join") = true ->
  handle cid data w = on_join JSON_stringify ToString cid (heap w) parsed (parsed_in w).
Proof.
  intros Hp Ht. unfold handleJsonMessage. rewrite Hp. cbv zeta.
  rewrite (is_str_not_nullish _ _ Ht). pick_branch Ht.
Qed.

Lemma handle_leave cid data parsed w :
  JSON_parse data = Some parsed ->
  is_str (get parsed (lit "type")) (lit "leave") = true ->
  handle cid data w = on_leave JSON_stringify ToString cid (heap w) parsed (parsed_in w).
Proof.
  intros Hp Ht. unfold handleJsonMessage. rewrite Hp. cbv zeta.
  rewrite (is_str_not_nullish _ _ Ht). pick_branch Ht.
Qed.

Lemma handle_msg cid data parsed w :
  JSON_parse data = Some parsed ->
  is_str (get parsed (lit "type")) (lit "msg") = true ->
  handle cid data w = on_msg JSON_stringify cid (heap w) parsed (parsed_in w).
Proof.
  intros Hp Ht. unfold handleJsonMessage. rewrite Hp. cbv zeta.
  rewrite (is_str_not_nullish _ _ Ht). pick_branch Ht.
Qed.

Lemma handle_list cid data parsed w :
  JSON_parse data = Some parsed ->
  is_str (get parsed (lit "type")) (lit "list") = true ->
  handle cid data w = on_list JSON_stringify cid (heap w) parsed (parsed_in w).
Proof.
  intros Hp Ht. unfold handleJsonMessage. rewrite Hp. cbv zeta.
  rewrite (is_str_not_nullish _ _ Ht). pick_branch Ht.
Qed.

Lemma handle_unknown cid data parsed w :
  JSON_parse data = Some parsed -> is_nullish parsed = false ->
  is_str (get parsed (lit "type")) (lit "join") = false ->
  is_str (get parsed (lit "type")) (lit "leave") = false ->
  is_str (get parsed (lit "type")) (lit "msg") = false ->
  is_str (get parsed (lit "type")) (lit "list") = false ->
  handle cid data w = Ok (send (KStr cid) (error_obj "unknown_type") (parsed_in w)).
Proof.
  intros Hp Hn H1 H2 H3 H4. unfold handleJsonMessage. rewrite Hp. cbv zeta.
  rewrite Hn, H1, H2, H3, H4. reflexivity.
Qed.

Lemma sendToClient_unconnected k o w : connected w k = false -> send k o w = w.
Proof.
  unfold connected, sendToClient. destruct (clients_get_key w k) as [c |]; [ | reflexivity ].
  destruct (destroyed (socket_get w (socket c))); [ reflexivity | discriminate ].
Qed.

(** ** The properties of the design document *)



(** C10. A private message is echoed to its sender whatever becomes of the
    delivery: the last thing written to the sender's socket is the echo,
    tagged private; and when the target is no registered client with a
    socket that is not destroyed, the echo is all that is written
    anywhere. *)
Theorem private_echo_unconditional cid data parsed w c :
  clients_get w cid = Some c -> open_socket w (socket c) = true ->
  JSON_parse data = Some parsed ->
  is_str (get parsed (lit "type")) (lit "msg") = true ->
  truthy (get parsed (lit "to")) = true ->
  let echo := obj [("type", VStr (lit "msg")); ("from", VStr cid);
                   ("to", get parsed (lit "to"));
                   ("text", get parsed (lit "text")); ("private", VBool true)] in
  exists w',
    handle cid data w = Ok w' /\
    (exists before, written (socket_get w' (socket c)) = before ++ [frame_of echo]) /\
    (connected w (to_key (heap w) (get parsed (lit "to"))) = false ->
     w' = send (KStr cid) echo (parsed_in w) /\
     forall s, written (socket_get w' s) =
               written (socket_get w s) ++
               (if Nat.eqb (socket c) s then [frame_of echo] else [])).
Proof.
  intros Hc Hopen Hp Ht Hto echo.
  rewrite (handle_msg _ _ _ _ Hp Ht). unfold on_msg. cbv zeta. rewrite Hto.
  eexists. split; [ reflexivity | ].
  set (w0 := parsed_in w).
  set (toId := to_key (heap w) (get parsed (lit "to"))).
  fold echo. split.
  - match goal with
    | |- context [send (KStr cid) echo ?x] => set (w1 := x)
    end.
    assert (writes_only w0 w1) as W by apply sendToClient_writes_only.
    exists (written (socket_get w1 (socket c))).
    rewrite written_sendToClient. cbn [clients_get_key].
    rewrite (writes_only_clients_get _ _ _ W), (writes_only_open _ _ _ W).
    change (clients_get w0 cid) with (clients_get w cid).
    change (open_socket w0 (socket c)) with (open_socket w (socket c)).
    rewrite Hc, Hopen, Nat.eqb_refl. reflexivity.
  - intros Hun. rewrite (sendToClient_unconnected toId) by exact Hun.
    split; [ reflexivity | ].
    intros s. rewrite written_sendToClient. cbn [clients_get_key].
    change (clients_get w0 cid) with (clients_get w cid).
    change (socket_get w0 s) with (socket_get w s).
    change (open_socket w0 s) with (open_socket w s).
    rewrite Hc. destruct (Nat.eqb_spec (socket c) s) as [<- | ]; [ | reflexivity ].
    rewrite Hopen. reflexivity.
Qed.

Lemma on_join_written cid ref parsed w c s :
  clients_get w cid = Some c ->
  printable (name (joined_client cid ref parsed c)) = true ->
  exists w',
    on_join JSON_stringify ToString cid ref parsed w = Ok w' /\
    written (socket_get w' s) =
    written (socket_get w s) ++
    (if Nat.eqb (socket c) s && open_socket w s
     then [frame_of (obj [("type", VStr (lit "joined"));
                          ("room", js_or (get parsed (lit "room")) (VStr lobby));
                          ("id", VStr cid)])]
     else []) ++
    repeat (frame_of (notice_obj
                        (ToString (name (joined_client cid ref parsed c)) ++
                         lit " joined") cid))
           (length (recipients w' cid (members w' (join_room ref parsed)) s)).
Proof.
  intros Hc Hp. unfold on_join. rewrite Hc. cbv zeta. fold (join_room ref parsed).
  converted Hp.
  eexists. split; [ reflexivity | ].
  match goal with
  | |- context [broadcast ?r ?o ?e (send ?k ?o' ?w0)] =>
    set (w3 := w0); set (w4 := send k o' w3)
  end.
  assert (writes_only w4 (broadcast (join_room ref parsed)
                            (notice_obj
                               (ToString (name (joined_client cid ref parsed c)) ++
                                lit " joined") cid) cid w4)) as W
      by apply broadcastRoom_writes_only.
  unfold joined_client in W |- *. cbn [name] in W |- *.
  rewrite (writes_only_recipients _ _ _ _ _ W), (writes_only_members _ _ _ W).
  rewrite written_broadcastRoom. unfold w4 at 1. rewrite written_sendToClient.
  rewrite <- app_assoc. f_equal; [ | f_equal ].
  - unfold socket_get, w3. cbn [client_put set_clients sockets].
    rewrite sockets_room_add, sockets_ensure_room. reflexivity.
  - cbn [clients_get_key]. unfold w3 at 1. rewrite clients_get_client_put.
    destruct (jsstring_eq_dec cid cid); [ | congruence ]. cbn [socket].
    replace (open_socket w3 s) with (open_socket w s); [ reflexivity | ].
    unfold open_socket, socket_get, w3. cbn [client_put set_clients sockets].
    rewrite sockets_room_add, sockets_ensure_room. reflexivity.
Qed.

(** C9 as the code has it. A join whose room is absent or falsy, from a
    client whose name after the join, [parsed.name || client.name ||
    clientId], can be converted to a string, is not turned down: it goes to
    the room "lobby", the one a list without a room shows. The sender is told
    it joined "lobby", is a member of "lobby" from then on, and a list
    without a room that follows answers with the members of "lobby", the
    sender among them. *)
Theorem join_defaults_to_lobby cid data parsed w c :
  clients_get w cid = Some c ->
  JSON_parse data = Some parsed ->
  is_str (get parsed (lit "type")) (lit "join") = true ->
  truthy (get parsed (lit "room")) = false ->
  printable (js_or (get parsed (lit "name")) (js_or (name c) (VStr cid))) = true ->
  exists w1,
    handle cid data w = Ok w1 /\
    In cid (members w1 (KStr (lit "lobby"))) /\
    (exists c1, clients_get w1 cid = Some c1 /\
                In (KStr (lit "lobby")) (client_rooms c1)) /\
    (open_socket w (socket c) = true ->
     exists n,
       written (socket_get w1 (socket c)) =
       written (socket_get w (socket c)) ++
       frame_of (obj [("type", VStr (lit "joined")); ("room", VStr (lit "lobby"));
                      ("id", VStr cid)]) ::
       repeat (frame_of (notice_obj
                           (ToString (name (joined_client cid (heap w) parsed c)) ++
                            lit " joined") cid)) n) /\
    (forall data2 parsed2,
        JSON_parse data2 = Some parsed2 ->
        is_str (get parsed2 (lit "type")) (lit "list") = true ->
        truthy (get parsed2 (lit "room")) = false ->
        handle cid data2 w1 =
        Ok (send (KStr cid)
              (obj [("type", VStr (lit "list")); ("room", VStr (lit "lobby"));
                    ("members",
                     VArr (map (member_obj w1) (members w1 (KStr (lit "lobby")))))])
              (parsed_in w1)) /\
        In (member_obj w1 cid)
           (map (member_obj w1) (members w1 (KStr (lit "lobby"))))).
Proof.
  intros Hc Hp Ht Hroom Hj.
  assert (join_room (heap w) parsed = KStr (lit "lobby")) as Hk
    by (unfold join_room, js_or; rewrite Hroom; reflexivity).
  assert (clients_get (parsed_in w) cid = Some c) as Hc0 by exact Hc.
  change (printable (name (joined_client cid (heap w) parsed c)) = true) in Hj.
  rewrite (handle_join _ _ _ _ Hp Ht).
  destruct (on_join_registry cid (heap w) parsed _ c Hc0 Hj) as (w1 & E & Hcl & Hmem).
  exists w1. split; [ assumption | ].
  assert (In cid (members w1 (KStr (lit "lobby")))) as Hin.
  { rewrite Hmem, Hk. destruct (Key_eq_dec _ _); [ | congruence ].
    apply In_set_add. auto. }
  split; [ assumption | ]. split.
  { eexists. split.
    - rewrite Hcl. destruct (jsstring_eq_dec cid cid); [ reflexivity | congruence ].
    - cbn [joined_client client_rooms]. rewrite Hk. apply In_set_add. auto. }
  split.
  { intros Hopen.
    destruct (on_join_written cid (heap w) parsed _ c (socket c) Hc0 Hj)
      as (w1' & E' & Hw).
    rewrite E in E'. injection E' as <-.
    eexists. rewrite Hw.
    change (open_socket (parsed_in w) (socket c)) with (open_socket w (socket c)).
    rewrite Hopen, Nat.eqb_refl. unfold js_or. rewrite Hroom. reflexivity. }
  intros data2 parsed2 Hp2 Ht2 Hroom2. split.
  - rewrite (handle_list _ _ _ _ Hp2 Ht2). unfold on_list, js_or.
    rewrite Hroom2. reflexivity.
  - apply in_map. assumption.
Qed.

(** C5 as the code has it. The kind of a relayed message is spelled "msg",
    not "message". A "msg" with a room and no addressee is broadcast to the
    room, whether or not the sender is in it: the frame is written once for
    every recipient, every other member that is registered with an open
    socket is a recipient, the sender is none, and nothing else is written,
    no error either. The unknown-kind error is the answer exactly to the
    kinds other than "join", "leave", "msg" and "list", "message" among
    them; each of the four goes to its own branch. *)
Theorem room_message_is_broadcast cid data parsed w :
  JSON_parse data = Some parsed -> is_nullish parsed = false ->
  let type := get parsed (lit "type") in
  let room := to_key (heap w) (get parsed (lit "room")) in
  let o := obj [("type", VStr (lit "msg")); ("from", VStr cid);
                ("text", get parsed (lit "text"));
                ("room", get parsed (lit "room"))] in
  (is_str type (lit "msg") = true ->
   truthy (get parsed (lit "to")) = false ->
   truthy (get parsed (lit "room")) = true ->
   handle cid data w = Ok (broadcast room o cid (parsed_in w)) /\
   (forall s,
       written (socket_get (broadcast room o cid (parsed_in w)) s) =
       written (socket_get w s) ++
       repeat (frame_of o) (length (recipients w cid (members w room) s))) /\
   (forall m c, In m (members w room) -> m <> cid ->
                clients_get w m = Some c -> open_socket w (socket c) = true ->
                In m (recipients w cid (members w room) (socket c))) /\
   (forall s, ~ In cid (recipients w cid (members w room) s))) /\
  (is_str type (lit "join") = false -> is_str type (lit "leave") = false ->
   is_str type (lit "msg") = false -> is_str type (lit "list") = false ->
   handle cid data w = Ok (send (KStr cid) (error_obj "unknown_type") (parsed_in w))) /\
  (type = VStr (lit "message") ->
   handle cid data w = Ok (send (KStr cid) (error_obj "unknown_type") (parsed_in w))) /\
  (is_str type (lit "join") = true ->
   handle cid data w = on_join JSON_stringify ToString cid (heap w) parsed (parsed_in w)) /\
  (is_str type (lit "leave") = true ->
   handle cid data w = on_leave JSON_stringify ToString cid (heap w) parsed (parsed_in w)) /\
  (is_str type (lit "msg") = true ->
   handle cid data w = on_msg JSON_stringify cid (heap w) parsed (parsed_in w)) /\
  (is_str type (lit "list") = true ->
   handle cid data w = on_list JSON_stringify cid (heap w) parsed (parsed_in w)).
Proof.
  intros Hp Hn type room o.
  split.
  { intros Ht Hto Hroom. rewrite (handle_msg _ _ _ _ Hp Ht).
    unfold on_msg. cbv zeta. rewrite Hto, Hroom. cbn [negb].
    split; [ reflexivity | ]. split; [ | split ].
    - intros s. rewrite written_broadcastRoom. reflexivity.
    - intros m c Hin Hne Hm Hopen. unfold recipients. apply filter_In.
      split; [ assumption | ].
      destruct (jsstring_eq_dec m cid); [ contradiction | ].
      rewrite Hm, Hopen, Nat.eqb_refl. reflexivity.
    - intros s Hin. unfold recipients in Hin. apply filter_In in Hin as [_ Hin].
      destruct (jsstring_eq_dec cid cid); [ discriminate | congruence ]. }
  split; [ intros; apply (handle_unknown _ _ parsed); assumption | ].
  split.
  { intros Htype. apply (handle_unknown _ _ parsed); try assumption;
      fold type; rewrite Htype; reflexivity. }
  repeat split; intros Ht;
    [ apply (handle_join _ _ parsed) | apply (handle_leave _ _ parsed)
    | apply (handle_msg _ _ parsed) | apply (handle_list _ _ parsed) ];
    assumption.
Qed.

(** C1 as the code has it. The server does not look at the mask bit to turn
    a frame down. A whole frame whose mask bit is clear is decoded like any
    other, its payload being the bytes after the header as they are, and
    is handled like any other; a text frame goes to the dispatcher, after
    which every socket is as open as before and the client is still
    registered. *)
Theorem unmasked_frame_is_processed cid sock F f w :
  recvBuffer (socket_get w sock) = [] -> 2 < blen F ->
  Z.land (nth 1 F 0) 0x80 = 0 ->
  parseFrame F = Ok (Some f) -> frameLen f = blen F ->
  (exists offset,
      (offset = 2 \/ offset = 4 \/ offset = 10) /\
      payload f = utf8_decode (slice_from offset F)) /\
  data cid sock F w =
  (r <- frame_step cid sock f (set_recvBuffer sock [] w) ;; Ok (snd r)) /\
  (opcode f = 1 ->
   data cid sock F w = handle cid (payload f) (set_recvBuffer sock [] w) /\
   forall w', data cid sock F w = Ok w' ->
              sockets_kept w w' /\
              (clients_get w' cid = None <-> clients_get w cid = None)).
Proof.
  intros Hempty Hlen Hmask Hp Hf.
  split.
  { rewrite parseFrame_split in Hp by lia.
    destruct (declared F) as [lo |] eqn:E; [ | discriminate ].
    injection Hp as <-. exists (snd lo). split; [ apply (declared_offset _ _ E) | ].
    unfold cut_frame in *. cbn [payload frameLen] in *. rewrite Hmask in *.
    cbn [Z.eqb negb] in *. rewrite Hf. f_equal. apply slice_to_end. lia. }
  pose proof (on_data_one_frame cid sock F f w Hempty Hlen Hp Hf) as Hone.
  split; [ exact Hone | ].
  intros Hop.
  assert (frame_step cid sock f (set_recvBuffer sock [] w) =
          (w' <- handle cid (payload f) (set_recvBuffer sock [] w) ;; Ok (true, w')))
    as Hstep by (unfold handle_frame; rewrite Hop; reflexivity).
  rewrite Hstep in Hone.
  assert (data cid sock F w = handle cid (payload f) (set_recvBuffer sock [] w)) as Hd.
  { rewrite Hone.
    destruct (handle cid (payload f) (set_recvBuffer sock [] w)); reflexivity. }
  split; [ exact Hd | ].
  intros w' Hw'. rewrite Hd in Hw'. split.
  - eapply sockets_kept_trans; [ | apply (handle_sockets_kept _ _ _ _ Hw') ].
    intros s. unfold set_recvBuffer. rewrite socket_get_put.
    destruct (Nat.eq_dec s sock) as [-> | ]; cbn; auto.
  - apply (handle_registered _ _ _ _ cid Hw').
Qed.

(** C4 as the code has it. Two whole frames that arrive in one chunk are both
    handled, in their order, within that one read, provided the first is
    not a close frame, after which the handler returns, and the second is
    longer than two bytes, as every masked frame is; if no handler raises,
    the receive buffer is empty afterwards. *)
Theorem two_frames_one_read cid sock F1 F2 f1 f2 w :
  recvBuffer (socket_get w sock) = [] ->
  Forall is_byte F1 ->
  parseFrame F1 = Ok (Some f1) -> frameLen f1 = blen F1 ->
  parseFrame F2 = Ok (Some f2) -> frameLen f2 = blen F2 ->
  opcode f1 <> 8 -> 2 < blen F2 ->
  data cid sock (F1 ++ F2) w =
  (r1 <- frame_step cid sock f1 (set_recvBuffer sock F2 w) ;;
   r2 <- frame_step cid sock f2 (set_recvBuffer sock [] (snd r1)) ;;
   Ok (snd r2)) /\
  forall w', data cid sock (F1 ++ F2) w = Ok w' ->
             recvBuffer (socket_get w' sock) = [].
Proof.
  intros Hempty Hb1 Hp1 Hf1 Hp2 Hf2 Hop Hlen2.
  pose proof (on_data_two_frames cid sock F1 F2 f1 f2 w
                Hempty Hb1 Hp1 Hf1 Hp2 Hf2 Hop Hlen2) as Htwo.
  split; [ exact Htwo | ].
  intros w' Hw'. rewrite Htwo in Hw'.
  destruct (frame_step cid sock f1 (set_recvBuffer sock F2 w)) as [r1 |];
    [ | discriminate ].
  cbn [bind] in Hw'.
  destruct (frame_step cid sock f2 (set_recvBuffer sock [] (snd r1))) as [r2 |] eqn:Hr2;
    [ | discriminate ].
  injection Hw' as <-.
  rewrite (handle_frame_recvBuffer _ _ _ _ _ sock Hr2), recvBuffer_set_recvBuffer.
  destruct (Nat.eq_dec sock sock); congruence.
Qed.
End RelayFacts.

(** C3. Encoding a text payload and decoding the result gives a final text
    frame with that payload, and the decoder reports exactly the length of
    what the encoder wrote. The payload bytes are the UTF-8 of the string;
    the decoded string has the same bytes and is the string itself when that
    is well-formed UTF-16. The header is the shortest of the three forms, and
    its mask bit is clear. This holds for every string whose frame fits a
    buffer, whatever the length of the payload. *)
Theorem frame_roundtrip (str : jsstring) :
  Forall is_code_unit str ->
  blen (buildTextFrame str) < 2 ^ 53 ->
  let P := utf8_encode str in
  parseFrame (buildTextFrame str) =
  Ok (Some {| fin := true; opcode := 0x1; payload := toWellFormed str;
              frameLen := blen (buildTextFrame str) |}) /\
  utf8_encode (toWellFormed str) = P /\
  (isWellFormed str = true -> toWellFormed str = str) /\
  buildTextFrame str = Spec_text_header (blen P) ++ P /\
  Z.testbit (nth 1 (buildTextFrame str) 0) 7 = false.
Proof.
  intros Hstr Hfit P.
  split.
  { rewrite parseFrame_buildTextFrame by assumption.
    rewrite utf8_roundtrip by assumption. reflexivity. }
  split; [ apply utf8_encode_toWellFormed | ].
  split; [ apply toWellFormed_isWellFormed | ].
  split; [ apply buildTextFrame_header | ].
  rewrite buildTextFrame_header. fold P. unfold Spec_text_header.
  pose proof (blen_nonneg P).
  destruct (Z.ltb_spec (blen P) 126).
  - cbn [app nth].
    apply negb_true_iff.
    apply (forall_below (fun x => negb (Z.testbit x 7)) 126 eq_refl). lia.
  - destruct (blen P <? 65536); reflexivity.
Qed.

(** ** Checking the invariant by running it *)

Lemma map_get_In {K V} (eq_dec : forall a b : K, {a = b} + {a <> b})
    (m : list (K * V)) k v :
  map_get eq_dec m k = Some v -> In (k, v) m.
Proof.
  induction m as [| [k0 v0] m IH]; cbn [map_get]; [ discriminate | ].
  destruct (eq_dec k k0) as [-> | ].
  - intros [= ->]. left. reflexivity.
  - intros H. right. apply IH, H.
Qed.

Lemma consistentb_sound w : consistentb w = true -> consistent w.
Proof.
  unfold consistentb. rewrite andb_true_iff, !forallb_forall.
  intros [Hrooms Hclients] id room. split.
  - unfold members. destruct (rooms_get w room) as [s |] eqn:E; [ | intros [] ].
    intros Hin. apply map_get_In in E.
    specialize (Hrooms _ E). cbn [fst snd] in Hrooms.
    rewrite forallb_forall in Hrooms. specialize (Hrooms _ Hin).
    destruct (clients_get w id) as [c |]; [ | discriminate ].
    exists c. split; [ reflexivity | ]. apply (set_has_In Key_eq_dec), Hrooms.
  - intros (c & Hc & Hin).
    pose proof (map_get_In _ _ _ _ Hc) as Hm.
    specialize (Hclients _ Hm). cbn [fst] in Hclients. rewrite Hc in Hclients.
    rewrite forallb_forall in Hclients.
    apply (set_has_In jsstring_eq_dec), Hclients, Hin.
Qed.

Lemma initial_consistent : consistent initial.
Proof. apply consistentb_sound. reflexivity. Qed.

(** ** The invariant at connection time *)

Lemma consistent_same_registry w w' :
  clients w' = clients w -> rooms w' = rooms w -> consistent w -> consistent w'.
Proof.
  unfold consistent, members, rooms_get, clients_get. intros -> -> C. exact C.
Qed.

(** A new connection keeps the registry consistent as long as the counter
    hands out an id that is not in use. *)
Lemma on_upgrade_consistent JSON_stringify computeAccept key sock w :
  consistent w -> clients_get w (fst (genClientId w)) = None ->
  consistent (snd (on_upgrade JSON_stringify computeAccept key sock w)).
Proof.
  intros C Hfresh. unfold on_upgrade.
  destruct key as [[| k0 key] |];
    try (cbn [snd]; apply (consistent_same_registry w); [ | | exact C ];
         unfold socket_destroy, socket_put, socket_write;
         destruct (destroyed _ || ended _); reflexivity).
  cbv zeta.
  match goal with
  | |- context [genClientId (socket_write sock ?chunk w)] =>
    set (w0 := socket_write sock chunk w)
  end.
  assert (writes_only w w0) as W by apply socket_write_writes_only.
  unfold genClientId in *. cbn [fst snd] in *.
  destruct W as (Wc & Wr & Wn & _). rewrite Wn.
  set (cid := lit "c" ++ decimal (nextId w)) in *.
  eapply writes_only_consistent; [ apply sendToClient_writes_only | ].
  match goal with
  | |- consistent (set_recvBuffer _ _ (client_put _ ?c ?w')) =>
    set (c0 := c); set (w1 := w')
  end.
  apply (consistent_same_registry (client_put cid c0 w1));
    [ reflexivity | reflexivity | ].
  intros id room.
  rewrite members_client_put, clients_get_client_put.
  unfold members, rooms_get, clients_get, w1. cbn [rooms clients set_nextId].
  rewrite Wc, Wr.
  fold (rooms_get w room). fold (members w room). fold (clients_get w id).
  destruct (jsstring_eq_dec id cid) as [-> | ]; [ | apply C ].
  split.
  - intros Hin. apply C in Hin as (c & Hc' & _). congruence.
  - intros (c & [= <-] & []).
Qed.

(** * More of the program

    Properties of the code that the design document does not state. *)

(** ** The decoder on what clients send *)

Lemma unmask_unmask mask P : forall i, unmask i mask (unmask i mask P) = P.
Proof.
  induction P as [| p P IH]; intros i; cbn [unmask]; [ reflexivity | ].
  rewrite IH, Z.lxor_assoc, Z.lxor_nilpotent, Z.lxor_0_r. reflexivity.
Qed.

Lemma length_unmask mask P : forall i, length (unmask i mask P) = length P.
Proof.
  induction P as [| p P IH]; intros i; cbn [unmask length]; [ reflexivity | ].
  rewrite IH. reflexivity.
Qed.

Lemma blen_unmask i mask P : blen (unmask i mask P) = blen P.
Proof. unfold blen. rewrite length_unmask. reflexivity. Qed.

Lemma masked_length_byte len :
  0 <= len < 128 -> Z.land (0x80 + len) 0x80 <> 0 /\ Z.land (0x80 + len) 0x7f = len.
Proof.
  intros H.
  pose proof (forall_below
                (fun x => negb (Z.land (0x80 + x) 0x80 =? 0) &&
                          (Z.land (0x80 + x) 0x7f =? x)) 128
                eq_refl len H) as E.
  apply andb_true_iff in E as [E1 E2].
  split; [ apply Z.eqb_neq, negb_true_iff, E1 | apply Z.eqb_eq, E2 ].
Qed.

(** The frame cut out of [h ++ mask ++ M ++ rest] when the header [h]
    declares [blen M] bytes, masked. *)
Lemma cut_frame_masked buf h mask M rest off :
  buf = h ++ mask ++ M ++ rest -> off = blen h -> length mask = 4%nat ->
  Z.land (nth 1 buf 0) 0x80 <> 0 ->
  off + 4 + blen M < 2 ^ 53 ->
  cut_frame buf (blen M, off) =
  {| fin := negb (Z.land (nth 0 buf 0) 0x80 =? 0);
     opcode := Z.land (nth 0 buf 0) 0x0f;
     payload := utf8_decode (unmask 0 mask M); frameLen := off + 4 + blen M |}.
Proof.
  intros -> -> Hm4 Hm Hfit. unfold cut_frame. cbn [fst snd].
  destruct (Z.eqb_spec (Z.land (nth 1 (h ++ mask ++ M ++ rest) 0) 128) 0);
    [ contradiction | ].
  cbn [negb]. rewrite js_add_small by lia.
  assert (blen mask = 4) as Hb4 by (unfold blen; lia).
  rewrite (slice_middle (blen h) (blen h + 4) h mask (M ++ rest)) by lia.
  replace (h ++ mask ++ M ++ rest) with ((h ++ mask) ++ M ++ rest)
    by (rewrite <- app_assoc; reflexivity).
  rewrite (slice_middle (blen h + 4) (blen h + 4 + blen M) (h ++ mask) M rest)
    by (rewrite ?blen_app; lia).
  reflexivity.
Qed.

Lemma parseFrame_masked_frame first mask P rest :
  length mask = 4%nat -> blen (masked_frame first mask P) < 2 ^ 53 ->
  parseFrame (masked_frame first mask P ++ rest) =
  Ok (Some {| fin := negb (Z.land first 0x80 =? 0); opcode := Z.land first 0x0f;
              payload := utf8_decode P;
              frameLen := blen (masked_frame first mask P) |}).
Proof.
  intros Hm4 Hfit.
  assert (blen mask = 4) as Hb4 by (unfold blen; lia).
  pose proof (blen_nonneg rest) as Hrest.
  unfold masked_frame, masked_length in *.
  pose proof (unmask_unmask mask P 0) as HMP.
  pose proof (blen_unmask 0 mask P) as HMl.
  set (M := unmask 0 mask P) in *.
  rewrite <- HMl in *. clear HMl.
  pose proof (blen_nonneg M) as HM.
  destruct (Z.ltb_spec (blen M) 126) as [H1 | H1].
  { destruct (masked_length_byte (blen M)) as [E1 E2]; [ lia | ].
    cbn [app] in *. rewrite <- !app_assoc.
    rewrite !blen_cons, !blen_app in Hfit |- *.
    rewrite parseFrame_split by (rewrite !blen_cons, !blen_app; lia).
    unfold declared. cbn [nth]. rewrite E2.
    destruct (Z.eqb_spec (blen M) 126); [ lia | ].
    destruct (Z.eqb_spec (blen M) 127); [ lia | ].
    cbn [bind].
    rewrite (cut_frame_masked _ [first; 128 + blen M] mask M rest 2)
      by (reflexivity || assumption || (cbn [nth]; assumption) || lia).
    cbn [nth]. rewrite HMP. do 2 apply f_equal. f_equal. lia. }
  destruct (Z.ltb_spec (blen M) 65536) as [H2 | H2].
  { cbn [app] in *. rewrite <- !app_assoc in *. cbn [app] in *.
    rewrite !blen_cons, !blen_app, blen_be_bytes in Hfit |- *.
    rewrite parseFrame_split
      by (rewrite !blen_cons, !blen_app, blen_be_bytes; lia).
    unfold declared, readUInt16BE, readUIntBE. cbn [nth].
    change (Z.land (128 + 126) 127 =? 126) with true. cbv iota.
    rewrite !blen_cons, !blen_app, blen_be_bytes.
    destruct (Z.ltb_spec (1 + (1 + (Z.of_nat 2 + (blen mask + (blen M + blen rest)))))
                         (2 + Z.of_nat 2)); [ lia | ].
    change (first :: 128 + 126 :: be_bytes 2 (blen M) ++ mask ++ M ++ rest)
      with ([first; 128 + 126] ++ be_bytes 2 (blen M) ++ mask ++ M ++ rest).
    rewrite slice_middle by (rewrite ?blen_be_bytes; reflexivity).
    rewrite be_value_be_bytes by (cbn; lia).
    cbn [bind].
    rewrite (cut_frame_masked _ ([first; 128 + 126] ++ be_bytes 2 (blen M)) mask M rest (2 + 2))
      by (rewrite <- ?app_assoc, ?blen_app, ?blen_be_bytes;
          reflexivity || assumption || (cbn [nth app]; discriminate) || lia).
    cbn [nth app]. rewrite HMP. do 2 apply f_equal. f_equal. lia. }
  cbn [app] in *. rewrite <- !app_assoc in *. cbn [app] in *.
  rewrite !blen_cons, !blen_app, blen_be_bytes in Hfit |- *.
  rewrite parseFrame_split
    by (rewrite !blen_cons, !blen_app, blen_be_bytes; lia).
  unfold declared, readBigUInt64BE, readUIntBE. cbn [nth].
  change (Z.land (128 + 127) 127 =? 126) with false.
  change (Z.land (128 + 127) 127 =? 127) with true. cbv iota.
  rewrite !blen_cons, !blen_app, blen_be_bytes.
  destruct (Z.ltb_spec (1 + (1 + (Z.of_nat 8 + (blen mask + (blen M + blen rest)))))
                       (2 + Z.of_nat 8)); [ lia | ].
  change (first :: 128 + 127 :: be_bytes 8 (blen M) ++ mask ++ M ++ rest)
    with ([first; 128 + 127] ++ be_bytes 8 (blen M) ++ mask ++ M ++ rest).
  rewrite slice_middle by (rewrite ?blen_be_bytes; reflexivity).
  rewrite be_value_be_bytes by (cbn; lia).
  cbn [bind]. rewrite to_double_small by lia.
  rewrite (cut_frame_masked _ ([first; 128 + 127] ++ be_bytes 8 (blen M)) mask M rest (2 + 8))
    by (rewrite <- ?app_assoc, ?blen_app, ?blen_be_bytes;
        reflexivity || assumption || (cbn [nth app]; discriminate) || lia).
  cbn [nth app]. rewrite HMP. do 2 apply f_equal. f_equal. lia.
Qed.

(** X1. What a client sends is what the decoder returns. For every first byte,
    every four-byte mask and every payload whose frame fits a buffer,
    [parseFrame] on the masked frame, whatever follows it in the buffer,
    returns the frame's flag and opcode and the payload with the mask taken
    off again, decoded as UTF-8 (the string itself when the payload is the
    UTF-8 of a well-formed string), and a length that ends exactly where the
    following bytes begin. *)
Theorem masked_frame_roundtrip first mask P rest :
  length mask = 4%nat -> blen (masked_frame first mask P) < 2 ^ 53 ->
  exists f,
    parseFrame (masked_frame first mask P ++ rest) = Ok (Some f) /\
    fin f = negb (Z.land first 0x80 =? 0) /\
    opcode f = Z.land first 0x0f /\
    payload f = utf8_decode P /\
    (forall str, Forall is_code_unit str -> P = utf8_encode str ->
                 payload f = toWellFormed str) /\
    frameLen f = blen (masked_frame first mask P) /\
    slice_from (frameLen f) (masked_frame first mask P ++ rest) = rest.
Proof.
  intros Hm4 Hfit. eexists. split; [ apply parseFrame_masked_frame; assumption | ].
  cbn [fin opcode payload frameLen]. repeat split.
  - intros str Hstr ->. apply utf8_roundtrip, Hstr.
  - apply slice_from_app.
Qed.

(** X2. [parseFrame] answers [null] exactly when it is given fewer than two
    bytes, and raises exactly when the length byte announces a 16-bit or a
    64-bit length that the buffer is too short to hold (fewer than 4,
    respectively 10, bytes); what it raises is a RangeError. In every other
    case it returns a frame. *)
Theorem parseFrame_failure_cases buffer :
  (parseFrame buffer = Ok None <-> blen buffer < 2) /\
  (forall e, parseFrame buffer = Throw e <->
             e = RangeError /\ 2 <= blen buffer /\
             (Z.land (nth 1 buffer 0) 0x7f = 126 /\ blen buffer < 4 \/
              Z.land (nth 1 buffer 0) 0x7f = 127 /\ blen buffer < 10)).
Proof.
  destruct (Z.lt_ge_cases (blen buffer) 2) as [Hs | Hs].
  { rewrite parseFrame_short by assumption. split; [ tauto | ].
    intros e. split; [ discriminate | lia ]. }
  rewrite parseFrame_split by assumption.
  unfold declared, readUInt16BE, readBigUInt64BE, readUIntBE.
  destruct (Z.eqb_spec (Z.land (nth 1 buffer 0) 127) 126) as [E6 | E6].
  { destruct (Z.ltb_spec (blen buffer) (2 + Z.of_nat 2)); cbn [bind].
    - split; [ split; [ discriminate | lia ] | ].
      intros e. split; [ intros [= <-]; split; [ reflexivity | lia ] | ].
      intros (-> & _). reflexivity.
    - split; [ split; [ discriminate | lia ] | ].
      intros e. split; [ discriminate | lia ]. }
  destruct (Z.eqb_spec (Z.land (nth 1 buffer 0) 127) 127) as [E7 | E7].
  { destruct (Z.ltb_spec (blen buffer) (2 + Z.of_nat 8)); cbn [bind].
    - split; [ split; [ discriminate | lia ] | ].
      intros e. split; [ intros [= <-]; split; [ reflexivity | lia ] | ].
      intros (-> & _). reflexivity.
    - split; [ split; [ discriminate | lia ] | ].
      intros e. split; [ discriminate | lia ]. }
  cbn [bind]. split; [ split; [ discriminate | lia ] | ].
  intros e. split; [ discriminate | lia ].
Qed.

(** X3. Bytes behind a frame are not read: a buffer that parses to a frame
    which it holds in full parses to the same frame with any bytes appended,
    and when the frame is the whole buffer, dropping [frameLen] bytes leaves
    exactly the appended ones. *)
Theorem bytes_behind_a_frame_are_not_read b rest f :
  Forall is_byte b -> parseFrame b = Ok (Some f) -> frameLen f <= blen b ->
  parseFrame (b ++ rest) = Ok (Some f) /\
  (frameLen f = blen b -> slice_from (frameLen f) (b ++ rest) = rest).
Proof.
  intros Hb Hp Hf. split; [ apply parseFrame_app; assumption | ].
  intros ->. apply slice_from_app.
Qed.

(** ** The loop of the data handler *)

Lemma slice_cons s e x b : 1 <= s -> slice s e (x :: b) = slice (s - 1) (e - 1) b.
Proof.
  intros Hs. unfold slice.
  replace (Z.to_nat s) with (S (Z.to_nat (s - 1))) by lia.
  cbn [skipn]. f_equal. lia.
Qed.

Lemma slice_from_cons s x b : 1 <= s -> slice_from s (x :: b) = slice_from (s - 1) b.
Proof.
  intros Hs. unfold slice_from.
  replace (Z.to_nat s) with (S (Z.to_nat (s - 1))) by lia. reflexivity.
Qed.

(** With two bytes or more there is a frame or an exception, never [null]. *)
Lemma parseFrame_not_null b : 2 <= blen b -> parseFrame b <> Ok None.
Proof.
  intros H. rewrite parseFrame_split by assumption.
  destruct (declared b); discriminate.
Qed.

(** The first byte gives the frame its flag and its opcode and nothing else. *)
Lemma parseFrame_first_byte x y rest :
  parseFrame (y :: rest) =
  match parseFrame (x :: rest) with
  | Ok (Some f) =>
    Ok (Some {| fin := negb (Z.land y 0x80 =? 0); opcode := Z.land y 0x0f;
                payload := payload f; frameLen := frameLen f |})
  | r => r
  end.
Proof.
  destruct (Z.lt_ge_cases (blen (x :: rest)) 2) as [Hs | Hs].
  { rewrite !parseFrame_short by (rewrite blen_cons in *; lia). reflexivity. }
  rewrite !parseFrame_split by (rewrite blen_cons in *; lia).
  assert (declared (y :: rest) = declared (x :: rest)) as Hd.
  { unfold declared, readUInt16BE, readBigUInt64BE, readUIntBE.
    rewrite !blen_cons, !(slice_cons _ _ x), !(slice_cons _ _ y) by lia.
    destruct rest; reflexivity. }
  rewrite Hd. destruct (declared (x :: rest)) as [lo |] eqn:E; [ | reflexivity ].
  cbn [bind]. do 2 f_equal.
  pose proof (declared_offset _ _ E) as Ho.
  unfold cut_frame. cbn [payload frameLen nth].
  destruct (negb (Z.land (nth 0 rest 0) 128 =? 0));
    rewrite !(slice_cons _ _ x), !(slice_cons _ _ y) by lia; reflexivity.
Qed.

Section DataLoopFacts.
Variable JSON_parse : jsstring -> option JsVal.
Variable JSON_stringify : JsVal -> jsstring.
Variable ToString : JsVal -> jsstring.

Local Abbreviation send := (sendToClient JSON_stringify).
Local Abbreviation broadcast := (broadcastRoom JSON_stringify).
Local Abbreviation handle := (handleJsonMessage JSON_parse JSON_stringify ToString).
Local Abbreviation cleanup := (cleanupClient JSON_stringify ToString).
Local Abbreviation cleaned := (cleaned_up JSON_stringify ToString).
Local Abbreviation frame_of o := (buildTextFrame (JSON_stringify o)).
Local Abbreviation frame_step := (handle_frame JSON_parse JSON_stringify ToString).
Local Abbreviation loop := (data_loop JSON_parse JSON_stringify ToString).
Local Abbreviation data := (on_data JSON_parse JSON_stringify ToString).

(** The handler looks at a frame's opcode and payload only. *)
Lemma handle_frame_ext cid sock f g w :
  opcode f = opcode g -> payload f = payload g ->
  frame_step cid sock f w = frame_step cid sock g w.
Proof. unfold handle_frame. intros -> ->. reflexivity. Qed.

Lemma clients_get_cleaned_up_self cid w : clients_get (cleaned cid w) cid = None.
Proof.
  clear JSON_parse.
  destruct (clients_get w cid) as [c |] eqn:Hc.
  - destruct (cleaned_up_registry JSON_stringify ToString cid w c Hc) as [H _].
    rewrite H. destruct (jsstring_eq_dec cid cid); congruence.
  - rewrite cleaned_up_unregistered; assumption.
Qed.

(** The loop is left early by a close frame only, which unregisters. *)
Lemma handle_frame_stops cid sock f w r :
  frame_step cid sock f w = Ok r -> fst r = false ->
  opcode f = 8 /\ snd r = socket_end sock (cleaned cid w).
Proof.
  unfold handle_frame.
  destruct (Z.eqb_spec (opcode f) 8).
  { destruct (cleanup cid w) as [w1 |] eqn:E; [ | discriminate ].
    intros [= <-]. rewrite (cleanupClient_returns _ _ _ _ _ E). auto. }
  destruct (opcode f =? 9); [ intros [= <-]; discriminate | ].
  destruct (opcode f =? 10); [ intros [= <-]; discriminate | ].
  destruct (opcode f =? 1); [ | intros [= <-]; discriminate ].
  destruct (handle cid (payload f) w); [ | discriminate ].
  intros [= <-]. discriminate.
Qed.

Lemma data_loop_leaves_little cid sock fuel :
  forall w w',
    Forall is_byte (recvBuffer (socket_get w sock)) ->
    (length (recvBuffer (socket_get w sock)) <= fuel)%nat ->
    loop fuel cid sock w = Ok w' ->
    clients_get w' cid <> None ->
    blen (recvBuffer (socket_get w' sock)) <= 2.
Proof.
  induction fuel as [| fuel IH]; intros w w' Hb Hfuel Hrun Hreg.
  - rewrite data_loop_done in Hrun by (unfold blen; lia).
    injection Hrun as <-. unfold blen. lia.
  - destruct (Z.le_gt_cases (blen (recvBuffer (socket_get w sock))) 2) as [Hs | Hs].
    { rewrite data_loop_done in Hrun by assumption. injection Hrun as <-. assumption. }
    destruct (parseFrame (recvBuffer (socket_get w sock))) as [[f |] |] eqn:Hp.
    + rewrite (data_loop_step _ _ _ _ _ _ _ f) in Hrun by (assumption || lia).
      destruct (frame_step cid sock f _) as [r |] eqn:Hr; [ | discriminate ].
      cbn [bind] in Hrun.
      destruct (fst r) eqn:Hgo.
      * pose proof (handle_frame_recvBuffer _ _ _ _ _ _ _ _ sock Hr) as Hrecv.
        rewrite recvBuffer_set_recvBuffer in Hrecv.
        destruct (Nat.eq_dec sock sock); [ | congruence ].
        pose proof (frameLen_ge_2 _ _ Hb Hp) as Hf.
        apply (IH (snd r)); try assumption; rewrite Hrecv.
        -- apply Forall_slice_from. assumption.
        -- unfold slice_from. rewrite length_skipn. unfold blen in Hs. lia.
      * injection Hrun as <-.
        destruct (handle_frame_stops _ _ _ _ _ Hr Hgo) as [_ Hw].
        exfalso. apply Hreg. rewrite Hw.
        change (clients_get (cleaned cid
                  (set_recvBuffer sock
                     (slice_from (frameLen f) (recvBuffer (socket_get w sock))) w)) cid
                = None).
        apply clients_get_cleaned_up_self.
    + exfalso. apply (parseFrame_not_null (recvBuffer (socket_get w sock))); [ lia | exact Hp ].
    + cbn [data_loop] in Hrun.
      destruct (Z.ltb_spec 2 (blen (recvBuffer (socket_get w sock)))); [ | lia ].
      rewrite Hp in Hrun. discriminate.
Qed.

Lemma data_loop_ends cid sock fuel :
  forall w,
    Forall is_byte (recvBuffer (socket_get w sock)) ->
    (length (recvBuffer (socket_get w sock)) <= fuel)%nat ->
    exists n,
      2 * Z.of_nat n <= blen (recvBuffer (socket_get w sock)) /\
      loop_ends JSON_parse JSON_stringify ToString cid sock w n (loop fuel cid sock w).
Proof.
  induction fuel as [| fuel IH]; intros w Hb Hfuel.
  - exists 0%nat. rewrite data_loop_done by (unfold blen; lia).
    split; [ unfold blen; lia | ]. apply loop_short. unfold blen. lia.
  - destruct (Z.le_gt_cases (blen (recvBuffer (socket_get w sock))) 2) as [Hs | Hs].
    { exists 0%nat. rewrite data_loop_done by assumption.
      split; [ unfold blen; lia | ]. apply loop_short, Hs. }
    assert (2 < blen (recvBuffer (socket_get w sock))) as Hs' by lia.
    destruct (parseFrame (recvBuffer (socket_get w sock))) as [[f |] |] eqn:Hp.
    + rewrite (data_loop_step _ _ _ _ _ _ _ f) by assumption.
      destruct (frame_step cid sock f _) as [[go w'] |] eqn:Hr; cbn [bind fst snd].
      * destruct go.
        -- pose proof (handle_frame_recvBuffer _ _ _ _ _ _ _ _ sock Hr) as Hrecv.
           cbn [snd] in Hrecv. rewrite recvBuffer_set_recvBuffer in Hrecv.
           destruct (Nat.eq_dec sock sock); [ | congruence ].
           pose proof (frameLen_ge_2 _ _ Hb Hp) as Hf.
           assert (length (recvBuffer (socket_get w' sock)) + 2 <=
                   length (recvBuffer (socket_get w sock)))%nat as Hshrink
               by (rewrite Hrecv; unfold slice_from; rewrite length_skipn;
                   unfold blen in Hs; lia).
           destruct (IH w') as (n & Hn & Hends).
           { rewrite Hrecv. apply Forall_slice_from. assumption. }
           { lia. }
           exists (S n). split; [ unfold blen in *; lia | ].
           apply (loop_again _ _ _ _ _ w f w'); assumption.
        -- exists 1%nat. split; [ lia | ].
           apply (loop_return _ _ _ _ _ w f w'); assumption.
      * exists 1%nat. split; [ lia | ].
        apply (loop_frame_raises _ _ _ _ _ w f e); assumption.
    + exists 0%nat. split; [ lia | ].
      cbn [data_loop].
      destruct (Z.ltb_spec 2 (blen (recvBuffer (socket_get w sock)))); [ | lia ].
      rewrite Hp. apply loop_break; assumption.
    + exists 0%nat. split; [ lia | ].
      cbn [data_loop].
      destruct (Z.ltb_spec 2 (blen (recvBuffer (socket_get w sock)))); [ | lia ].
      rewrite Hp. apply loop_parse_raises; assumption.
Qed.

(** X4. The loop of the data handler terminates: on every chunk it is left,
    with the result that the handler gives, after a number of frames that is
    at most half the number of bytes in the buffer, every round taking at
    least two bytes off it. *)
Theorem data_handler_terminates cid sock buf w :
  Forall is_byte (recvBuffer (socket_get w sock)) -> Forall is_byte buf ->
  let buffer := recvBuffer (socket_get w sock) ++ buf in
  exists n,
    2 * Z.of_nat n <= blen buffer /\
    loop_ends JSON_parse JSON_stringify ToString cid sock
      (set_recvBuffer sock buffer w) n (data cid sock buf w).
Proof.
  intros Hb Hbuf buffer. unfold on_data. fold buffer.
  assert (recvBuffer (socket_get (set_recvBuffer sock buffer w) sock) = buffer) as E.
  { rewrite recvBuffer_set_recvBuffer. destruct (Nat.eq_dec sock sock); congruence. }
  destruct (data_loop_ends cid sock (length buffer) (set_recvBuffer sock buffer w))
    as (n & Hn & Hends).
  { rewrite E. apply Forall_app. split; assumption. }
  { rewrite E. lia. }
  exists n. rewrite E in Hn. split; assumption.
Qed.

(** X5. The data handler never waits for the rest of a frame: when it returns
    with the client still registered (no close frame was handled, nothing was
    raised), at most two bytes are left in the receive buffer, however little
    of a frame had arrived. *)
Theorem at_most_two_bytes_are_kept cid sock buf w w' :
  Forall is_byte (recvBuffer (socket_get w sock)) -> Forall is_byte buf ->
  data cid sock buf w = Ok w' -> clients_get w' cid <> None ->
  blen (recvBuffer (socket_get w' sock)) <= 2.
Proof.
  intros Hb Hbuf Hrun Hreg. unfold on_data in Hrun.
  assert (recvBuffer (socket_get (set_recvBuffer sock
             (recvBuffer (socket_get w sock) ++ buf) w) sock) =
          recvBuffer (socket_get w sock) ++ buf) as E.
  { rewrite recvBuffer_set_recvBuffer. destruct (Nat.eq_dec sock sock); congruence. }
  refine (data_loop_leaves_little cid sock _ _ w' _ _ Hrun Hreg); rewrite E.
  - apply Forall_app. split; assumption.
  - lia.
Qed.

End DataLoopFacts.

(** ** One frame at a time *)

Lemma blen_masked_frame first mask P :
  length mask = 4%nat -> 6 + blen P <= blen (masked_frame first mask P).
Proof.
  intros Hm. unfold masked_frame, masked_length.
  pose proof (blen_nonneg P).
  assert (blen mask = 4) as Hb4 by (unfold blen; lia).
  rewrite !blen_app, blen_unmask, Hb4.
  change (blen [first]) with 1.
  destruct (blen P <? 126); [ change (blen [128 + blen P]) with 1; lia | ].
  destruct (blen P <? 65536); rewrite blen_app, blen_be_bytes;
    [ change (blen [128 + 126]) with 1 | change (blen [128 + 127]) with 1 ]; lia.
Qed.

Lemma recipients_sole_user w cid sock set :
  sole_user w cid sock -> recipients w cid set sock = [].
Proof.
  intros Hsole. unfold recipients.
  induction set as [| a set IH]; cbn [filter]; [ reflexivity | ].
  destruct (jsstring_eq_dec a cid) as [-> | Hne]; [ exact IH | ].
  destruct (clients_get w a) as [c |] eqn:Hc; [ | exact IH ].
  destruct (Nat.eqb_spec (socket c) sock) as [Hs | Hs]; [ | exact IH ].
  exfalso. apply Hne. apply (Hsole a c Hc Hs).
Qed.

Lemma departures_sole_user w cid c sock :
  sole_user w cid sock -> departures w cid c sock = [].
Proof.
  intros Hsole. unfold departures.
  induction (client_rooms c) as [| room l IH]; cbn [flat_map]; [ reflexivity | ].
  rewrite recipients_sole_user by assumption. exact IH.
Qed.

Section FrameHandlingFacts.
Variable JSON_parse : jsstring -> option JsVal.
Variable JSON_stringify : JsVal -> jsstring.
Variable ToString : JsVal -> jsstring.

Local Abbreviation send := (sendToClient JSON_stringify).
Local Abbreviation broadcast := (broadcastRoom JSON_stringify).
Local Abbreviation handle := (handleJsonMessage JSON_parse JSON_stringify ToString).
Local Abbreviation cleanup := (cleanupClient JSON_stringify ToString).
Local Abbreviation cleaned := (cleaned_up JSON_stringify ToString).
Local Abbreviation frame_of o := (buildTextFrame (JSON_stringify o)).
Local Abbreviation frame_step := (handle_frame JSON_parse JSON_stringify ToString).
Local Abbreviation loop := (data_loop JSON_parse JSON_stringify ToString).
Local Abbreviation data := (on_data JSON_parse JSON_stringify ToString).

(** Nothing is looked at before the buffer holds more than two bytes. *)
Lemma on_data_short cid sock chunk w :
  blen (recvBuffer (socket_get w sock)) + blen chunk <= 2 ->
  data cid sock chunk w =
  Ok (set_recvBuffer sock (recvBuffer (socket_get w sock) ++ chunk) w).
Proof.
  intros H. unfold on_data. apply data_loop_done.
  rewrite recvBuffer_set_recvBuffer.
  destruct (Nat.eq_dec sock sock); [ | congruence ].
  rewrite blen_app. exact H.
Qed.

(** X6. A frame of more than two bytes, as every masked frame is, whose
    opcode is not text, close or ping (a binary frame, a continuation, a
    pong, a reserved opcode) is taken off the buffer and dropped: nothing is
    written, nobody is told, the registry and every socket stay as they are.
    A frame of two bytes, one without mask and without payload, is not looked
    at: it stays in the buffer until more bytes arrive. *)
Theorem other_opcodes_are_dropped cid sock F f w :
  recvBuffer (socket_get w sock) = [] ->
  parseFrame F = Ok (Some f) -> frameLen f = blen F ->
  opcode f <> 1 -> opcode f <> 8 -> opcode f <> 9 ->
  (2 < blen F ->
   data cid sock F w = Ok (set_recvBuffer sock [] w) /\
   writes_only w (set_recvBuffer sock [] w)) /\
  (blen F <= 2 -> data cid sock F w = Ok (set_recvBuffer sock F w)).
Proof.
  intros Hempty Hp Hf H1 H8 H9. split.
  - intros Hlen. split.
    + rewrite (on_data_one_frame _ _ _ _ _ _ f) by assumption.
      unfold handle_frame.
      destruct (Z.eqb_spec (opcode f) 8); [ contradiction | ].
      destruct (Z.eqb_spec (opcode f) 9); [ contradiction | ].
      destruct (Z.eqb_spec (opcode f) 10); [ reflexivity | ].
      destruct (Z.eqb_spec (opcode f) 1); [ contradiction | reflexivity ].
    + unfold writes_only. repeat split; unfold set_recvBuffer;
        rewrite socket_get_put; destruct (Nat.eq_dec s sock) as [-> | ];
        try reflexivity.
      cbn [recvBuffer]. symmetry. assumption.
  - intros Hlen. rewrite on_data_short by (rewrite Hempty; cbn; lia).
    rewrite Hempty. reflexivity.
Qed.

(** X7. Of the first byte only the opcode counts. Two chunks that differ only
    in the upper four bits of their first byte (FIN and the reserved bits) are
    handled alike, so a fragment is taken for a whole message. *)
Theorem flag_bits_are_not_looked_at cid sock x y rest w :
  recvBuffer (socket_get w sock) = [] ->
  Forall is_byte (x :: rest) -> 2 <= blen rest ->
  Z.land x 0x0f = Z.land y 0x0f ->
  data cid sock (x :: rest) w = data cid sock (y :: rest) w.
Proof.
  intros Hempty Hb Hlen Hop. unfold on_data. rewrite Hempty. cbn [app length].
  cbn [data_loop]. rewrite !recvBuffer_set_recvBuffer.
  destruct (Nat.eq_dec sock sock); [ | congruence ].
  rewrite !blen_cons.
  destruct (Z.ltb_spec 2 (1 + blen rest)); [ | lia ].
  rewrite (parseFrame_first_byte x y rest).
  destruct (parseFrame (x :: rest)) as [[f |] |] eqn:Hp;
    [ | exfalso; apply (parseFrame_not_null (x :: rest));
        [ rewrite blen_cons; lia | exact Hp ]
      | reflexivity ].
  cbn [bind frameLen]. rewrite !set_recvBuffer_twice.
  pose proof (frameLen_ge_2 _ _ Hb Hp) as Hf.
  rewrite !slice_from_cons by lia.
  rewrite (handle_frame_ext _ _ _ _ _
             {| fin := negb (Z.land y 128 =? 0); opcode := Z.land y 15;
                payload := payload f; frameLen := frameLen f |} f);
    [ reflexivity | | reflexivity ].
  cbn [opcode]. rewrite <- Hop.
  rewrite parseFrame_split in Hp by (rewrite blen_cons; lia).
  destruct (declared (x :: rest)); [ | discriminate ].
  injection Hp as <-. reflexivity.
Qed.

(** X8. A close frame at the head of a chunk of more than two bytes ends the
    read. The client, whose name can be converted for the notices, is
    cleaned up and the socket ended; whatever follows the close frame in the
    chunk stays in the buffer, unread. The socket is destroyed when it is the
    client's, and when no one else is served by it nothing is written on it:
    the server sends no close frame back. A close frame of two bytes that
    comes alone is not looked at: it stays in the buffer. *)
Theorem close_frame_ends_the_read cid sock F rest f w :
  recvBuffer (socket_get w sock) = [] ->
  Forall is_byte F -> parseFrame F = Ok (Some f) -> frameLen f = blen F ->
  opcode f = 8 -> printable_name w cid ->
  (2 < blen F + blen rest ->
   exists w1,
     cleanup cid (set_recvBuffer sock rest w) = Ok w1 /\
     data cid sock (F ++ rest) w = Ok (socket_end sock w1) /\
     clients_get (socket_end sock w1) cid = None /\
     recvBuffer (socket_get (socket_end sock w1) sock) = rest /\
     ended (socket_get (socket_end sock w1) sock) = true /\
     (forall c, clients_get w cid = Some c -> socket c = sock ->
                destroyed (socket_get (socket_end sock w1) sock) = true) /\
     (sole_user w cid sock ->
      written (socket_get (socket_end sock w1) sock) = written (socket_get w sock))) /\
  (blen F + blen rest <= 2 ->
   data cid sock (F ++ rest) w = Ok (set_recvBuffer sock (F ++ rest) w)).
Proof.
  intros Hempty Hb Hp Hf Hop Hname. split.
  2:{ intros Hlen. rewrite on_data_short by (rewrite Hempty, blen_app; cbn; lia).
      rewrite Hempty. reflexivity. }
  intros Hlen.
  set (w0 := set_recvBuffer sock rest w).
  assert (forall id, clients_get w0 id = clients_get w id) as Hcl by reflexivity.
  assert (forall s, written (socket_get w0 s) = written (socket_get w s)) as Hwr.
  { intros s. unfold w0, set_recvBuffer. rewrite socket_get_put.
    destruct (Nat.eq_dec s sock) as [-> | ]; reflexivity. }
  assert (cleanup cid w0 = Ok (cleaned cid w0)) as Hclean
    by (apply cleanupClient_printable; exact Hname).
  exists (cleaned cid w0). set (w' := socket_end sock (cleaned cid w0)).
  split; [ exact Hclean | ].
  split.
  { unfold on_data. rewrite Hempty. cbn [app].
    assert (parseFrame (F ++ rest) = Ok (Some f)) as Hp'
      by (apply parseFrame_app; assumption || lia).
    destruct (length (F ++ rest)) as [| n] eqn:En;
      [ rewrite length_app in En; unfold blen in Hlen; lia | ].
    rewrite (data_loop_step _ _ _ _ _ _ _ f);
      rewrite ?recvBuffer_set_recvBuffer;
      destruct (Nat.eq_dec sock sock); try congruence; try assumption;
      [ | rewrite blen_app; lia ].
    rewrite Hf, slice_from_app, set_recvBuffer_twice.
    unfold handle_frame. rewrite Hop. fold w0. rewrite Hclean. reflexivity. }
  split.
  { change (clients_get (cleaned cid w0) cid = None).
    apply clients_get_cleaned_up_self. }
  split.
  { unfold w'. rewrite recvBuffer_socket_end, recvBuffer_cleaned_up.
    unfold w0. rewrite recvBuffer_set_recvBuffer.
    destruct (Nat.eq_dec sock sock); congruence. }
  split.
  { unfold w', socket_end. rewrite socket_get_put.
    destruct (Nat.eq_dec sock sock); [ reflexivity | congruence ]. }
  split.
  { intros c Hc Hs. unfold w', socket_end. rewrite socket_get_put.
    destruct (Nat.eq_dec sock sock); [ | congruence ]. cbn [destroyed].
    unfold cleaned_up. rewrite Hcl, Hc.
    match goal with
    | |- destroyed (socket_get (set_clients ?x _) sock) = true =>
      change (destroyed (socket_get x sock) = true)
    end.
    rewrite Hs.
    match goal with
    | |- destroyed (socket_get (socket_destroy sock ?x) sock) = true =>
      destruct (socket_get_socket_destroy sock x sock) as (_ & _ & _ & ->)
    end.
    rewrite Nat.eqb_refl. reflexivity. }
  intros Hsole.
  assert (written (socket_get w' sock) = written (socket_get (cleaned cid w0) sock)) as ->.
  { unfold w', socket_end. rewrite socket_get_put.
    destruct (Nat.eq_dec sock sock); [ reflexivity | congruence ]. }
  destruct (clients_get w0 cid) as [c |] eqn:Hc.
  - rewrite (written_cleaned_up _ _ _ _ c) by assumption.
    rewrite departures_sole_user by exact Hsole.
    cbn [length repeat]. rewrite app_nil_r. apply Hwr.
  - rewrite cleaned_up_unregistered by assumption. apply Hwr.
Qed.

(** X9. A ping with an ASCII payload shorter than 126 bytes is answered by a
    pong that carries the same payload and that the decoder reads back as
    such; the read does nothing else. *)
Theorem ascii_ping_is_answered cid sock mask P w :
  recvBuffer (socket_get w sock) = [] -> length mask = 4%nat ->
  Forall (fun b => 0 <= b < 0x80) P -> blen P < 126 ->
  let pong := [0x8A; blen P] ++ P in
  data cid sock (masked_frame 0x89 mask P) w =
  Ok (socket_write sock pong (set_recvBuffer sock [] w)) /\
  parseFrame pong =
  Ok (Some {| fin := true; opcode := 0xA; payload := P; frameLen := blen pong |}).
Proof.
  intros Hempty Hm HP Hlen pong.
  pose proof (blen_nonneg P) as HP0.
  pose proof (blen_masked_frame 0x89 mask P Hm) as Hlong.
  assert (blen (masked_frame 0x89 mask P) < 2 ^ 53) as Hfit.
  { unfold masked_frame, masked_length.
    assert (blen mask = 4) as Hb4 by (unfold blen; lia).
    destruct (Z.ltb_spec (blen P) 126); [ | lia ].
    rewrite !blen_app, blen_unmask, Hb4.
    change (blen [137]) with 1. change (blen [128 + blen P]) with 1. lia. }
  pose proof (parseFrame_masked_frame 0x89 mask P [] Hm Hfit) as Hp.
  rewrite app_nil_r in Hp.
  split.
  - rewrite (on_data_one_frame _ _ _ cid sock (masked_frame 0x89 mask P) _ w
               Hempty ltac:(lia) Hp eq_refl).
    unfold handle_frame. cbn [opcode payload]. cbn [bind snd Z.eqb Z.land Pos.land].
    change (Z.land 137 15 =? 8) with false. change (Z.land 137 15 =? 9) with true.
    cbv iota. cbn [bind snd]. rewrite pongFrame_ascii by assumption. reflexivity.
  - unfold pong. cbn [app]. rewrite parseFrame_split by (rewrite !blen_cons; lia).
    destruct (short_length_byte (blen P)) as [E1 E2]; [ lia | ].
    unfold declared. cbn [nth]. rewrite E2.
    destruct (Z.eqb_spec (blen P) 126); [ lia | ].
    destruct (Z.eqb_spec (blen P) 127); [ lia | ].
    cbn [bind].
    rewrite (cut_frame_unmasked _ [138; blen P] P 2)
      by (reflexivity || assumption || lia).
    cbn [nth]. rewrite utf8_decode_all_ascii by assumption.
    rewrite !blen_cons. do 2 apply f_equal. f_equal. lia.
Qed.

(** X10. A masked text frame that holds the UTF-8 of a string hands that
    string (with U+FFFD for an unpaired surrogate) to the dispatcher, and the
    read does nothing else. *)
Theorem text_frame_reaches_the_dispatcher cid sock first mask str w :
  recvBuffer (socket_get w sock) = [] -> length mask = 4%nat ->
  Forall is_code_unit str -> Z.land first 0x0f = 1 ->
  blen (masked_frame first mask (utf8_encode str)) < 2 ^ 53 ->
  data cid sock (masked_frame first mask (utf8_encode str)) w =
  handle cid (toWellFormed str) (set_recvBuffer sock [] w).
Proof.
  intros Hempty Hm Hstr Hop Hfit.
  pose proof (blen_nonneg (utf8_encode str)) as HP0.
  pose proof (blen_masked_frame first mask (utf8_encode str) Hm) as Hlong.
  pose proof (parseFrame_masked_frame first mask (utf8_encode str) [] Hm Hfit) as Hp.
  rewrite app_nil_r in Hp.
  rewrite (on_data_one_frame _ _ _ cid sock (masked_frame first mask (utf8_encode str)) _ w
             Hempty ltac:(lia) Hp eq_refl).
  unfold handle_frame. cbn [opcode payload]. rewrite Hop.
  cbn [Z.eqb Pos.eqb]. rewrite utf8_roundtrip by assumption.
  destruct (handle cid (toWellFormed str) (set_recvBuffer sock [] w)); reflexivity.
Qed.

End FrameHandlingFacts.

(** ** Rooms stay *)

Lemma rooms_kept_refl w : rooms_kept w w.
Proof. intros room H. exact H. Qed.

Lemma rooms_kept_trans w1 w2 w3 :
  rooms_kept w1 w2 -> rooms_kept w2 w3 -> rooms_kept w1 w3.
Proof. intros A B room H. apply B, A, H. Qed.

Lemma rooms_kept_same_rooms w w' : rooms w' = rooms w -> rooms_kept w w'.
Proof. intros E room. unfold rooms_get. rewrite E. trivial. Qed.

Lemma rooms_kept_set w k s :
  rooms_kept w (set_rooms w (map_set Key_eq_dec (rooms w) k s)).
Proof.
  intros room H. unfold rooms_get in *. cbn [rooms set_rooms].
  rewrite map_get_set. destruct (Key_eq_dec room k); [ discriminate | exact H ].
Qed.

Lemma rooms_kept_room_add k cid w : rooms_kept w (room_add k cid w).
Proof.
  unfold room_add. destruct (rooms_get w k);
    [ apply rooms_kept_set | apply rooms_kept_refl ].
Qed.

Lemma rooms_kept_room_delete k cid w : rooms_kept w (room_delete k cid w).
Proof.
  unfold room_delete. destruct (rooms_get w k);
    [ apply rooms_kept_set | apply rooms_kept_refl ].
Qed.

Lemma rooms_kept_ensure_room k w : rooms_kept w (ensure_room k w).
Proof.
  unfold ensure_room. destruct (map_has Key_eq_dec (rooms w) k);
    [ apply rooms_kept_refl | apply rooms_kept_set ].
Qed.

Lemma writes_only_rooms_kept w w' : writes_only w w' -> rooms_kept w w'.
Proof. intros (_ & E & _). apply rooms_kept_same_rooms, E. Qed.

Lemma set_add_idem (s : list jsstring) x :
  set_add jsstring_eq_dec (set_add jsstring_eq_dec s x) x = set_add jsstring_eq_dec s x.
Proof.
  unfold set_add at 1.
  replace (set_has jsstring_eq_dec (set_add jsstring_eq_dec s x) x) with true;
    [ reflexivity | ].
  symmetry. apply set_has_In, In_set_add. auto.
Qed.

Lemma set_add_idem_key (s : list Key) x :
  set_add Key_eq_dec (set_add Key_eq_dec s x) x = set_add Key_eq_dec s x.
Proof.
  unfold set_add at 1.
  replace (set_has Key_eq_dec (set_add Key_eq_dec s x) x) with true;
    [ reflexivity | ].
  symmetry. apply set_has_In, In_set_add. auto.
Qed.

Lemma set_delete_set_add {K} (eq_dec : forall a b : K, {a = b} + {a <> b}) s x :
  ~ In x s -> set_delete eq_dec (set_add eq_dec s x) x = s.
Proof.
  intros Hn. unfold set_add.
  destruct (set_has eq_dec s x) eqn:E; [ apply set_has_In in E; contradiction | ].
  unfold set_delete. rewrite filter_app. cbn [filter].
  destruct (eq_dec x x); [ | congruence ]. rewrite app_nil_r.
  clear E. induction s as [| a s IH]; cbn [filter]; [ reflexivity | ].
  destruct (eq_dec x a) as [-> | ]; [ exfalso; apply Hn; left; reflexivity | ].
  f_equal. apply IH. intros H. apply Hn. right. exact H.
Qed.

Lemma to_key_primitive v r1 r2 : primitive v = true -> to_key r1 v = to_key r2 v.
Proof. destruct v; cbn; trivial; discriminate. Qed.

Lemma js_or_idem a b c : js_or a (js_or (js_or a (js_or b c)) c) = js_or a (js_or b c).
Proof.
  unfold js_or. destruct (truthy a) eqn:Ea; [ reflexivity | ].
  destruct (truthy b) eqn:Eb; [ rewrite Eb; reflexivity | ].
  destruct (truthy c) eqn:Ec; reflexivity.
Qed.

Section RoomsKeptFacts.
Variable JSON_parse : jsstring -> option JsVal.
Variable JSON_stringify : JsVal -> jsstring.
Variable ToString : JsVal -> jsstring.

Local Abbreviation send := (sendToClient JSON_stringify).
Local Abbreviation broadcast := (broadcastRoom JSON_stringify).
Local Abbreviation handle := (handleJsonMessage JSON_parse JSON_stringify ToString).
Local Abbreviation cleanup := (cleanupClient JSON_stringify ToString).
Local Abbreviation cleaned := (cleaned_up JSON_stringify ToString).
Local Abbreviation frame_of o := (buildTextFrame (JSON_stringify o)).
Local Abbreviation frame_step := (handle_frame JSON_parse JSON_stringify ToString).
Local Abbreviation loop := (data_loop JSON_parse JSON_stringify ToString).
Local Abbreviation data := (on_data JSON_parse JSON_stringify ToString).

Lemma on_join_rooms_kept cid ref parsed w w' :
  on_join JSON_stringify ToString cid ref parsed w = Ok w' -> rooms_kept w w'.
Proof.
  clear JSON_parse.
  unfold on_join. destruct (clients_get w cid) as [c |]; [ | discriminate ].
  cbv zeta. conversion. intros [= <-].
  eapply rooms_kept_trans;
    [ | apply writes_only_rooms_kept; eapply writes_only_trans;
        [ apply sendToClient_writes_only | apply broadcastRoom_writes_only ] ].
  match goal with
  | |- rooms_kept w (client_put _ _ (room_add ?k _ (ensure_room ?k ?x))) =>
    apply (rooms_kept_trans _ (ensure_room k x));
      [ apply (rooms_kept_trans _ x);
        [ apply rooms_kept_same_rooms; reflexivity | apply rooms_kept_ensure_room ]
      | apply (rooms_kept_trans _ (room_add k cid (ensure_room k x)));
        [ apply rooms_kept_room_add | apply rooms_kept_same_rooms; reflexivity ] ]
  end.
Qed.

Lemma on_leave_rooms_kept cid ref parsed w w' :
  on_leave JSON_stringify ToString cid ref parsed w = Ok w' -> rooms_kept w w'.
Proof.
  clear JSON_parse.
  unfold on_leave. cbv zeta.
  destruct (truthy (get parsed (lit "room")) && _);
    [ | intros [= <-]; apply rooms_kept_refl ].
  destruct (clients_get _ cid) as [c |]; [ | discriminate ].
  conversion. intros [= <-].
  eapply rooms_kept_trans;
    [ | apply writes_only_rooms_kept; eapply writes_only_trans;
        [ apply sendToClient_writes_only | apply broadcastRoom_writes_only ] ].
  eapply rooms_kept_trans;
    [ apply rooms_kept_room_delete | apply rooms_kept_same_rooms; reflexivity ].
Qed.

Lemma handle_rooms_kept cid data w w' :
  handle cid data w = Ok w' -> rooms_kept w w'.
Proof.
  unfold handleJsonMessage.
  destruct (JSON_parse data) as [parsed |].
  2:{ intros [= <-]. apply writes_only_rooms_kept, sendToClient_writes_only. }
  cbv zeta. destruct (is_nullish parsed); [ discriminate | ].
  set (w0 := set_heap w (Pos.succ (heap w))).
  assert (rooms_kept w w0) as K0 by (apply rooms_kept_same_rooms; reflexivity).
  intros H. apply (rooms_kept_trans _ _ _ K0). revert H.
  destruct (is_str (get parsed (lit "type")) (lit "join"));
    [ apply on_join_rooms_kept | ].
  destruct (is_str (get parsed (lit "type")) (lit "leave"));
    [ apply on_leave_rooms_kept | ].
  destruct (is_str (get parsed (lit "type")) (lit "msg")).
  { intros H. apply writes_only_rooms_kept, (on_msg_writes_only _ _ _ _ _ _ H). }
  destruct (is_str (get parsed (lit "type")) (lit "list")); intros [= <-];
    apply writes_only_rooms_kept, sendToClient_writes_only.
Qed.

Lemma cleanup_fold_rooms_kept cid c l :
  forall w, rooms_kept w (fold_left (cleanup_round JSON_stringify ToString cid c) l w).
Proof.
  clear JSON_parse.
  induction l as [| room l IH]; intros w; cbn [fold_left].
  - apply rooms_kept_refl.
  - eapply rooms_kept_trans; [ | apply IH ].
    unfold cleanup_round. destruct (rooms_get w room); [ | apply rooms_kept_refl ].
    eapply rooms_kept_trans;
      [ apply rooms_kept_room_delete
      | apply writes_only_rooms_kept, broadcastRoom_writes_only ].
Qed.

(** Also the rounds of a loop that a conversion ends early keep the rooms. *)
Lemma cleanup_rooms_rooms_kept cid c l :
  forall w, rooms_kept w (fst (cleanup_rooms JSON_stringify ToString cid c l w)).
Proof.
  clear JSON_parse.
  induction l as [| room l IH]; intros w; cbn [cleanup_rooms].
  - apply rooms_kept_refl.
  - destruct (rooms_get w room); [ | apply IH ].
    destruct (interpolate ToString (name c)) as [text |].
    + eapply rooms_kept_trans; [ | apply IH ].
      eapply rooms_kept_trans;
        [ apply rooms_kept_room_delete
        | apply writes_only_rooms_kept, broadcastRoom_writes_only ].
    + apply rooms_kept_room_delete.
Qed.

Lemma cleaned_up_rooms_kept cid w : rooms_kept w (cleaned cid w).
Proof.
  clear JSON_parse.
  unfold cleaned_up. destruct (clients_get w cid) as [c |];
    [ | apply rooms_kept_refl ].
  eapply rooms_kept_trans; [ apply cleanup_fold_rooms_kept | ].
  apply rooms_kept_same_rooms. reflexivity.
Qed.

Lemma handle_frame_rooms_kept cid sock f w r :
  frame_step cid sock f w = Ok r -> rooms_kept w (snd r).
Proof.
  unfold handle_frame.
  destruct (opcode f =? 8).
  { destruct (cleanup cid w) as [w1 |] eqn:E; [ | discriminate ].
    intros [= <-]. cbn [snd]. rewrite (cleanupClient_returns _ _ _ _ _ E).
    eapply rooms_kept_trans; [ apply cleaned_up_rooms_kept | ].
    apply rooms_kept_same_rooms. reflexivity. }
  destruct (opcode f =? 9).
  { intros [= <-]. apply writes_only_rooms_kept, socket_write_writes_only. }
  destruct (opcode f =? 10); [ intros [= <-]; apply rooms_kept_refl | ].
  destruct (opcode f =? 1); [ | intros [= <-]; apply rooms_kept_refl ].
  destruct (handle cid (payload f) w) as [w' |] eqn:E; [ | discriminate ].
  intros [= <-]. apply (handle_rooms_kept _ _ _ _ E).
Qed.

Lemma data_loop_rooms_kept cid sock fuel :
  forall w w', loop fuel cid sock w = Ok w' -> rooms_kept w w'.
Proof.
  induction fuel as [| fuel IH]; intros w w'; cbn [data_loop].
  - destruct (2 <? _); intros [= <-]; apply rooms_kept_refl.
  - destruct (2 <? _); [ | intros [= <-]; apply rooms_kept_refl ].
    destruct (parseFrame _) as [[f |] |]; cbn [bind];
      [ | intros [= <-]; apply rooms_kept_refl | discriminate ].
    destruct (frame_step cid sock f _) as [r |] eqn:Hr; [ | discriminate ].
    cbn [bind]. pose proof (handle_frame_rooms_kept _ _ _ _ _ Hr) as K.
    assert (rooms_kept w (snd r)) as K'.
    { eapply rooms_kept_trans; [ | exact K ].
      apply rooms_kept_same_rooms. reflexivity. }
    destruct (fst r).
    + intros H. apply (rooms_kept_trans _ _ _ K'), IH, H.
    + intros [= <-]. exact K'.
Qed.

(** X18. A room is never removed from the map: neither a message nor a cleanup
    nor a read takes a room away, also when its last member has left, and
    also in the state in which the loop of a cleanup stops, be it that the
    conversion of the name has raised. *)
Theorem rooms_are_never_removed w room :
  rooms_get w room <> None ->
  (forall cid data w', handle cid data w = Ok w' -> rooms_get w' room <> None) /\
  (forall cid w', cleanup cid w = Ok w' -> rooms_get w' room <> None) /\
  (forall cid c,
      rooms_get (fst (cleanup_rooms JSON_stringify ToString cid c (client_rooms c) w))
        room <> None) /\
  (forall cid sock buf w', data cid sock buf w = Ok w' -> rooms_get w' room <> None).
Proof.
  intros H. split; [ | split; [ | split ] ].
  - intros cid data w' E. apply (handle_rooms_kept _ _ _ _ E), H.
  - intros cid w' E. rewrite (cleanupClient_returns _ _ _ _ _ E).
    apply cleaned_up_rooms_kept, H.
  - intros cid c. apply cleanup_rooms_rooms_kept, H.
  - intros cid sock buf w' E. unfold on_data in E.
    apply (data_loop_rooms_kept _ _ _ _ _ E). exact H.
Qed.

End RoomsKeptFacts.

(** ** Joining and leaving *)

Lemma rooms_get_ensure_room_self k w :
  rooms_get (ensure_room k w) k = Some (members w k).
Proof.
  unfold ensure_room, members, map_has, rooms_get.
  destruct (map_get Key_eq_dec (rooms w) k) eqn:E; [ exact E | ].
  cbn [rooms set_rooms]. rewrite map_get_set.
  destruct (Key_eq_dec k k); congruence.
Qed.

Lemma map_set_same {K V} (eq_dec : forall a b : K, {a = b} + {a <> b})
    (m : list (K * V)) k v :
  map_get eq_dec m k = Some v -> map_set eq_dec m k v = m.
Proof.
  induction m as [| [k0 v0] m IH]; cbn [map_get map_set]; [ discriminate | ].
  destruct (eq_dec k k0) as [-> | ].
  - intros [= ->]. reflexivity.
  - intros H. rewrite IH by exact H. reflexivity.
Qed.

Section JoinLeaveFacts.
Variable JSON_parse : jsstring -> option JsVal.
Variable JSON_stringify : JsVal -> jsstring.
Variable ToString : JsVal -> jsstring.

Local Abbreviation send := (sendToClient JSON_stringify).
Local Abbreviation broadcast := (broadcastRoom JSON_stringify).
Local Abbreviation handle := (handleJsonMessage JSON_parse JSON_stringify ToString).
Local Abbreviation cleanup := (cleanupClient JSON_stringify ToString).
Local Abbreviation cleaned := (cleaned_up JSON_stringify ToString).
Local Abbreviation frame_of o := (buildTextFrame (JSON_stringify o)).

(** The two maps after a join. *)
Lemma on_join_maps cid ref parsed w c :
  clients_get w cid = Some c ->
  printable (name (joined_client cid ref parsed c)) = true ->
  exists w',
    on_join JSON_stringify ToString cid ref parsed w = Ok w' /\
    clients w' =
    map_set jsstring_eq_dec (clients w) cid (joined_client cid ref parsed c) /\
    rooms w' =
    map_set Key_eq_dec (rooms (ensure_room (join_room ref parsed) w))
      (join_room ref parsed)
      (set_add jsstring_eq_dec (members w (join_room ref parsed)) cid) /\
    sockets_kept w w'.
Proof.
  intros Hc Hp. unfold on_join. rewrite Hc. cbv zeta. fold (join_room ref parsed).
  converted Hp.
  eexists. split; [ reflexivity | ].
  match goal with
  | |- context [broadcast ?r ?o ?e (send ?k ?o' ?w0)] =>
    assert (writes_only w0 (broadcast r o e (send k o' w0))) as W
        by (eapply writes_only_trans;
            [ apply sendToClient_writes_only | apply broadcastRoom_writes_only ]);
    set (w3 := w0) in *
  end.
  destruct W as (Wc & Wr & _ & _ & Ws). rewrite Wc, Wr.
  split; [ | split ].
  - unfold w3. cbn [client_put set_clients clients].
    unfold room_add, ensure_room.
    destruct (map_has _ _ _); destruct (rooms_get _ _);
      cbn [set_rooms set_clients clients]; apply map_set_set.
  - unfold w3. cbn [client_put set_clients rooms].
    unfold room_add. rewrite rooms_get_ensure_room_self.
    cbn [set_rooms rooms]. unfold ensure_room, members, rooms_get, client_put.
    cbn [set_clients rooms].
    destruct (map_has Key_eq_dec (rooms w) (join_room ref parsed)); reflexivity.
  - intros s. rewrite !(proj1 (Ws s)), !(proj1 (proj2 (Ws s))), !(proj2 (proj2 (Ws s))).
    unfold w3, socket_get. cbn [client_put set_clients sockets].
    rewrite sockets_room_add, sockets_ensure_room. auto.
Qed.

Lemma join_room_primitive parsed r1 r2 :
  primitive (get parsed (lit "room")) = true ->
  join_room r1 parsed = join_room r2 parsed.
Proof.
  intros H. unfold join_room, js_or.
  destruct (truthy (get parsed (lit "room"))); [ | reflexivity ].
  apply to_key_primitive, H.
Qed.

(** X14. Joining is idempotent on the registry: the same join message handled
    a second time leaves both maps exactly as the first time left them (the
    notifications are sent again). The room is a string or another primitive,
    an object or an array being a new key with every message, and the names
    can be converted. *)
Theorem join_twice_is_join_once cid data parsed w c w1 :
  clients_get w cid = Some c ->
  JSON_parse data = Some parsed ->
  is_str (get parsed (lit "type")) (lit "join") = true ->
  primitive (get parsed (lit "room")) = true ->
  printable (get parsed (lit "name")) = true -> printable_name w cid ->
  handle cid data w = Ok w1 ->
  exists w2,
    handle cid data w1 = Ok w2 /\ clients w2 = clients w1 /\ rooms w2 = rooms w1.
Proof.
  intros Hc Hp Ht Hprim Hpn Hname H1.
  rewrite (handle_join _ _ _ _ _ _ _ Hp Ht) in H1.
  rewrite (handle_join _ _ _ _ _ _ _ Hp Ht).
  assert (clients_get (parsed_in w) cid = Some c) as Hc0 by exact Hc.
  pose proof (printable_joined_client cid (heap w) parsed c Hpn (Hname c Hc)) as Hj.
  destruct (on_join_maps cid (heap w) parsed _ c Hc0 Hj) as (w1' & E1 & Hcl1 & Hr1 & _).
  rewrite E1 in H1. injection H1 as ->.
  set (k := join_room (heap w) parsed) in *.
  set (jc := joined_client cid (heap w) parsed c) in *.
  assert (clients_get (parsed_in w1) cid = Some jc) as Hc1.
  { unfold clients_get. cbn [parsed_in set_heap clients]. rewrite Hcl1, map_get_set.
    destruct (jsstring_eq_dec cid cid); congruence. }
  destruct (on_join_maps cid (heap w1) parsed _ jc Hc1
              (printable_joined_client cid (heap w1) parsed jc Hpn Hj))
    as (w2 & E2 & Hcl2 & Hr2 & _).
  exists w2. split; [ exact E2 | ].
  assert (join_room (heap w1) parsed = k) as Hk by (apply join_room_primitive, Hprim).
  rewrite Hk in *.
  assert (rooms_get w1 k =
          Some (set_add jsstring_eq_dec (members (parsed_in w) k) cid)) as Hhas.
  { unfold rooms_get. rewrite Hr1, map_get_set.
    destruct (Key_eq_dec k k); congruence. }
  split.
  - rewrite Hcl2. cbn [parsed_in set_heap clients].
    apply map_set_same.
    replace (joined_client cid (heap w1) parsed jc) with jc; [ exact Hc1 | ].
    unfold jc, joined_client. cbn [socket client_rooms name].
    fold k. rewrite Hk, set_add_idem_key, js_or_idem. reflexivity.
  - rewrite Hr2. unfold ensure_room, map_has, members.
    change (rooms_get (parsed_in w1) k) with (rooms_get w1 k).
    change (map_get Key_eq_dec (rooms (parsed_in w1)) k) with (rooms_get w1 k).
    rewrite Hhas. change (rooms (parsed_in w1)) with (rooms w1).
    apply map_set_same. rewrite set_add_idem. exact Hhas.
Qed.

(** X15. A join followed by a leave of the same room undoes the membership:
    every room has the members of before and the client the rooms of before,
    and everyone else's record is untouched; but the room stays in the map.
    The names can be converted. *)
Theorem join_then_leave_restores_membership cid d1 d2 p1 p2 r w c w1 :
  clients_get w cid = Some c ->
  JSON_parse d1 = Some p1 ->
  is_str (get p1 (lit "type")) (lit "join") = true ->
  get p1 (lit "room") = VStr r ->
  JSON_parse d2 = Some p2 ->
  is_str (get p2 (lit "type")) (lit "leave") = true ->
  get p2 (lit "room") = VStr r ->
  r <> [] ->
  ~ In cid (members w (KStr r)) -> ~ In (KStr r) (client_rooms c) ->
  printable (get p1 (lit "name")) = true -> printable_name w cid ->
  handle cid d1 w = Ok w1 ->
  exists w2,
    handle cid d2 w1 = Ok w2 /\
    (forall room, members w2 room = members w room) /\
    (exists c2, clients_get w2 cid = Some c2 /\
                client_rooms c2 = client_rooms c /\ socket c2 = socket c) /\
    (forall id, id <> cid -> clients_get w2 id = clients_get w id) /\
    rooms_get w2 (KStr r) <> None.
Proof.
  intros Hc Hp1 Ht1 Hroom1 Hp2 Ht2 Hroom2 Hr Hnin Hnin' Hpn Hname H1.
  assert (truthy (VStr r) = true) as Htr by (destruct r; [ congruence | reflexivity ]).
  assert (forall ref, join_room ref p1 = KStr r) as Hk1
    by (intros ref; unfold join_room, js_or; rewrite Hroom1, Htr; reflexivity).
  assert (forall ref, leave_room ref p2 = KStr r) as Hk2
    by (intros ref; unfold leave_room; rewrite Hroom2; reflexivity).
  rewrite (handle_join _ _ _ _ _ _ _ Hp1 Ht1) in H1.
  rewrite (handle_leave _ _ _ _ _ _ _ Hp2 Ht2).
  assert (clients_get (parsed_in w) cid = Some c) as Hc0 by exact Hc.
  pose proof (printable_joined_client cid (heap w) p1 c Hpn (Hname c Hc)) as Hj.
  destruct (on_join_registry JSON_stringify ToString cid (heap w) p1 _ c Hc0 Hj)
    as (w1' & E1 & Hcl1 & Hmem1).
  destruct (on_join_maps cid (heap w) p1 _ c Hc0 Hj) as (w1'' & E1' & _ & Hr1 & _).
  rewrite E1 in H1, E1'. injection H1 as ->. injection E1' as <-.
  rewrite Hk1 in *.
  set (jc := joined_client cid (heap w) p1 c) in *.
  assert (clients_get (parsed_in w1) cid = Some jc) as Hc1.
  { change (clients_get w1 cid = Some jc). rewrite Hcl1.
    destruct (jsstring_eq_dec cid cid); congruence. }
  assert (rooms_get w1 (KStr r) <> None) as Hhas.
  { unfold rooms_get. rewrite Hr1, map_get_set.
    destruct (Key_eq_dec (KStr r) (KStr r)); congruence. }
  destruct (on_leave_registry JSON_stringify ToString cid (heap w1) p2 _ jc Hc1 Hj)
    as (w2 & E2 & [[Hno _] | (Hcl2 & Hmem2)]).
  { exfalso. rewrite Hroom2, Htr, Hk2 in Hno. cbn [andb] in Hno.
    unfold map_has in Hno. change (rooms (parsed_in w1)) with (rooms w1) in Hno.
    unfold rooms_get in Hhas.
    destruct (map_get Key_eq_dec (rooms w1) (KStr r)); congruence. }
  rewrite Hk2 in *.
  exists w2. split; [ exact E2 | ].
  split.
  { intros room. rewrite Hmem2.
    change (members (parsed_in w1) room) with (members w1 room).
    change (members (parsed_in w1) (KStr r)) with (members w1 (KStr r)).
    rewrite !Hmem1.
    change (members (parsed_in w) room) with (members w room).
    change (members (parsed_in w) (KStr r)) with (members w (KStr r)).
    destruct (Key_eq_dec (KStr r) (KStr r)); [ | congruence ].
    destruct (Key_eq_dec room (KStr r)) as [-> | ]; [ | reflexivity ].
    apply set_delete_set_add, Hnin. }
  split.
  { eexists. split.
    - rewrite Hcl2. destruct (jsstring_eq_dec cid cid); [ reflexivity | congruence ].
    - unfold left_client, jc, joined_client. cbn [client_rooms socket].
      rewrite Hk1, Hk2. split; [ | reflexivity ].
      apply set_delete_set_add, Hnin'. }
  split.
  { intros id Hne. rewrite Hcl2.
    destruct (jsstring_eq_dec id cid); [ contradiction | ].
    change (clients_get w1 id = clients_get w id). rewrite Hcl1.
    destruct (jsstring_eq_dec id cid); [ contradiction | reflexivity ]. }
  apply (on_leave_rooms_kept _ _ _ _ _ _ _ E2). exact Hhas.
Qed.

End JoinLeaveFacts.

(** ** What the dispatcher answers and when it raises *)

Lemma is_str_two_literals v s t : s <> t -> is_str v s = true -> is_str v t = false.
Proof.
  intros Hne H. apply is_str_true in H. subst v. cbn [is_str].
  destruct (jsstring_eq_dec s t); [ contradiction | reflexivity ].
Qed.

Section DispatcherFacts.
Variable JSON_parse : jsstring -> option JsVal.
Variable JSON_stringify : JsVal -> jsstring.
Variable ToString : JsVal -> jsstring.

Local Abbreviation send := (sendToClient JSON_stringify).
Local Abbreviation broadcast := (broadcastRoom JSON_stringify).
Local Abbreviation handle := (handleJsonMessage JSON_parse JSON_stringify ToString).
Local Abbreviation cleanup := (cleanupClient JSON_stringify ToString).
Local Abbreviation cleaned := (cleaned_up JSON_stringify ToString).
Local Abbreviation frame_of o := (buildTextFrame (JSON_stringify o)).

(** X11. With names that can be converted (the sender's and the one in the
    message), the dispatcher raises in these cases and no others, always a
    TypeError: the payload is the JSON text [null]; or the sender is not
    registered and the message is a join, or a leave of a room that exists. *)
Theorem dispatcher_raises_exactly_on cid data w e :
  printable_name w cid ->
  (forall parsed, JSON_parse data = Some parsed ->
                  printable (get parsed (lit "name")) = true) ->
  handle cid data w = Throw e <->
  e = TypeError /\
  exists parsed,
    JSON_parse data = Some parsed /\
    (is_nullish parsed = true \/
     clients_get w cid = None /\
     (is_str (get parsed (lit "type")) (lit "join") = true \/
      is_str (get parsed (lit "type")) (lit "leave") = true /\
      truthy (get parsed (lit "room")) = true /\
      rooms_get w (leave_room (heap w) parsed) <> None)).
Proof.
  intros Hname Hpn. split.
  - unfold handleJsonMessage.
    destruct (JSON_parse data) as [parsed |]; [ | discriminate ].
    specialize (Hpn parsed eq_refl).
    cbv zeta. destruct (is_nullish parsed) eqn:Hn.
    { intros [= <-]. split; [ reflexivity | ]. exists parsed. auto. }
    set (w0 := set_heap w (Pos.succ (heap w))).
    destruct (is_str (get parsed (lit "type")) (lit "join")) eqn:Hj.
    { unfold on_join. change (clients_get w0 cid) with (clients_get w cid).
      destruct (clients_get w cid) as [c |] eqn:Hc.
      { pose proof (printable_joined_client cid (heap w) parsed c Hpn (Hname c Hc))
          as Hp.
        cbv zeta. converted Hp. discriminate. }
      intros [= <-]. split; [ reflexivity | ]. exists parsed. auto. }
    destruct (is_str (get parsed (lit "type")) (lit "leave")) eqn:Hl.
    { unfold on_leave. cbv zeta. fold (leave_room (heap w) parsed).
      destruct (truthy (get parsed (lit "room"))) eqn:Hroom; [ | discriminate ].
      cbn [andb]. unfold map_has. change (rooms w0) with (rooms w).
      fold (rooms_get w (leave_room (heap w) parsed)).
      destruct (rooms_get w (leave_room (heap w) parsed)) eqn:Hhas; [ | discriminate ].
      rewrite clients_get_room_delete. change (clients_get w0 cid) with (clients_get w cid).
      destruct (clients_get w cid) as [c |] eqn:Hc.
      { pose proof (Hname c Hc) as Hp. converted Hp. discriminate. }
      intros [= <-]. split; [ reflexivity | ]. exists parsed.
      split; [ reflexivity | ]. right. split; [ reflexivity | ]. right.
      repeat split; congruence. }
    destruct (is_str (get parsed (lit "type")) (lit "msg")).
    { unfold on_msg. cbv zeta.
      destruct (truthy (get parsed (lit "to"))); [ discriminate | ].
      destruct (negb (truthy (get parsed (lit "room")))); discriminate. }
    destruct (is_str (get parsed (lit "type")) (lit "list")); discriminate.
  - intros (-> & parsed & Hp & H). unfold handleJsonMessage. rewrite Hp. cbv zeta.
    destruct H as [Hn | (Hc & H)]; [ rewrite Hn; reflexivity | ].
    destruct (is_nullish parsed) eqn:Hn; [ reflexivity | ].
    set (w0 := set_heap w (Pos.succ (heap w))).
    destruct H as [Hj | (Hl & Hroom & Hhas)].
    + rewrite Hj. unfold on_join. change (clients_get w0 cid) with (clients_get w cid).
      rewrite Hc. reflexivity.
    + rewrite (is_str_two_literals _ (lit "leave") (lit "join")) by (discriminate || exact Hl).
      rewrite Hl. unfold on_leave. cbv zeta. fold (leave_room (heap w) parsed).
      rewrite Hroom. cbn [andb]. unfold map_has. change (rooms w0) with (rooms w).
      fold (rooms_get w (leave_room (heap w) parsed)).
      destruct (rooms_get w (leave_room (heap w) parsed)); [ | congruence ].
      rewrite clients_get_room_delete. change (clients_get w0 cid) with (clients_get w cid).
      rewrite Hc. reflexivity.
Qed.

(** X12. A payload that is not JSON is answered with the error invalid_json,
    and a msg without addressee and without room with the error no_room: one
    frame to the sender if its socket takes writes, nothing to anybody else,
    and the registry and the state of every socket as before. *)
Theorem bad_requests_get_one_error_frame cid data w c :
  clients_get w cid = Some c ->
  let answered (message : string) (w' : World) :=
    clients w' = clients w /\ rooms w' = rooms w /\ sockets_kept w w' /\
    forall s, written (socket_get w' s) =
              written (socket_get w s) ++
              (if Nat.eqb (socket c) s && open_socket w s
               then [frame_of (error_obj message)] else []) in
  (JSON_parse data = None ->
   exists w', handle cid data w = Ok w' /\ answered "invalid_json" w') /\
  (forall parsed,
      JSON_parse data = Some parsed ->
      is_str (get parsed (lit "type")) (lit "msg") = true ->
      truthy (get parsed (lit "to")) = false ->
      truthy (get parsed (lit "room")) = false ->
      exists w', handle cid data w = Ok w' /\ answered "no_room" w').
Proof.
  intros Hc answered.
  assert (forall message w0,
             clients w0 = clients w -> rooms w0 = rooms w -> sockets w0 = sockets w ->
             answered message (send (KStr cid) (error_obj message) w0)) as Hsend.
  { intros message w0 E1 E2 E3.
    destruct (sendToClient_writes_only JSON_stringify (KStr cid) (error_obj message) w0)
      as (Wc & Wr & _ & _ & Ws).
    unfold answered. rewrite Wc, Wr. repeat split; try assumption.
    - rewrite (proj1 (Ws s)). unfold socket_get. rewrite E3. reflexivity.
    - rewrite (proj1 (proj2 (Ws s))). unfold socket_get. rewrite E3. reflexivity.
    - rewrite (proj2 (proj2 (Ws s))). unfold socket_get. rewrite E3. reflexivity.
    - intros s. rewrite written_sendToClient. cbn [clients_get_key].
      unfold clients_get, open_socket, socket_get. rewrite E1, E3.
      fold (clients_get w cid). rewrite Hc. reflexivity. }
  split.
  - intros Hp. unfold handleJsonMessage. rewrite Hp.
    eexists. split; [ reflexivity | ]. apply Hsend; reflexivity.
  - intros parsed Hp Ht Hto Hroom.
    rewrite (handle_msg _ _ _ _ _ _ _ Hp Ht). unfold on_msg. cbv zeta.
    rewrite Hto, Hroom. cbn [negb].
    eexists. split; [ reflexivity | ]. apply Hsend; reflexivity.
Qed.

(** X13. A leave that names no room, or a room that does not exist, is ignored
    without an answer: the registry and every socket, what was written on it
    included, stay as they are. *)
Theorem leave_of_unknown_room_is_silent cid data parsed w :
  JSON_parse data = Some parsed ->
  is_str (get parsed (lit "type")) (lit "leave") = true ->
  truthy (get parsed (lit "room")) = false \/
  rooms_get w (leave_room (heap w) parsed) = None ->
  exists w',
    handle cid data w = Ok w' /\
    clients w' = clients w /\ rooms w' = rooms w /\ sockets w' = sockets w.
Proof.
  intros Hp Ht H. rewrite (handle_leave _ _ _ _ _ _ _ Hp Ht).
  unfold on_leave. cbv zeta. fold (leave_room (heap w) parsed).
  replace (truthy (get parsed (lit "room")) &&
           map_has Key_eq_dec (rooms (parsed_in w)) (leave_room (heap w) parsed))
    with false.
  - exists (parsed_in w). repeat split.
  - symmetry. apply andb_false_iff.
    destruct H as [H | H]; [ left; exact H | right ].
    unfold map_has. change (rooms (parsed_in w)) with (rooms w).
    fold (rooms_get w (leave_room (heap w) parsed)). rewrite H. reflexivity.
Qed.

(** X16. A private message reaches its addressee and its sender and nobody
    else: what is written is one frame on the addressee's socket, if the
    addressee is a registered client whose socket takes writes, and then the
    echo on the sender's socket; every other socket gets nothing, and the
    registry is unchanged. The [from] field is the sender's id. *)
Theorem private_message_reaches_target_and_sender_only cid data parsed w :
  JSON_parse data = Some parsed ->
  is_str (get parsed (lit "type")) (lit "msg") = true ->
  truthy (get parsed (lit "to")) = true ->
  let toId := to_key (heap w) (get parsed (lit "to")) in
  let delivery := obj [("type", VStr (lit "msg")); ("from", VStr cid);
                       ("text", get parsed (lit "text")); ("private", VBool true)] in
  let echo := obj [("type", VStr (lit "msg")); ("from", VStr cid);
                   ("to", get parsed (lit "to"));
                   ("text", get parsed (lit "text")); ("private", VBool true)] in
  exists w',
    handle cid data w = Ok w' /\
    clients w' = clients w /\ rooms w' = rooms w /\ sockets_kept w w' /\
    forall s,
      written (socket_get w' s) =
      written (socket_get w s) ++
      match clients_get_key w toId with
      | Some t => if Nat.eqb (socket t) s && open_socket w s
                  then [frame_of delivery] else []
      | None => []
      end ++
      match clients_get w cid with
      | Some c => if Nat.eqb (socket c) s && open_socket w s
                  then [frame_of echo] else []
      | None => []
      end.
Proof.
  intros Hp Ht Hto toId delivery echo.
  rewrite (handle_msg _ _ _ _ _ _ _ Hp Ht). unfold on_msg. cbv zeta. rewrite Hto.
  fold toId delivery echo.
  set (w0 := parsed_in w). set (w1 := send toId delivery w0).
  assert (writes_only w0 w1) as W1 by apply sendToClient_writes_only.
  assert (writes_only w1 (send (KStr cid) echo w1)) as W2
    by apply sendToClient_writes_only.
  pose proof (writes_only_trans _ _ _ W1 W2) as (Wc & Wr & _ & _ & Ws).
  eexists. split; [ reflexivity | ].
  split; [ exact Wc | ]. split; [ exact Wr | ].
  split; [ exact Ws | ].
  intros s. rewrite written_sendToClient. unfold w1 at 1.
  rewrite written_sendToClient, <- app_assoc. cbn [clients_get_key].
  rewrite (writes_only_clients_get _ _ _ W1), (writes_only_open _ _ _ W1).
  reflexivity.
Qed.

End DispatcherFacts.

(** ** One client and the others *)

Lemma others_kept_same cid w w' :
  clients w' = clients w -> rooms w' = rooms w -> others_kept cid w w'.
Proof.
  intros Ec Er. unfold others_kept, clients_get, members, rooms_get. rewrite Ec, Er.
  split; [ | split ]; try tauto. intros c Hc. exists c. auto.
Qed.

Section IsolationFacts.
Variable JSON_parse : jsstring -> option JsVal.
Variable JSON_stringify : JsVal -> jsstring.
Variable ToString : JsVal -> jsstring.

Local Abbreviation handle := (handleJsonMessage JSON_parse JSON_stringify ToString).

(** X17. Whatever a client sends, the dispatcher changes no other client's
    record and no other client's memberships, and leaves the sender on its
    socket. *)
Theorem a_message_changes_only_its_senders_record cid data w w' :
  handle cid data w = Ok w' -> others_kept cid w w'.
Proof.
  unfold handleJsonMessage.
  destruct (JSON_parse data) as [parsed |].
  2:{ intros [= <-].
      destruct (sendToClient_writes_only JSON_stringify (KStr cid)
                  (error_obj "invalid_json") w) as (Ec & Er & _).
      apply others_kept_same; assumption. }
  cbv zeta. destruct (is_nullish parsed); [ discriminate | ].
  set (w0 := set_heap w (Pos.succ (heap w))).
  change (others_kept cid w w') with (others_kept cid w0 w').
  destruct (is_str (get parsed (lit "type")) (lit "join")).
  { intros H. destruct (clients_get w0 cid) as [c |] eqn:Hc;
      [ | unfold on_join in H; rewrite Hc in H; discriminate ].
    destruct (on_join_registry_of JSON_stringify ToString _ _ _ _ _ _ Hc H)
      as (Hcl & Hmem).
    split; [ | split ].
    - intros id Hne. rewrite Hcl.
      destruct (jsstring_eq_dec id cid); [ contradiction | reflexivity ].
    - intros c0 Hc0. eexists. split.
      + rewrite Hcl. destruct (jsstring_eq_dec cid cid); [ reflexivity | congruence ].
      + cbn [joined_client socket]. congruence.
    - intros room id Hne. rewrite Hmem.
      destruct (Key_eq_dec room _) as [-> | ]; [ | tauto ].
      rewrite In_set_add. tauto. }
  destruct (is_str (get parsed (lit "type")) (lit "leave")).
  { intros H. destruct (clients_get w0 cid) as [c |] eqn:Hc.
    - destruct (on_leave_registry_of JSON_stringify ToString _ _ _ _ _ _ Hc H)
        as [[_ ->] | (Hcl & Hmem)];
        [ apply others_kept_same; reflexivity | ].
      split; [ | split ].
      + intros id Hne. rewrite Hcl.
        destruct (jsstring_eq_dec id cid); [ contradiction | reflexivity ].
      + intros c0 Hc0. eexists. split.
        * rewrite Hcl. destruct (jsstring_eq_dec cid cid); [ reflexivity | congruence ].
        * cbn [left_client socket]. congruence.
      + intros room id Hne. rewrite Hmem.
        destruct (Key_eq_dec room _) as [-> | ]; [ | tauto ].
        rewrite In_set_delete. tauto.
    - revert H. unfold on_leave. cbv zeta.
      destruct (truthy (get parsed (lit "room")) && _).
      + rewrite clients_get_room_delete, Hc. discriminate.
      + intros [= <-]. apply others_kept_same; reflexivity. }
  destruct (is_str (get parsed (lit "type")) (lit "msg")).
  { intros H. destruct (on_msg_writes_only _ _ _ _ _ _ H) as (Ec & Er & _).
    apply others_kept_same; assumption. }
  destruct (is_str (get parsed (lit "type")) (lit "list")); intros [= <-];
    match goal with
    | |- others_kept _ _ (sendToClient ?j ?k ?o ?x) =>
      destruct (sendToClient_writes_only j k o x) as (Ec & Er & _)
    end;
    apply others_kept_same; assumption.
Qed.

End IsolationFacts.

(** ** Connecting *)

Lemma lit_inj s t : lit s = lit t -> s = t.
Proof.
  unfold lit. intros H.
  rewrite <- (string_of_list_ascii_of_string s), <- (string_of_list_ascii_of_string t).
  f_equal. revert H.
  generalize (list_ascii_of_string s) (list_ascii_of_string t).
  induction l as [| a l IH]; intros [| b l']; cbn [map]; try discriminate; trivial.
  intros [= Hab Hl]. f_equal; [ | apply IH, Hl ].
  apply N2Z.inj in Hab.
  rewrite <- (ascii_N_embedding a), <- (ascii_N_embedding b), Hab. reflexivity.
Qed.

Lemma decimal_inj a b : decimal a = decimal b -> a = b.
Proof.
  unfold decimal. intros H. apply lit_inj in H.
  apply DecimalZ.to_int_inj.
  assert (Some (Z.to_int a) = Some (Z.to_int b)) as E
    by (rewrite <- !NilEmpty.isi, H; reflexivity).
  congruence.
Qed.

Lemma to_double_exact_53 v : v <= 2 ^ 53 -> to_double v = v.
Proof.
  intros H. destruct (Z.eq_dec v (2 ^ 53)) as [-> | ]; [ reflexivity | ].
  apply to_double_small. lia.
Qed.

Lemma ids_kept_refl w : ids_kept w w.
Proof. split; auto. Qed.

Lemma ids_kept_trans w1 w2 w3 : ids_kept w1 w2 -> ids_kept w2 w3 -> ids_kept w1 w3.
Proof. intros [A1 A2] [B1 B2]. split; [ congruence | auto ]. Qed.

Lemma ids_kept_same w w' :
  nextId w' = nextId w -> clients w' = clients w -> ids_kept w w'.
Proof. intros E1 E2. split; [ exact E1 | ]. unfold clients_get. rewrite E2. trivial. Qed.

Lemma writes_only_ids_kept w w' : writes_only w w' -> ids_kept w w'.
Proof. intros (E1 & _ & E2 & _). apply ids_kept_same; assumption. Qed.

Lemma ids_kept_ids_below w w' : ids_kept w w' -> ids_below w -> ids_below w'.
Proof.
  intros [E K] H id Hid. rewrite E. apply H. intros Hn. apply Hid, K, Hn.
Qed.

Lemma ids_kept_client_put cid c w :
  clients_get w cid <> None -> ids_kept w (client_put cid c w).
Proof.
  intros Hreg. split; [ reflexivity | ].
  intros id Hid. rewrite clients_get_client_put.
  destruct (jsstring_eq_dec id cid); [ congruence | exact Hid ].
Qed.

Lemma ids_kept_room_add k cid w : ids_kept w (room_add k cid w).
Proof. unfold room_add. destruct (rooms_get w k); apply ids_kept_same; reflexivity. Qed.

Lemma ids_kept_room_delete k cid w : ids_kept w (room_delete k cid w).
Proof. unfold room_delete. destruct (rooms_get w k); apply ids_kept_same; reflexivity. Qed.

Lemma ids_kept_ensure_room k w : ids_kept w (ensure_room k w).
Proof.
  unfold ensure_room. destruct (map_has Key_eq_dec (rooms w) k);
    apply ids_kept_same; reflexivity.
Qed.

Section ConnectionFacts.
Variable JSON_parse : jsstring -> option JsVal.
Variable JSON_stringify : JsVal -> jsstring.
Variable ToString : JsVal -> jsstring.
Variable computeAccept : jsstring -> jsstring.

Local Abbreviation send := (sendToClient JSON_stringify).
Local Abbreviation broadcast := (broadcastRoom JSON_stringify).
Local Abbreviation handle := (handleJsonMessage JSON_parse JSON_stringify ToString).
Local Abbreviation cleanup := (cleanupClient JSON_stringify ToString).
Local Abbreviation cleaned := (cleaned_up JSON_stringify ToString).
Local Abbreviation frame_of o := (buildTextFrame (JSON_stringify o)).
Local Abbreviation frame_step := (handle_frame JSON_parse JSON_stringify ToString).
Local Abbreviation loop := (data_loop JSON_parse JSON_stringify ToString).
Local Abbreviation data := (on_data JSON_parse JSON_stringify ToString).
Local Abbreviation upgrade := (on_upgrade JSON_stringify computeAccept).

Lemma on_join_ids_kept cid ref parsed w w' :
  on_join JSON_stringify ToString cid ref parsed w = Ok w' -> ids_kept w w'.
Proof.
  clear JSON_parse computeAccept.
  intros H. destruct (clients_get w cid) as [c |] eqn:Hc;
    [ | unfold on_join in H; rewrite Hc in H; discriminate ].
  pose proof (on_join_returns JSON_stringify ToString _ _ _ _ _ _ Hc H) as Hp.
  destruct (on_join_maps JSON_stringify ToString cid ref parsed w c Hc Hp)
    as (w1 & E & Hcl & _).
  rewrite E in H. injection H as <-. split.
  - unfold on_join in E. rewrite Hc in E. cbv zeta in E.
    cbn [name] in E. cbn [joined_client name] in Hp.
    rewrite (interpolate_printable _ _ Hp) in E. cbn [bind] in E.
    injection E as <-.
    match goal with
    | |- nextId (broadcast ?r ?o ?e (send ?k ?o' ?w0)) = _ =>
      assert (writes_only w0 (broadcast r o e (send k o' w0))) as W
          by (eapply writes_only_trans;
              [ apply sendToClient_writes_only | apply broadcastRoom_writes_only ])
    end.
    destruct W as (_ & _ & -> & _).
    cbn [client_put set_clients nextId].
    unfold room_add, ensure_room.
    destruct (map_has _ _ _); destruct (rooms_get _ _); reflexivity.
  - intros id Hid. unfold clients_get in *. rewrite Hcl, map_get_set.
    destruct (jsstring_eq_dec id cid); [ congruence | exact Hid ].
Qed.

Lemma on_leave_ids_kept cid ref parsed w w' :
  on_leave JSON_stringify ToString cid ref parsed w = Ok w' -> ids_kept w w'.
Proof.
  clear JSON_parse computeAccept.
  unfold on_leave. cbv zeta.
  destruct (truthy (get parsed (lit "room")) && _);
    [ | intros [= <-]; apply ids_kept_refl ].
  destruct (clients_get _ cid) as [c |] eqn:Hc; [ | discriminate ].
  conversion. intros [= <-].
  eapply ids_kept_trans;
    [ | apply writes_only_ids_kept; eapply writes_only_trans;
        [ apply sendToClient_writes_only | apply broadcastRoom_writes_only ] ].
  eapply ids_kept_trans; [ apply ids_kept_room_delete | ].
  apply ids_kept_client_put. congruence.
Qed.

Lemma handle_ids_kept cid data w w' : handle cid data w = Ok w' -> ids_kept w w'.
Proof.
  clear computeAccept.
  unfold handleJsonMessage.
  destruct (JSON_parse data) as [parsed |].
  2:{ intros [= <-]. apply writes_only_ids_kept, sendToClient_writes_only. }
  cbv zeta. destruct (is_nullish parsed); [ discriminate | ].
  set (w0 := set_heap w (Pos.succ (heap w))).
  assert (ids_kept w w0) as K0 by (apply ids_kept_same; reflexivity).
  intros H. apply (ids_kept_trans _ _ _ K0). revert H.
  destruct (is_str (get parsed (lit "type")) (lit "join"));
    [ apply on_join_ids_kept | ].
  destruct (is_str (get parsed (lit "type")) (lit "leave"));
    [ apply on_leave_ids_kept | ].
  destruct (is_str (get parsed (lit "type")) (lit "msg")).
  { intros H. apply writes_only_ids_kept, (on_msg_writes_only _ _ _ _ _ _ H). }
  destruct (is_str (get parsed (lit "type")) (lit "list")); intros [= <-];
    apply writes_only_ids_kept, sendToClient_writes_only.
Qed.

Lemma cleanup_fold_ids_kept cid c l :
  forall w, ids_kept w (fold_left (cleanup_round JSON_stringify ToString cid c) l w).
Proof.
  clear JSON_parse computeAccept.
  induction l as [| room l IH]; intros w; cbn [fold_left].
  - apply ids_kept_refl.
  - eapply ids_kept_trans; [ | apply IH ].
    unfold cleanup_round. destruct (rooms_get w room); [ | apply ids_kept_refl ].
    eapply ids_kept_trans;
      [ apply ids_kept_room_delete
      | apply writes_only_ids_kept, broadcastRoom_writes_only ].
Qed.

(** Also the rounds of a loop that a conversion ends early. *)
Lemma cleanup_rooms_ids_kept cid c l :
  forall w, ids_kept w (fst (cleanup_rooms JSON_stringify ToString cid c l w)).
Proof.
  clear JSON_parse computeAccept.
  induction l as [| room l IH]; intros w; cbn [cleanup_rooms].
  - apply ids_kept_refl.
  - destruct (rooms_get w room); [ | apply IH ].
    destruct (interpolate ToString (name c)) as [text |].
    + eapply ids_kept_trans; [ | apply IH ].
      eapply ids_kept_trans;
        [ apply ids_kept_room_delete
        | apply writes_only_ids_kept, broadcastRoom_writes_only ].
    + apply ids_kept_room_delete.
Qed.

Lemma cleaned_up_ids_kept cid w : ids_kept w (cleaned cid w).
Proof.
  clear JSON_parse computeAccept.
  unfold cleaned_up. destruct (clients_get w cid) as [c |];
    [ | apply ids_kept_refl ].
  eapply ids_kept_trans; [ apply cleanup_fold_ids_kept | ].
  split; [ reflexivity | ].
  intros id Hid. unfold clients_get at 1.
  cbn [clients set_clients socket_destroy socket_put set_sockets].
  rewrite map_get_delete. destruct (jsstring_eq_dec id cid); [ reflexivity | exact Hid ].
Qed.

Lemma handle_frame_ids_kept cid sock f w r :
  frame_step cid sock f w = Ok r -> ids_kept w (snd r).
Proof.
  clear computeAccept.
  unfold handle_frame.
  destruct (opcode f =? 8).
  { destruct (cleanup cid w) as [w1 |] eqn:E; [ | discriminate ].
    intros [= <-]. cbn [snd]. rewrite (cleanupClient_returns _ _ _ _ _ E).
    eapply ids_kept_trans; [ apply cleaned_up_ids_kept | ].
    apply ids_kept_same; reflexivity. }
  destruct (opcode f =? 9).
  { intros [= <-]. apply writes_only_ids_kept, socket_write_writes_only. }
  destruct (opcode f =? 10); [ intros [= <-]; apply ids_kept_refl | ].
  destruct (opcode f =? 1); [ | intros [= <-]; apply ids_kept_refl ].
  destruct (handle cid (payload f) w) as [w' |] eqn:E; [ | discriminate ].
  intros [= <-]. apply (handle_ids_kept _ _ _ _ E).
Qed.

Lemma data_loop_ids_kept cid sock fuel :
  forall w w', loop fuel cid sock w = Ok w' -> ids_kept w w'.
Proof.
  clear computeAccept.
  induction fuel as [| fuel IH]; intros w w'; cbn [data_loop].
  - destruct (2 <? _); intros [= <-]; apply ids_kept_refl.
  - destruct (2 <? _); [ | intros [= <-]; apply ids_kept_refl ].
    destruct (parseFrame _) as [[f |] |]; cbn [bind];
      [ | intros [= <-]; apply ids_kept_refl | discriminate ].
    destruct (frame_step cid sock f _) as [r |] eqn:Hr; [ | discriminate ].
    cbn [bind]. pose proof (handle_frame_ids_kept _ _ _ _ _ Hr) as K.
    assert (ids_kept w (snd r)) as K'.
    { eapply ids_kept_trans; [ | exact K ]. apply ids_kept_same; reflexivity. }
    destruct (fst r).
    + intros H. apply (ids_kept_trans _ _ _ K'), IH, H.
    + intros [= <-]. exact K'.
Qed.

Lemma socket_get_set_recvBuffer sock b w s :
  destroyed (socket_get (set_recvBuffer sock b w) s) = destroyed (socket_get w s) /\
  ended (socket_get (set_recvBuffer sock b w) s) = ended (socket_get w s) /\
  written (socket_get (set_recvBuffer sock b w) s) = written (socket_get w s).
Proof.
  clear.
  unfold set_recvBuffer. rewrite socket_get_put.
  destruct (Nat.eq_dec s sock) as [-> | ]; auto.
Qed.

(** The upgrade handler on a key, spelled with the names above. *)
Lemma on_upgrade_some k0 key sock w :
  let w0 := socket_write sock (switching_protocols (computeAccept (k0 :: key))) w in
  let cid := lit "c" ++ decimal (nextId w0) in
  upgrade (Some (k0 :: key)) sock w =
  (Some cid,
   send (KStr cid) (welcome_obj cid)
     (set_recvBuffer sock []
        (client_put cid (new_client cid sock)
           (set_nextId w0 (js_add (nextId w0) 1))))).
Proof.
  clear JSON_parse ToString.
  unfold on_upgrade, switching_protocols, welcome_obj, new_client, genClientId.
  cbv beta iota zeta. reflexivity.
Qed.

(** A connection that is accepted. *)
Lemma on_upgrade_accepts key sock w :
  key <> [] ->
  let cid := lit "c" ++ decimal (nextId w) in
  exists w',
    upgrade (Some key) sock w = (Some cid, w') /\
    clients w' = map_set jsstring_eq_dec (clients w) cid (new_client cid sock) /\
    (forall id, clients_get w' id =
                if jsstring_eq_dec id cid then Some (new_client cid sock)
                else clients_get w id) /\
    rooms w' = rooms w /\
    nextId w' = js_add (nextId w) 1 /\
    (forall s,
        written (socket_get w' s) =
        written (socket_get w s) ++
        (if Nat.eqb sock s && open_socket w s
         then [switching_protocols (computeAccept key); frame_of (welcome_obj cid)]
         else [])) /\
    (forall s, destroyed (socket_get w' s) = destroyed (socket_get w s) /\
               ended (socket_get w' s) = ended (socket_get w s)) /\
    (forall s, recvBuffer (socket_get w' s) =
               if Nat.eq_dec s sock then [] else recvBuffer (socket_get w s)).
Proof.
  clear JSON_parse ToString.
  intros Hkey cid. destruct key as [| k0 key]; [ congruence | ].
  rewrite on_upgrade_some. cbv zeta.
  set (w0 := socket_write sock (switching_protocols (computeAccept (k0 :: key))) w).
  pose proof (socket_write_writes_only sock
                (switching_protocols (computeAccept (k0 :: key))) w) as W.
  fold w0 in W. destruct W as (Wc & Wr & Wn & _ & Ws).
  rewrite Wn. fold cid.
  set (w1 := set_recvBuffer sock []
               (client_put cid (new_client cid sock)
                  (set_nextId w0 (js_add (nextId w) 1)))).
  pose proof (sendToClient_writes_only JSON_stringify (KStr cid) (welcome_obj cid) w1)
    as (Sc & Sr & Sn & _ & Ss).
  assert (forall id, clients_get w1 id =
                     if jsstring_eq_dec id cid then Some (new_client cid sock)
                     else clients_get w id) as Hget.
  { intros id. unfold clients_get, w1.
    cbn [set_recvBuffer socket_put set_sockets client_put set_clients set_nextId clients].
    rewrite map_get_set, Wc. reflexivity. }
  assert (forall s, socket_get (client_put cid (new_client cid sock)
                                  (set_nextId w0 (js_add (nextId w) 1))) s =
                    socket_get w0 s) as Hsk by reflexivity.
  eexists. split; [ reflexivity | ].
  split.
  { rewrite Sc. unfold w1.
    cbn [set_recvBuffer socket_put set_sockets client_put set_clients set_nextId clients].
    rewrite Wc. reflexivity. }
  split.
  { intros id. unfold clients_get at 1. rewrite Sc. apply Hget. }
  split; [ rewrite Sr; exact Wr | ].
  split; [ rewrite Sn; reflexivity | ].
  split.
  { intros s. rewrite written_sendToClient. cbn [clients_get_key].
    rewrite Hget. destruct (jsstring_eq_dec cid cid); [ | congruence ].
    cbn [new_client socket].
    assert (open_socket w1 s = open_socket w s) as ->.
    { unfold open_socket, w1.
      destruct (socket_get_set_recvBuffer sock []
                  (client_put cid (new_client cid sock)
                     (set_nextId w0 (js_add (nextId w) 1))) s) as (-> & -> & _).
      rewrite Hsk. destruct (Ws s) as (-> & -> & _). reflexivity. }
    unfold w1 at 1.
    destruct (socket_get_set_recvBuffer sock []
                (client_put cid (new_client cid sock)
                   (set_nextId w0 (js_add (nextId w) 1))) s) as (_ & _ & ->).
    rewrite Hsk. unfold w0. rewrite written_socket_write, <- app_assoc.
    destruct (Nat.eqb sock s && open_socket w s); reflexivity. }
  split.
  { intros s. destruct (Ss s) as (-> & -> & _). unfold w1.
    destruct (socket_get_set_recvBuffer sock []
                (client_put cid (new_client cid sock)
                   (set_nextId w0 (js_add (nextId w) 1))) s) as (-> & -> & _).
    rewrite Hsk. destruct (Ws s) as (-> & -> & _). auto. }
  intros s. destruct (Ss s) as (_ & _ & ->). unfold w1.
  rewrite recvBuffer_set_recvBuffer.
  destruct (Nat.eq_dec s sock); [ reflexivity | ].
  rewrite Hsk. apply Ws.
Qed.

(** X19. Ids are never reused. As long as the ids in use are of the form c<k>
    with k below the counter, and the counter is below 2^53, an accepted
    connection gets an id that nobody has, the counter goes up by one, the
    same holds again and a consistent registry stays consistent; and messages,
    cleanups and reads keep the ids in use below the counter, a cleanup also
    where its loop stops on a name that cannot be converted. *)
Theorem client_ids_are_never_reused w :
  ids_below w -> 1 <= nextId w < 2 ^ 53 ->
  (forall key sock,
      key <> [] ->
      let cid := lit "c" ++ decimal (nextId w) in
      let w' := snd (upgrade (Some key) sock w) in
      fst (upgrade (Some key) sock w) = Some cid /\
      clients_get w cid = None /\ clients_get w' cid <> None /\
      nextId w' = nextId w + 1 /\ ids_below w' /\
      (consistent w -> consistent w')) /\
  (forall cid data w', handle cid data w = Ok w' -> ids_below w') /\
  (forall cid w', cleanup cid w = Ok w' -> ids_below w') /\
  (forall cid c,
      ids_below (fst (cleanup_rooms JSON_stringify ToString cid c (client_rooms c) w))) /\
  (forall cid sock buf w', data cid sock buf w = Ok w' -> ids_below w').
Proof.
  intros Hids Hn. split; [ | split; [ | split; [ | split ] ] ].
  - intros key sock Hkey cid w'.
    assert (clients_get w cid = None) as Hfresh.
    { destruct (clients_get w cid) eqn:E; [ | reflexivity ].
      destruct (Hids cid) as (k & Hk & Heq); [ congruence | ].
      apply app_inv_head, decimal_inj in Heq. lia. }
    assert (consistent w -> consistent w') as Hcons.
    { intros C. apply on_upgrade_consistent; assumption. }
    destruct (on_upgrade_accepts key sock w Hkey) as (w2 & E & _ & Hget & _ & Hnext & _).
    fold cid in E, Hget. unfold w' in *. rewrite E in *. cbn [fst snd] in *.
    unfold js_add in Hnext. rewrite to_double_exact_53 in Hnext by lia.
    split; [ reflexivity | ]. split; [ exact Hfresh | ].
    split; [ rewrite Hget; destruct (jsstring_eq_dec cid cid); congruence | ].
    split; [ exact Hnext | ]. split; [ | exact Hcons ].
    intros id Hid. rewrite Hnext. rewrite Hget in Hid.
    destruct (jsstring_eq_dec id cid) as [-> | ].
    + exists (nextId w). split; [ lia | reflexivity ].
    + destruct (Hids id Hid) as (k & Hk & Heq). exists k. split; [ lia | exact Heq ].
  - intros cid data w' E. apply (ids_kept_ids_below w); [ | exact Hids ].
    apply (handle_ids_kept _ _ _ _ E).
  - intros cid w' E. apply (ids_kept_ids_below w); [ | exact Hids ].
    rewrite (cleanupClient_returns _ _ _ _ _ E). apply cleaned_up_ids_kept.
  - intros cid c. apply (ids_kept_ids_below w); [ | exact Hids ].
    apply cleanup_rooms_ids_kept.
  - intros cid sock buf w' E. apply (ids_kept_ids_below w); [ | exact Hids ].
    unfold on_data in E.
    eapply ids_kept_trans; [ | apply (data_loop_ids_kept _ _ _ _ _ E) ].
    apply ids_kept_same; reflexivity.
Qed.

(** X20. An upgrade request with a key is accepted: the client is registered
    under the next id, on this socket, in no room and named by its id; nobody
    else's record and no room changes; on an open socket the handshake
    response with the accept token of the key is written, and after it the
    welcome frame, on no other socket anything; and the receive buffer starts
    empty. *)
Theorem upgrade_registers_and_welcomes key sock w :
  key <> [] ->
  let cid := lit "c" ++ decimal (nextId w) in
  let w' := snd (upgrade (Some key) sock w) in
  fst (upgrade (Some key) sock w) = Some cid /\
  clients_get w' cid = Some (new_client cid sock) /\
  (forall id, id <> cid -> clients_get w' id = clients_get w id) /\
  rooms w' = rooms w /\
  (open_socket w sock = true ->
   written (socket_get w' sock) =
   written (socket_get w sock) ++
   [switching_protocols (computeAccept key); frame_of (welcome_obj cid)]) /\
  (forall s, s <> sock -> written (socket_get w' s) = written (socket_get w s)) /\
  recvBuffer (socket_get w' sock) = [].
Proof.
  intros Hkey cid w'.
  destruct (on_upgrade_accepts key sock w Hkey)
    as (w2 & E & _ & Hget & Hrooms & _ & Hwr & _ & Hrecv).
  fold cid in E, Hget, Hwr. unfold w'. rewrite E. cbn [fst snd].
  split; [ reflexivity | ].
  split; [ rewrite Hget; destruct (jsstring_eq_dec cid cid); congruence | ].
  split.
  { intros id Hne. rewrite Hget.
    destruct (jsstring_eq_dec id cid); [ contradiction | reflexivity ]. }
  split; [ exact Hrooms | ].
  split.
  { intros Hopen. rewrite Hwr, Nat.eqb_refl, Hopen. reflexivity. }
  split.
  { intros s Hne. rewrite Hwr.
    destruct (Nat.eqb_spec sock s); [ congruence | ]. apply app_nil_r. }
  rewrite Hrecv. destruct (Nat.eq_dec sock sock); congruence.
Qed.

(** X21. An upgrade request without a key, or with an empty one, is refused:
    the answer is 400 Bad Request, the socket is destroyed, nobody is
    registered, the counter is not advanced and no other socket is touched. *)
Theorem upgrade_without_key_is_refused key sock w :
  key = None \/ key = Some [] ->
  let w' := snd (upgrade key sock w) in
  fst (upgrade key sock w) = None /\
  clients w' = clients w /\ rooms w' = rooms w /\ nextId w' = nextId w /\
  destroyed (socket_get w' sock) = true /\
  written (socket_get w' sock) =
  written (socket_get w sock) ++ (if open_socket w sock then [bad_request] else []) /\
  (forall s, s <> sock -> socket_get w' s = socket_get w s).
Proof.
  clear JSON_parse ToString.
  intros Hkey w'.
  assert (upgrade key sock w = (None, socket_destroy sock (socket_write sock bad_request w)))
    as E by (destruct Hkey as [-> | ->]; unfold on_upgrade, bad_request; reflexivity).
  unfold w'. rewrite E. cbn [fst snd].
  pose proof (socket_write_writes_only sock bad_request w) as (Wc & Wr & Wn & _).
  split; [ reflexivity | ].
  split; [ exact Wc | ]. split; [ exact Wr | ]. split; [ exact Wn | ].
  destruct (socket_get_socket_destroy sock (socket_write sock bad_request w) sock)
    as (Hw & _ & _ & Hd).
  split; [ rewrite Hd, Nat.eqb_refl; reflexivity | ].
  split.
  { rewrite Hw, written_socket_write, Nat.eqb_refl. reflexivity. }
  intros s Hne. unfold socket_destroy. rewrite socket_get_put.
  destruct (Nat.eq_dec s sock); [ contradiction | ].
  unfold socket_write.
  destruct (destroyed (socket_get w sock) || ended (socket_get w sock)); [ reflexivity | ].
  rewrite socket_get_put. destruct (Nat.eq_dec s sock); [ contradiction | reflexivity ].
Qed.

End ConnectionFacts.

(** ** Counting the clients *)

Lemma keys_map_set_present {K V} (eq_dec : forall a b : K, {a = b} + {a <> b})
    (m : list (K * V)) k v :
  map_get eq_dec m k <> None -> map fst (map_set eq_dec m k v) = map fst m.
Proof.
  induction m as [| [k0 v0] m IH]; cbn [map_get map_set map fst]; [ congruence | ].
  destruct (eq_dec k k0) as [-> | ]; [ reflexivity | ].
  intros H. cbn [map fst]. rewrite IH by exact H. reflexivity.
Qed.

Lemma keys_map_set_absent {K V} (eq_dec : forall a b : K, {a = b} + {a <> b})
    (m : list (K * V)) k v :
  map_get eq_dec m k = None -> map fst (map_set eq_dec m k v) = map fst m ++ [k].
Proof.
  induction m as [| [k0 v0] m IH]; cbn [map_get map_set map fst app]; [ reflexivity | ].
  destruct (eq_dec k k0) as [-> | ]; [ discriminate | ].
  intros H. cbn [map fst]. rewrite IH by exact H. reflexivity.
Qed.

Lemma map_get_In_keys {K V} (eq_dec : forall a b : K, {a = b} + {a <> b})
    (m : list (K * V)) k :
  map_get eq_dec m k <> None <-> In k (map fst m).
Proof.
  induction m as [| [k0 v0] m IH]; cbn [map_get map fst In]; [ tauto | ].
  destruct (eq_dec k k0) as [-> | ]; [ split; [ auto | discriminate ] | ].
  rewrite IH. split; [ auto | intros [H | H]; [ congruence | exact H ] ].
Qed.

Lemma length_map_delete {K V} (eq_dec : forall a b : K, {a = b} + {a <> b})
    (m : list (K * V)) k :
  NoDup (map fst m) -> map_get eq_dec m k <> None ->
  S (length (map_delete eq_dec m k)) = length m.
Proof.
  unfold map_delete.
  induction m as [| [k0 v0] m IH]; cbn [map_get map fst filter length];
    [ congruence | ].
  intros Hnd Hk. inversion Hnd as [| ? ? Hnin Hnd']; subst.
  destruct (eq_dec k k0) as [-> | Hne].
  - f_equal. clear IH Hk Hnd Hnd'.
    induction m as [| [k1 v1] m IH]; cbn [filter length map fst] in *; [ reflexivity | ].
    destruct (eq_dec k0 k1) as [-> | ]; [ exfalso; apply Hnin; left; reflexivity | ].
    cbn [length]. f_equal. apply IH. intros H. apply Hnin. right. exact H.
  - cbn [length]. f_equal. apply IH; assumption.
Qed.

Lemma keys_map_delete {K V} (eq_dec : forall a b : K, {a = b} + {a <> b})
    (m : list (K * V)) k :
  map fst (map_delete eq_dec m k) =
  filter (fun x => if eq_dec k x then false else true) (map fst m).
Proof.
  unfold map_delete.
  induction m as [| [k0 v0] m IH]; cbn [map fst filter]; [ reflexivity | ].
  destruct (eq_dec k k0); cbn [map fst]; rewrite IH; reflexivity.
Qed.

Lemma keys_kept_refl w : keys_kept w w.
Proof. reflexivity. Qed.

Lemma keys_kept_trans w1 w2 w3 : keys_kept w1 w2 -> keys_kept w2 w3 -> keys_kept w1 w3.
Proof. unfold keys_kept. congruence. Qed.

Lemma keys_kept_same w w' : clients w' = clients w -> keys_kept w w'.
Proof. unfold keys_kept. intros ->. reflexivity. Qed.

Lemma writes_only_keys_kept w w' : writes_only w w' -> keys_kept w w'.
Proof. intros (E & _). apply keys_kept_same, E. Qed.

Lemma keys_kept_client_put cid c w :
  clients_get w cid <> None -> keys_kept w (client_put cid c w).
Proof. intros H. apply keys_map_set_present, H. Qed.

Lemma keys_kept_room_delete k cid w : keys_kept w (room_delete k cid w).
Proof. unfold room_delete. destruct (rooms_get w k); reflexivity. Qed.

Section StatusFacts.
Variable JSON_parse : jsstring -> option JsVal.
Variable JSON_stringify : JsVal -> jsstring.
Variable ToString : JsVal -> jsstring.
Variable computeAccept : jsstring -> jsstring.

Local Abbreviation send := (sendToClient JSON_stringify).
Local Abbreviation broadcast := (broadcastRoom JSON_stringify).
Local Abbreviation handle := (handleJsonMessage JSON_parse JSON_stringify ToString).
Local Abbreviation cleanup := (cleanupClient JSON_stringify ToString).
Local Abbreviation cleaned := (cleaned_up JSON_stringify ToString).
Local Abbreviation upgrade := (on_upgrade JSON_stringify computeAccept).
Local Abbreviation request := (on_request JSON_stringify).

Lemma handle_keys_kept cid data w w' : handle cid data w = Ok w' -> keys_kept w w'.
Proof.
  clear computeAccept.
  unfold handleJsonMessage.
  destruct (JSON_parse data) as [parsed |].
  2:{ intros [= <-]. apply writes_only_keys_kept, sendToClient_writes_only. }
  cbv zeta. destruct (is_nullish parsed); [ discriminate | ].
  set (w0 := set_heap w (Pos.succ (heap w))).
  change (keys_kept w w') with (keys_kept w0 w').
  destruct (is_str (get parsed (lit "type")) (lit "join")).
  { intros H. destruct (clients_get w0 cid) as [c |] eqn:Hc;
      [ | unfold on_join in H; rewrite Hc in H; discriminate ].
    destruct (on_join_maps JSON_stringify ToString cid (heap w) parsed w0 c Hc
                (on_join_returns JSON_stringify ToString _ _ _ _ _ _ Hc H))
      as (w1 & E & Hcl & _).
    rewrite E in H. injection H as <-. unfold keys_kept. rewrite Hcl.
    apply keys_map_set_present. unfold clients_get in Hc. congruence. }
  destruct (is_str (get parsed (lit "type")) (lit "leave")).
  { unfold on_leave. cbv zeta.
    destruct (truthy (get parsed (lit "room")) && _);
      [ | intros [= <-]; apply keys_kept_refl ].
    destruct (clients_get _ cid) as [c |] eqn:Hc; [ | discriminate ].
    conversion. intros [= <-].
    eapply keys_kept_trans;
      [ | apply writes_only_keys_kept; eapply writes_only_trans;
          [ apply sendToClient_writes_only | apply broadcastRoom_writes_only ] ].
    eapply keys_kept_trans; [ apply keys_kept_room_delete | ].
    apply keys_kept_client_put. congruence. }
  destruct (is_str (get parsed (lit "type")) (lit "msg")).
  { intros H. apply writes_only_keys_kept, (on_msg_writes_only _ _ _ _ _ _ H). }
  destruct (is_str (get parsed (lit "type")) (lit "list")); intros [= <-];
    apply writes_only_keys_kept, sendToClient_writes_only.
Qed.

Lemma cleanup_fold_keys_kept cid c l :
  forall w, keys_kept w (fold_left (cleanup_round JSON_stringify ToString cid c) l w).
Proof.
  clear JSON_parse computeAccept.
  induction l as [| room l IH]; intros w; cbn [fold_left].
  - apply keys_kept_refl.
  - eapply keys_kept_trans; [ | apply IH ].
    unfold cleanup_round. destruct (rooms_get w room); [ | apply keys_kept_refl ].
    eapply keys_kept_trans;
      [ apply keys_kept_room_delete
      | apply writes_only_keys_kept, broadcastRoom_writes_only ].
Qed.

(** X22. The status page reports the number of registered clients: the answer
    to the URL [/status], and to no other, is the JSON of an object with [ok:
    true] and [clients] the size of the client map; every other URL gets the
    plain-text line. The number goes up by one with an accepted connection,
    down by one with the cleanup of a registered client (whose name can be
    converted), and is left alone by messages. *)
Theorem status_counts_the_registered_clients w :
  NoDup (map fst (clients w)) ->
  let count w := number (length (clients w)) in
  (forall url,
      request url w =
      if jsstring_eq_dec url (lit "/status") then
        {| statusCode := 200; contentType := lit "application/json";
           body := JSON_stringify (obj [("ok", VBool true); ("clients", count w)]) |}
      else
        {| statusCode := 200; contentType := lit "text/plain";
           body := lit "This is a minimal WebSocket relay server." ++ [10] |}) /\
  (forall key sock,
      key <> [] -> clients_get w (fst (genClientId w)) = None ->
      let w' := snd (upgrade (Some key) sock w) in
      count w' = number (S (length (clients w))) /\ NoDup (map fst (clients w'))) /\
  (forall cid data w',
      handle cid data w = Ok w' ->
      count w' = count w /\ NoDup (map fst (clients w'))) /\
  (forall cid,
      clients_get w cid <> None -> printable_name w cid ->
      exists w',
        cleanup cid w = Ok w' /\
        number (S (length (clients w'))) = count w /\
        NoDup (map fst (clients w'))).
Proof.
  intros Hnd count. split; [ reflexivity | ]. split; [ | split ].
  - intros key sock Hkey Hfresh w'.
    destruct (on_upgrade_accepts JSON_stringify computeAccept key sock w Hkey)
      as (w2 & E & Hcl & _).
    unfold w'. rewrite E. cbn [snd]. unfold count.
    assert (map fst (clients w2) = map fst (clients w) ++ [fst (genClientId w)]) as Hk.
    { rewrite Hcl. apply keys_map_set_absent. exact Hfresh. }
    split.
    + rewrite <- (length_map fst (clients w2)), Hk, length_app, length_map.
      cbn [length]. f_equal. f_equal. lia.
    + rewrite Hk. apply NoDup_app; [ exact Hnd | repeat constructor; intros [] | ].
      intros x Hx [<- | []]. apply (map_get_In_keys jsstring_eq_dec) in Hx.
      exact (Hx Hfresh).
  - intros cid data w' E. pose proof (handle_keys_kept _ _ _ _ E) as K.
    unfold keys_kept in K. split.
    + unfold count. rewrite <- (length_map fst (clients w')), K, length_map. reflexivity.
    + rewrite K. exact Hnd.
  - intros cid Hreg Hname. exists (cleaned cid w).
    split; [ apply cleanupClient_printable, Hname | ]. unfold cleaned_up.
    destruct (clients_get w cid) as [c |] eqn:Hc; [ | congruence ].
    cbn [set_clients clients socket_destroy socket_put set_sockets].
    pose proof (cleanup_fold_keys_kept cid c (client_rooms c) w) as K.
    unfold keys_kept in K.
    set (m := clients (fold_left (cleanup_round JSON_stringify ToString cid c)
                         (client_rooms c) w)) in *.
    assert (map_get jsstring_eq_dec m cid <> None) as Hin.
    { apply map_get_In_keys. rewrite K. apply (map_get_In_keys jsstring_eq_dec).
      unfold clients_get in Hc. congruence. }
    split.
    + unfold count. rewrite length_map_delete; [ | rewrite K; exact Hnd | exact Hin ].
      rewrite <- (length_map fst m), K, length_map. reflexivity.
    + rewrite keys_map_delete, K. apply NoDup_filter, Hnd.
Qed.

End StatusFacts.

(** ** Names that can be converted *)

Lemma names_printable_same w w' :
  (forall id, clients_get w' id = clients_get w id) ->
  names_printable w -> names_printable w'.
Proof. intros H P id c Hc. rewrite H in Hc. exact (P id c Hc). Qed.

Section NamesFacts.
Variable JSON_parse : jsstring -> option JsVal.
Variable JSON_stringify : JsVal -> jsstring.
Variable ToString : JsVal -> jsstring.
Variable computeAccept : jsstring -> jsstring.

Local Abbreviation handle := (handleJsonMessage JSON_parse JSON_stringify ToString).
Local Abbreviation cleanup := (cleanupClient JSON_stringify ToString).
Local Abbreviation cleaned := (cleaned_up JSON_stringify ToString).
Local Abbreviation frame_step := (handle_frame JSON_parse JSON_stringify ToString).
Local Abbreviation loop := (data_loop JSON_parse JSON_stringify ToString).
Local Abbreviation data := (on_data JSON_parse JSON_stringify ToString).
Local Abbreviation upgrade := (on_upgrade JSON_stringify computeAccept).

(** A join that returns has converted the name it set; nothing else sets a
    name. *)
Lemma handle_names_printable cid data w w' :
  names_printable w -> handle cid data w = Ok w' -> names_printable w'.
Proof.
  clear computeAccept.
  intros P. unfold handleJsonMessage.
  destruct (JSON_parse data) as [parsed |].
  2:{ intros [= <-]. apply (names_printable_same w); [ | exact P ].
      intros id. apply writes_only_clients_get, sendToClient_writes_only. }
  cbv zeta. destruct (is_nullish parsed); [ discriminate | ].
  set (w0 := set_heap w (Pos.succ (heap w))).
  assert (names_printable w0) as P0 by exact P.
  destruct (is_str (get parsed (lit "type")) (lit "join")).
  { intros H. destruct (clients_get w0 cid) as [c |] eqn:Hc;
      [ | unfold on_join in H; rewrite Hc in H; discriminate ].
    destruct (on_join_registry_of JSON_stringify ToString _ _ _ _ _ _ Hc H)
      as (Hcl & _).
    intros id c0. rewrite Hcl. destruct (jsstring_eq_dec id cid).
    - intros [= <-].
      apply (on_join_returns JSON_stringify ToString _ _ _ _ _ _ Hc H).
    - apply P0. }
  destruct (is_str (get parsed (lit "type")) (lit "leave")).
  { intros H. destruct (clients_get w0 cid) as [c |] eqn:Hc.
    - destruct (on_leave_registry_of JSON_stringify ToString _ _ _ _ _ _ Hc H)
        as [[_ ->] | (Hcl & _)]; [ exact P0 | ].
      intros id c0. rewrite Hcl. destruct (jsstring_eq_dec id cid).
      + intros [= <-]. cbn [left_client name]. apply (P0 cid c Hc).
      + apply P0.
    - revert H. unfold on_leave. cbv zeta.
      destruct (truthy (get parsed (lit "room")) && _).
      + rewrite clients_get_room_delete, Hc. discriminate.
      + intros [= <-]. exact P0. }
  destruct (is_str (get parsed (lit "type")) (lit "msg")).
  { intros H. apply (names_printable_same w0); [ | exact P0 ].
    intros id. apply writes_only_clients_get, (on_msg_writes_only _ _ _ _ _ _ H). }
  destruct (is_str (get parsed (lit "type")) (lit "list")); intros [= <-];
    (apply (names_printable_same w0); [ | exact P0 ]);
    intros id; apply writes_only_clients_get, sendToClient_writes_only.
Qed.

Lemma cleaned_up_names_printable cid w :
  names_printable w -> names_printable (cleaned cid w).
Proof.
  clear JSON_parse computeAccept.
  intros P id c0. destruct (clients_get w cid) as [c |] eqn:Hc.
  - destruct (cleaned_up_registry JSON_stringify ToString cid w c Hc) as [H _].
    rewrite H. destruct (jsstring_eq_dec id cid); [ discriminate | apply P ].
  - rewrite cleaned_up_unregistered by assumption. apply P.
Qed.

Lemma handle_frame_names_printable cid sock f w r :
  names_printable w -> frame_step cid sock f w = Ok r -> names_printable (snd r).
Proof.
  clear computeAccept.
  intros P. unfold handle_frame.
  destruct (opcode f =? 8).
  { destruct (cleanup cid w) as [w1 |] eqn:E; [ | discriminate ].
    intros [= <-]. cbn [snd]. rewrite (cleanupClient_returns _ _ _ _ _ E).
    apply (names_printable_same (cleaned cid w)); [ reflexivity | ].
    apply cleaned_up_names_printable, P. }
  destruct (opcode f =? 9).
  { intros [= <-]. apply (names_printable_same w); [ | exact P ].
    intros id. apply writes_only_clients_get, socket_write_writes_only. }
  destruct (opcode f =? 10); [ intros [= <-]; exact P | ].
  destruct (opcode f =? 1); [ | intros [= <-]; exact P ].
  destruct (handle cid (payload f) w) as [w' |] eqn:E; [ | discriminate ].
  intros [= <-]. apply (handle_names_printable _ _ _ _ P E).
Qed.

Lemma data_loop_names_printable cid sock fuel :
  forall w w',
    names_printable w -> loop fuel cid sock w = Ok w' -> names_printable w'.
Proof.
  clear computeAccept.
  induction fuel as [| fuel IH]; intros w w' P; cbn [data_loop].
  - destruct (2 <? _); intros [= <-]; exact P.
  - destruct (2 <? _); [ | intros [= <-]; exact P ].
    destruct (parseFrame _) as [[f |] |]; cbn [bind];
      [ | intros [= <-]; exact P | discriminate ].
    destruct (frame_step cid sock f _) as [r |] eqn:Hr; [ | discriminate ].
    cbn [bind].
    assert (names_printable (snd r)) as P'.
    { refine (handle_frame_names_printable _ _ _ _ _ _ Hr).
      apply (names_printable_same w); [ reflexivity | exact P ]. }
    destruct (fst r).
    + apply IH, P'.
    + intros [= <-]. exact P'.
Qed.

Lemma on_upgrade_names_printable key sock w :
  names_printable w -> names_printable (snd (upgrade key sock w)).
Proof.
  clear JSON_parse ToString.
  intros P. destruct key as [[| k0 key] |].
  - apply (names_printable_same w); [ | exact P ]. intros id.
    unfold on_upgrade. cbn [snd].
    unfold clients_get, socket_destroy, socket_put, socket_write.
    destruct (destroyed _ || ended _); reflexivity.
  - destruct (on_upgrade_accepts JSON_stringify computeAccept (k0 :: key) sock w
                ltac:(discriminate)) as (w' & E & _ & Hget & _).
    match goal with
    | |- names_printable (snd ?t) =>
      assert (snd t = w') as -> by exact (f_equal snd E)
    end.
    intros id c. rewrite Hget.
    destruct (jsstring_eq_dec id _); [ intros [= <-]; reflexivity | apply P ].
  - apply (names_printable_same w); [ | exact P ]. intros id.
    unfold on_upgrade. cbn [snd].
    unfold clients_get, socket_destroy, socket_put, socket_write.
    destruct (destroyed _ || ended _); reflexivity.
Qed.

(** X24. Names stay convertible. From a state in which every registered
    client has a name that a template literal can convert, as in the initial
    state, every connection, every message that is handled without an
    exception and every read that returns lead to such a state again, a join
    that returns having converted the name it set; and in such a state the
    cleanup of any id returns, into such a state. *)
Theorem names_stay_printable w :
  names_printable w ->
  (forall key sock, names_printable (snd (upgrade key sock w))) /\
  (forall cid data w', handle cid data w = Ok w' -> names_printable w') /\
  (forall cid, exists w', cleanup cid w = Ok w' /\ names_printable w') /\
  (forall cid sock buf w', data cid sock buf w = Ok w' -> names_printable w') /\
  names_printable initial.
Proof.
  intros P. split; [ | split; [ | split; [ | split ] ] ].
  - intros key sock. apply on_upgrade_names_printable, P.
  - intros cid data w'. apply handle_names_printable, P.
  - intros cid. exists (cleaned cid w).
    split; [ apply cleanupClient_printable, P | apply cleaned_up_names_printable, P ].
  - intros cid sock buf w' E. unfold on_data in E.
    refine (data_loop_names_printable _ _ _ _ _ _ E).
    apply (names_printable_same w); [ reflexivity | exact P ].
  - intros id c H. discriminate H.
Qed.

End NamesFacts.

(** ** The token of the handshake *)

Lemma sha1_length msg : length (Digest.sha1 msg) = 20%nat.
Proof.
  unfold Digest.sha1.
  destruct (Digest.blocks _ _ _) as [[[[h0 h1] h2] h3] h4].
  rewrite !length_app, !length_be_bytes. reflexivity.
Qed.

Lemma digit_base64_char v : base64_char (Digest.digit v).
Proof.
  left. unfold Digest.digit. apply nth_In.
  change (length Digest.alphabet) with 64%nat. lia.
Qed.

Lemma base64_shape d :
  length d = 20%nat ->
  length (Digest.base64 20 d) = 28%nat /\
  nth 27 (Digest.base64 20 d) 0 = 61 /\
  Forall base64_char (Digest.base64 20 d).
Proof.
  intros H.
  do 20 (destruct d as [| ? d]; [ discriminate H | ]).
  destruct d; [ | discriminate H ].
  cbn [Digest.base64 app]. split; [ reflexivity | ]. split; [ reflexivity | ].
  repeat (constructor; [ first [ apply digit_base64_char | right; reflexivity ] | ]).
  constructor.
Qed.

(** X23. The accept token of the handshake, the SHA-1 digest of the key
    followed by the GUID of the protocol, written in base64, has for every key
    28 characters of the base64 alphabet or [=], the last one being [=]; for
    the key of the example of RFC 6455 it is [s3pPLMBiTxaQ9kYGzzhZRbK+xOo=].
    *)
Theorem accept_token_is_a_base64_digest :
  (forall key,
      length (Digest.computeAccept key) = 28%nat /\
      nth 27 (Digest.computeAccept key) 0 = 61 /\
      Forall base64_char (Digest.computeAccept key)) /\
  Digest.computeAccept (lit "dGhlIHNhbXBsZSBub25jZQ==") =
  lit "s3pPLMBiTxaQ9kYGzzhZRbK+xOo=".
Proof.
  split.
  - intros key. unfold Digest.computeAccept, Digest.digest_base64.
    rewrite sha1_length. apply base64_shape, sha1_length.
  - vm_compute. reflexivity.
Qed.

(** ** Checks that run *)

Lemma all_below_sound n l : all_below n l = true -> Forall (fun x => 0 <= x < n) l.
Proof.
  unfold all_below. rewrite forallb_forall. intros H. apply Forall_forall.
  intros x Hx. specialize (H x Hx). apply andb_true_iff in H as [H1 H2]. lia.
Qed.

Lemma sole_userb_sound w cid sock : sole_userb w cid sock = true -> sole_user w cid sock.
Proof.
  unfold sole_userb. rewrite forallb_forall. intros H id c Hc Hs.
  apply map_get_In in Hc. specialize (H _ Hc). cbn [fst snd] in H.
  destruct (jsstring_eq_dec id cid); [ assumption | ].
  rewrite Hs, Nat.eqb_refl in H. discriminate.
Qed.

Lemma names_printableb_sound w : names_printableb w = true -> names_printable w.
Proof.
  unfold names_printableb. rewrite forallb_forall. intros H id c Hc.
  apply map_get_In in Hc. exact (H _ Hc).
Qed.

(** ** The properties on concrete traffic *)

Import Reference Scenario.

Ltac by_running := vm_compute; reflexivity.

(** The name of a client of a concrete state can be converted. *)
Ltac printable_names :=
  let c := fresh "c" in
  let H := fresh "H" in
  intros c H; vm_compute in H; first [ discriminate H | injection H as <-; reflexivity ].

Lemma frame_roundtrip_witness :
  let str := repeat 97 200 in
  parseFrame (buildTextFrame str) =
  Ok (Some {| fin := true; opcode := 0x1; payload := str; frameLen := 204 |}) /\
  firstn 4 (buildTextFrame str) = [0x81; 126; 0; 200].
Proof.
  intros str.
  assert (Forall is_code_unit str) as Hstr.
  { apply Forall_forall. intros x Hx. apply repeat_spec in Hx. subst x.
    unfold is_code_unit. lia. }
  assert (blen (buildTextFrame str) < 2 ^ 53) as Hfit by (vm_compute; reflexivity).
  destruct (frame_roundtrip str Hstr Hfit) as (Hparse & _ & Hwf & Hhead & _).
  split.
  - rewrite Hparse. rewrite Hwf by (vm_compute; reflexivity).
    vm_compute. reflexivity.
  - rewrite Hhead. vm_compute. reflexivity.
Defined.

(** C2, what the code does instead. A buffer that holds the first 7 bytes of
    an 11-byte frame, or only its header and one byte of the mask, is not
    reported incomplete: [parseFrame] returns a frame with the payload cut
    short and a length that runs past the buffer; a header that announces a
    16-bit length without its two bytes raises a RangeError. Fed one byte at
    a time, a join is never seen: after the third byte the server has
    already answered a frame that was not sent and emptied its buffer, and
    at the end the client is in no room, while the same bytes in one chunk
    make it a member. *)
Theorem parseFrame_returns_truncated_frame :
  let F := client_frame 0x1 mask (utf8_encode (lit "hello")) in
  let J := text_frame "{'type':'join','room':'r1'}" in
  blen F = 11 /\
  parseFrame F =
  Ok (Some {| fin := true; opcode := 1; payload := lit "hello"; frameLen := 11 |}) /\
  parseFrame (firstn 7 F) =
  Ok (Some {| fin := true; opcode := 1; payload := lit "h"; frameLen := 11 |}) /\
  parseFrame (firstn 3 F) =
  Ok (Some {| fin := true; opcode := 1; payload := []; frameLen := 11 |}) /\
  parseFrame [0x81; 0xFE; 0x00] = Throw RangeError /\
  holds_after (feed c1 0 (one_by_one (firstn 3 J)) one)
    (fun w => sent w 0 = sent one 0 ++ [reply (error_obj "invalid_json")] /\
              recvBuffer (socket_get w 0) = []) /\
  holds_after (feed c1 0 (one_by_one J) one) (fun w => members w r1 = []) /\
  holds_after (receive c1 0 J one) (fun w => members w r1 = [c1]).
Proof. vm_compute. repeat split; reflexivity. Qed.

(** C6, what the code does instead. The pong is built from the payload as a
    string: its length byte is the number of UTF-16 code units and its bytes
    are the string encoded again. A ping that carries the two bytes of "é"
    is answered by a pong whose header announces one byte in front of two,
    which reads back as a one-byte pong and a stray byte; a ping that carries
    the byte FF is answered with the three bytes EF BF BD; and for a payload
    of 126 bytes the length byte is 126, the mark of a 16-bit length that is
    not there. The connection stays open. *)
Theorem pong_payload_differs :
  holds_after (receive c1 0 (client_frame 0x9 mask [0xC3; 0xA9]) one)
    (fun w => sent w 0 = sent one 0 ++ [[0x8A; 1; 0xC3; 0xA9]] /\
              destroyed (socket_get w 0) = false /\ ended (socket_get w 0) = false) /\
  parseFrame [0x8A; 1; 0xC3; 0xA9] =
  Ok (Some {| fin := true; opcode := 0xA; payload := [0xFFFD]; frameLen := 3 |}) /\
  holds_after (receive c1 0 (client_frame 0x9 mask [0xFF]) one)
    (fun w => sent w 0 = sent one 0 ++ [[0x8A; 1; 0xEF; 0xBF; 0xBD]]) /\
  pongFrame (utf8_decode (repeat 97 126)) = [0x8A; 126] ++ repeat 97 126 /\
  holds_after (receive c1 0 (client_frame 0x9 mask (lit "ping")) one)
    (fun w => sent w 0 = sent one 0 ++ [[0x8A; 4] ++ lit "ping"]).
Proof. vm_compute. repeat split; reflexivity. Qed.

(** A join sent unmasked, as the server's own encoder would write it, is
    obeyed: the connection stays open, the client is in the room and is told
    so. *)
Lemma unmasked_join_is_obeyed :
  let F := buildTextFrame (json "{'type':'join','room':'r1'}") in
  Z.land (nth 1 F 0) 0x80 = 0 /\
  holds_after (receive c1 0 F one)
    (fun w => destroyed (socket_get w 0) = false /\
              ended (socket_get w 0) = false /\
              clients_get w c1 <> None /\
              members w r1 = [c1] /\
              sent w 0 =
              sent one 0 ++
              [reply (obj [("type", VStr (lit "joined")); ("room", VStr (lit "r1"));
                           ("id", VStr c1)])]).
Proof. vm_compute. repeat split; try reflexivity. discriminate. Qed.

Lemma unmasked_frame_is_processed_witness :
  let text := json "{'type':'join','room':'r1'}" in
  receive c1 0 (buildTextFrame text) one =
  handleJsonMessage JSON_parse JSON_stringify ToString c1 text (set_recvBuffer 0 [] one).
Proof.
  intros text.
  destruct (unmasked_frame_is_processed JSON_parse JSON_stringify ToString
              c1 0%nat (buildTextFrame text)
              {| fin := true; opcode := 1; payload := text;
                 frameLen := blen (buildTextFrame text) |} one
              ltac:(by_running) ltac:(by_running) ltac:(by_running)
              ltac:(by_running) ltac:(by_running)) as (_ & _ & T).
  exact (proj1 (T eq_refl)).
Defined.

(** A close frame and a join in one chunk: the handler returns at the close
    frame, the join stays in the buffer and is never obeyed. *)
Lemma close_then_join_stops_at_close :
  let F1 := client_frame 0x8 mask [] in
  let F2 := text_frame "{'type':'join','room':'r1'}" in
  parseFrame F1 =
  Ok (Some {| fin := true; opcode := 8; payload := []; frameLen := blen F1 |}) /\
  parseFrame F2 =
  Ok (Some {| fin := true; opcode := 1;
              payload := json "{'type':'join','room':'r1'}";
              frameLen := blen F2 |}) /\
  holds_after (receive c1 0 (F1 ++ F2) one)
    (fun w => recvBuffer (socket_get w 0) = F2 /\ members w r1 = [] /\
              clients_get w c1 = None).
Proof. vm_compute. repeat split; reflexivity. Qed.

(** The loop asks for more than two bytes where [parseFrame] asks for two: of
    two empty unmasked text frames in one chunk the first is handled (and
    answered, an empty text being no JSON) and the second waits in the
    buffer for the next read. *)
Lemma trailing_two_byte_frame_waits :
  parseFrame [0x81; 0x00] =
  Ok (Some {| fin := true; opcode := 1; payload := []; frameLen := 2 |}) /\
  holds_after (receive c1 0 ([0x81; 0x00] ++ [0x81; 0x00]) one)
    (fun w => recvBuffer (socket_get w 0) = [0x81; 0x00] /\
              sent w 0 = sent one 0 ++ [reply (error_obj "invalid_json")]).
Proof. vm_compute. repeat split; reflexivity. Qed.

Lemma two_frames_one_read_witness :
  let J := "{'type':'join','room':'r1'}" in
  let L := "{'type':'list','room':'r1'}" in
  holds_after (receive c1 0 (text_frame J ++ text_frame L) one)
    (fun w => recvBuffer (socket_get w 0) = [] /\
              holds_after (w1 <- say c1 J one ;; say c1 L w1)
                (fun w' => sent w 0 = sent w' 0)).
Proof.
  intros J L.
  assert (Forall is_byte (text_frame J)) as Hbytes.
  { apply Forall_forall. intros x Hx. vm_compute in Hx.
    repeat (destruct Hx as [<- | Hx]; [ unfold is_byte; lia | ]). destruct Hx. }
  destruct (two_frames_one_read JSON_parse JSON_stringify ToString
              c1 0%nat (text_frame J) (text_frame L)
              {| fin := true; opcode := 1; payload := json J;
                 frameLen := blen (text_frame J) |}
              {| fin := true; opcode := 1; payload := json L;
                 frameLen := blen (text_frame L) |} one
              ltac:(by_running) Hbytes ltac:(by_running) ltac:(by_running)
              ltac:(by_running) ltac:(by_running) ltac:(discriminate)
              ltac:(by_running)) as (_ & Tempty).
  fold (receive c1 0 (text_frame J ++ text_frame L) one) in Tempty.
  destruct (receive c1 0 (text_frame J ++ text_frame L) one) as [w |] eqn:E.
  - cbn [holds_after]. split; [ apply Tempty; reflexivity | ].
    revert E. vm_compute. intros [= <-]. reflexivity.
  - exfalso. revert E. vm_compute. discriminate.
Defined.

(** The kind "message" is not one the relay knows: the other member of the
    room gets nothing and the sender gets the unknown-kind error. *)
Lemma message_kind_is_unknown :
  members both_in_r1 r1 = [c1; c2] /\
  open_socket both_in_r1 1 = true /\
  holds_after (say c1 "{'type':'message','room':'r1','text':'hi'}" both_in_r1)
    (fun w => sent w 1 = sent both_in_r1 1 /\
              sent w 0 = sent both_in_r1 0 ++ [reply (error_obj "unknown_type")]).
Proof. vm_compute. repeat split; reflexivity. Qed.

Lemma room_message_is_broadcast_witness :
  let text := "{'type':'msg','room':'r1','text':'hi'}" in
  holds_after (say c1 text both_in_r1)
    (fun w => sent w 1 =
              sent both_in_r1 1 ++
              [reply (obj [("type", VStr (lit "msg")); ("from", VStr c1);
                           ("text", VStr (lit "hi")); ("room", VStr (lit "r1"))])] /\
              sent w 0 = sent both_in_r1 0).
Proof.
  intros text.
  destruct (room_message_is_broadcast JSON_parse JSON_stringify ToString
              c1 (json text) (parsed text) both_in_r1
              ltac:(by_running) ltac:(by_running)) as (T & _).
  destruct (T ltac:(by_running) ltac:(by_running) ltac:(by_running)) as (Tr & Tw & _).
  unfold say. rewrite Tr. cbn [holds_after]. unfold sent. rewrite !Tw.
  vm_compute. split; reflexivity.
Defined.





Lemma join_defaults_to_lobby_witness :
  exists w1,
    say c1 "{'type':'join','name':'alice'}" two = Ok w1 /\
    members w1 (KStr (lit "lobby")) = [c1] /\
    holds_after (say c1 "{'type':'list'}" w1)
      (fun w2 => sent w2 0 =
                 sent w1 0 ++
                 [reply (obj [("type", VStr (lit "list")); ("room", VStr (lit "lobby"));
                              ("members",
                               VArr [obj [("id", VStr c1);
                                          ("name", VStr (lit "alice"))]])])]).
Proof.
  destruct (join_defaults_to_lobby JSON_parse JSON_stringify ToString
              c1 (json "{'type':'join','name':'alice'}")
              (parsed "{'type':'join','name':'alice'}") two (client two c1)
              ltac:(by_running) ltac:(by_running) ltac:(by_running)
              ltac:(by_running) ltac:(by_running))
    as (w1 & Hw1 & _ & _ & _ & Tlist).
  exists w1. split; [ exact Hw1 | ].
  destruct (Tlist (json "{'type':'list'}") (parsed "{'type':'list'}")
              ltac:(by_running) ltac:(by_running) ltac:(by_running)) as (Hlist & _).
  unfold say in *. rewrite Hlist. cbn [holds_after].
  vm_compute in Hw1. injection Hw1 as <-. split; by_running.
Defined.

(** C9, where it fails. A join without a room that gives the sender the name
    [{"toString": 1}] raises a TypeError when, the sender put into "lobby"
    and told so, the notice for the room is made. *)
Lemma join_with_an_odd_name_raises :
  let text := "{'type':'join','name':{'toString':1}}" in
  clients_get one c1 <> None /\
  is_str (get (parsed text) (lit "type")) (lit "join") = true /\
  truthy (get (parsed text) (lit "room")) = false /\
  get (parsed text) (lit "name") = odd_name /\
  say c1 text one = Throw TypeError.
Proof. vm_compute. repeat split; try reflexivity. discriminate. Qed.

Lemma private_echo_unconditional_witness :
  let text := "{'type':'msg','to':'c9','text':'psst'}" in
  holds_after (say c1 text two)
    (fun w => sent w 0 =
              sent two 0 ++
              [reply (obj [("type", VStr (lit "msg")); ("from", VStr c1);
                           ("to", VStr (lit "c9")); ("text", VStr (lit "psst"));
                           ("private", VBool true)])] /\
              sent w 1 = sent two 1).
Proof.
  intros text.
  destruct (private_echo_unconditional JSON_parse JSON_stringify ToString
              c1 (json text) (parsed text) two (client two c1)
              ltac:(by_running) ltac:(by_running) ltac:(by_running)
              ltac:(by_running) ltac:(by_running)) as (w' & Hw' & _ & Talone).
  destruct (Talone ltac:(by_running)) as (_ & Twritten).
  unfold say. rewrite Hw'. cbn [holds_after]. unfold sent. rewrite !Twritten.
  split; by_running.
Defined.

(** ** The further properties on concrete traffic *)

Lemma masked_frame_roundtrip_witness :
  let F := masked_frame 0x81 mask (lit "hello") in
  exists f,
    parseFrame (F ++ [0x88; 0x80]) = Ok (Some f) /\
    opcode f = 1 /\ payload f = lit "hello" /\
    slice_from (frameLen f) (F ++ [0x88; 0x80]) = [0x88; 0x80].
Proof.
  intros F.
  destruct (masked_frame_roundtrip 0x81 mask (lit "hello") [0x88; 0x80]
              eq_refl ltac:(by_running))
    as (f & Hp & _ & Hop & Hpay & _ & _ & Hrest).
  exists f. repeat split; assumption.
Defined.

Lemma bytes_behind_a_frame_are_not_read_witness :
  let F := buildTextFrame (lit "hi") in
  parseFrame (F ++ [0x81]) = parseFrame F /\ slice_from (blen F) (F ++ [0x81]) = [0x81].
Proof.
  intros F.
  destruct (bytes_behind_a_frame_are_not_read F [0x81]
              {| fin := true; opcode := 1; payload := lit "hi"; frameLen := 4 |}
              (all_below_sound 256 F ltac:(by_running)) ltac:(by_running)
              ltac:(vm_compute; discriminate)) as (Hp & Hrest).
  split; [ rewrite Hp; by_running | exact (Hrest eq_refl) ].
Defined.

Lemma data_handler_terminates_witness :
  let F := text_frame "{'type':'list'}" in
  exists n,
    2 * Z.of_nat n <= blen F /\
    loop_ends JSON_parse JSON_stringify ToString c1 0 (set_recvBuffer 0 F one) n
      (receive c1 0 F one).
Proof.
  intros F.
  exact (data_handler_terminates JSON_parse JSON_stringify ToString c1 0%nat F one
           (all_below_sound 256 [] eq_refl)
           (all_below_sound 256 F ltac:(by_running))).
Defined.

Lemma at_most_two_bytes_are_kept_witness :
  let F := text_frame "{'type':'list'}" in
  holds_after (receive c1 0 (firstn 9 F) one)
    (fun w => blen (recvBuffer (socket_get w 0)) <= 2).
Proof.
  intros F.
  destruct (receive c1 0 (firstn 9 F) one) as [w |] eqn:E;
    [ | exfalso; revert E; vm_compute; discriminate ].
  cbn [holds_after].
  assert (clients_get w c1 <> None) as Hreg
    by (revert E; vm_compute; intros [= <-]; discriminate).
  exact (at_most_two_bytes_are_kept JSON_parse JSON_stringify ToString
           c1 0%nat (firstn 9 F) one w
           (all_below_sound 256 [] eq_refl)
           (all_below_sound 256 (firstn 9 F) ltac:(by_running))
           E Hreg).
Defined.

Lemma other_opcodes_are_dropped_witness :
  receive c1 0 (masked_frame 0x82 mask [1; 2; 3]) one = Ok (set_recvBuffer 0 [] one) /\
  receive c1 0 [0x8A; 0x00] one = Ok (set_recvBuffer 0 [0x8A; 0x00] one).
Proof.
  split.
  - exact (proj1 (proj1 (other_opcodes_are_dropped JSON_parse JSON_stringify ToString
                           c1 0%nat (masked_frame 0x82 mask [1; 2; 3])
                           {| fin := true; opcode := 2; payload := [1; 2; 3];
                              frameLen := 9 |}
                           one ltac:(by_running) ltac:(by_running) ltac:(by_running)
                           ltac:(discriminate) ltac:(discriminate)
                           ltac:(discriminate))
                    ltac:(by_running))).
  - exact (proj2 (other_opcodes_are_dropped JSON_parse JSON_stringify ToString
                    c1 0%nat [0x8A; 0x00]
                    {| fin := true; opcode := 10; payload := []; frameLen := 2 |}
                    one ltac:(by_running) ltac:(by_running) ltac:(by_running)
                    ltac:(discriminate) ltac:(discriminate) ltac:(discriminate))
             ltac:(vm_compute; discriminate)).
Defined.

Lemma flag_bits_are_not_looked_at_witness :
  let rest := tl (text_frame "{'type':'join','room':'r1'}") in
  receive c1 0 (0x81 :: rest) one = receive c1 0 (0x71 :: rest) one.
Proof.
  intros rest.
  exact (flag_bits_are_not_looked_at JSON_parse JSON_stringify ToString
           c1 0%nat 0x81 0x71 rest one ltac:(by_running)
           (all_below_sound 256 (0x81 :: rest) ltac:(by_running))
           ltac:(vm_compute; discriminate) ltac:(by_running)).
Defined.

Lemma close_frame_ends_the_read_witness :
  let F := masked_frame 0x88 mask [] in
  let rest := text_frame "{'type':'join','room':'r1'}" in
  holds_after (receive c1 0 (F ++ rest) two)
    (fun w => clients_get w c1 = None /\ recvBuffer (socket_get w 0) = rest /\
              ended (socket_get w 0) = true /\ destroyed (socket_get w 0) = true /\
              sent w 0 = sent two 0) /\
  receive c1 0 [0x88; 0x00] two = Ok (set_recvBuffer 0 [0x88; 0x00] two).
Proof.
  intros F rest. split.
  - destruct (close_frame_ends_the_read JSON_parse JSON_stringify ToString
                c1 0%nat F rest
                {| fin := true; opcode := 8; payload := []; frameLen := 6 |} two
                ltac:(by_running) (all_below_sound 256 F ltac:(by_running))
                ltac:(by_running) ltac:(by_running) ltac:(by_running)
                ltac:(printable_names))
      as (Tlong & _).
    destruct (Tlong ltac:(by_running))
      as (w1 & _ & Hrun & Hgone & Hrecv & Hend & Hdest & Hsilent).
    unfold receive. rewrite Hrun. cbn [holds_after].
    split; [ exact Hgone | ]. split; [ exact Hrecv | ]. split; [ exact Hend | ].
    split; [ exact (Hdest (client two c1) ltac:(by_running) ltac:(by_running)) | ].
    exact (Hsilent (sole_userb_sound two c1 0%nat ltac:(by_running))).
  - exact (proj2 (close_frame_ends_the_read JSON_parse JSON_stringify ToString
                    c1 0%nat [0x88; 0x00] []
                    {| fin := true; opcode := 8; payload := []; frameLen := 2 |} two
                    ltac:(by_running) (all_below_sound 256 [0x88; 0x00] eq_refl)
                    ltac:(by_running) ltac:(by_running) ltac:(by_running)
                    ltac:(printable_names))
             ltac:(vm_compute; discriminate)).
Defined.

Lemma ascii_ping_is_answered_witness :
  receive c1 0 (masked_frame 0x89 mask (lit "ping")) one =
  Ok (socket_write 0 ([0x8A; 4] ++ lit "ping") (set_recvBuffer 0 [] one)).
Proof.
  exact (proj1 (ascii_ping_is_answered JSON_parse JSON_stringify ToString
                  c1 0%nat mask (lit "ping") one ltac:(by_running) eq_refl
                  (all_below_sound 0x80 (lit "ping") ltac:(by_running))
                  ltac:(by_running))).
Defined.

Lemma text_frame_reaches_the_dispatcher_witness :
  let text := json "{'type':'list'}" in
  receive c1 0 (masked_frame 0x81 mask (utf8_encode text)) one =
  handleJsonMessage JSON_parse JSON_stringify ToString c1 text (set_recvBuffer 0 [] one).
Proof.
  intros text.
  exact (text_frame_reaches_the_dispatcher JSON_parse JSON_stringify ToString
           c1 0%nat 0x81 mask text one ltac:(by_running) eq_refl
           (all_below_sound 65536 text ltac:(by_running))
           ltac:(by_running) ltac:(by_running)).
Defined.

Lemma dispatcher_raises_exactly_on_witness :
  say c1 "null" one = Throw TypeError /\
  say (lit "c7") "{'type':'join'}" one = Throw TypeError.
Proof.
  split.
  - apply (proj2 (dispatcher_raises_exactly_on JSON_parse JSON_stringify ToString
                    c1 (json "null") one TypeError ltac:(printable_names)
                    ltac:(intros p H; vm_compute in H; injection H as <-; reflexivity))).
    split; [ reflexivity | ]. exists VNull. split; [ by_running | left; reflexivity ].
  - apply (proj2 (dispatcher_raises_exactly_on JSON_parse JSON_stringify ToString
                    (lit "c7") (json "{'type':'join'}") one TypeError
                    ltac:(printable_names)
                    ltac:(intros p H; vm_compute in H; injection H as <-; reflexivity))).
    split; [ reflexivity | ]. exists (parsed "{'type':'join'}").
    split; [ by_running | right ]. split; [ by_running | left; by_running ].
Defined.

Lemma bad_requests_get_one_error_frame_witness :
  holds_after (say c1 "{" two)
    (fun w => sent w 0 = sent two 0 ++ [reply (error_obj "invalid_json")] /\
              sent w 1 = sent two 1) /\
  holds_after (say c1 "{'type':'msg','text':'hi'}" two)
    (fun w => sent w 0 = sent two 0 ++ [reply (error_obj "no_room")] /\
              sent w 1 = sent two 1).
Proof.
  destruct (bad_requests_get_one_error_frame JSON_parse JSON_stringify ToString
              c1 (json "{") two (client two c1) ltac:(by_running)) as (Tjson & _).
  destruct (bad_requests_get_one_error_frame JSON_parse JSON_stringify ToString
              c1 (json "{'type':'msg','text':'hi'}") two (client two c1)
              ltac:(by_running)) as (_ & Troom).
  split.
  - destruct (Tjson ltac:(by_running)) as (w' & E & _ & _ & _ & Hw).
    unfold say. rewrite E. cbn [holds_after]. unfold sent. rewrite !Hw.
    split; by_running.
  - destruct (Troom (parsed "{'type':'msg','text':'hi'}") ltac:(by_running)
                ltac:(by_running) ltac:(by_running) ltac:(by_running))
      as (w' & E & _ & _ & _ & Hw).
    unfold say. rewrite E. cbn [holds_after]. unfold sent. rewrite !Hw.
    split; by_running.
Defined.

Lemma leave_of_unknown_room_is_silent_witness :
  exists w',
    say c1 "{'type':'leave','room':'r9'}" both_in_r1 = Ok w' /\
    clients w' = clients both_in_r1 /\ rooms w' = rooms both_in_r1 /\
    sockets w' = sockets both_in_r1.
Proof.
  apply (leave_of_unknown_room_is_silent JSON_parse JSON_stringify ToString
           c1 (json "{'type':'leave','room':'r9'}")
           (parsed "{'type':'leave','room':'r9'}") both_in_r1);
    [ by_running | by_running | right; by_running ].
Defined.

Lemma join_twice_is_join_once_witness :
  let J := "{'type':'join','room':'r1','name':'alice'}" in
  holds_after (say c1 J two)
    (fun w1 => exists w2, say c1 J w1 = Ok w2 /\
                          clients w2 = clients w1 /\ rooms w2 = rooms w1).
Proof.
  intros J.
  destruct (say c1 J two) as [w1 |] eqn:E;
    [ | exfalso; revert E; vm_compute; discriminate ].
  exact (join_twice_is_join_once JSON_parse JSON_stringify ToString
           c1 (json J) (parsed J) two (client two c1) w1
           ltac:(by_running) ltac:(by_running) ltac:(by_running) ltac:(by_running)
           ltac:(by_running) ltac:(printable_names) E).
Defined.

Lemma join_then_leave_restores_membership_witness :
  let J := "{'type':'join','room':'r1','name':'alice'}" in
  let L := "{'type':'leave','room':'r1'}" in
  holds_after (say c1 J two)
    (fun w1 => exists w2, say c1 L w1 = Ok w2 /\
                          (forall room, members w2 room = members two room) /\
                          rooms_get w2 r1 <> None).
Proof.
  intros J L.
  destruct (say c1 J two) as [w1 |] eqn:E;
    [ | exfalso; revert E; vm_compute; discriminate ].
  destruct (join_then_leave_restores_membership JSON_parse JSON_stringify ToString
              c1 (json J) (json L) (parsed J) (parsed L) (lit "r1") two
              (client two c1) w1
              ltac:(by_running) ltac:(by_running) ltac:(by_running) ltac:(by_running)
              ltac:(by_running) ltac:(by_running) ltac:(by_running)
              ltac:(discriminate) ltac:(vm_compute; tauto) ltac:(vm_compute; tauto)
              ltac:(by_running) ltac:(printable_names) E)
    as (w2 & E2 & Hmem & _ & _ & Hroom).
  exists w2. split; [ exact E2 | ]. split; [ exact Hmem | exact Hroom ].
Defined.

Lemma private_message_reaches_target_and_sender_only_witness :
  let text := "{'type':'msg','to':'c2','text':'psst'}" in
  exists w',
    say c1 text two = Ok w' /\
    sent w' 1 =
    sent two 1 ++
    [reply (obj [("type", VStr (lit "msg")); ("from", VStr c1);
                 ("text", VStr (lit "psst")); ("private", VBool true)])] /\
    sent w' 0 =
    sent two 0 ++
    [reply (obj [("type", VStr (lit "msg")); ("from", VStr c1);
                 ("to", VStr c2); ("text", VStr (lit "psst"));
                 ("private", VBool true)])] /\
    sent w' 2 = sent two 2.
Proof.
  intros text.
  destruct (private_message_reaches_target_and_sender_only
              JSON_parse JSON_stringify ToString c1 (json text) (parsed text) two
              ltac:(by_running) ltac:(by_running) ltac:(by_running))
    as (w' & E & _ & _ & _ & Hw).
  exists w'. split; [ exact E | ]. unfold sent. rewrite !Hw.
  repeat split; by_running.
Defined.

Lemma a_message_changes_only_its_senders_record_witness :
  holds_after (say c1 "{'type':'join','room':'r1','name':'c2'}" both_in_r1)
    (fun w => clients_get w c2 = clients_get both_in_r1 c2 /\
              (In c2 (members w r1) <-> In c2 (members both_in_r1 r1))).
Proof.
  destruct (say c1 "{'type':'join','room':'r1','name':'c2'}" both_in_r1)
    as [w |] eqn:E; [ | exfalso; revert E; vm_compute; discriminate ].
  destruct (a_message_changes_only_its_senders_record JSON_parse JSON_stringify ToString
              c1 _ both_in_r1 w E) as (Hcl & _ & Hmem).
  split; [ apply Hcl; discriminate | apply Hmem; discriminate ].
Defined.

Lemma rooms_are_never_removed_witness :
  let clean := cleanupClient JSON_stringify ToString in
  holds_after (w <- clean c1 both_in_r1 ;; clean c2 w)
    (fun w => members w r1 = [] /\ rooms_get w r1 <> None).
Proof.
  intros clean.
  destruct (clean c1 both_in_r1) as [w1 |] eqn:E1;
    [ | exfalso; revert E1; vm_compute; discriminate ].
  cbn [bind].
  assert (rooms_get w1 r1 <> None) as H1.
  { apply (proj1 (proj2 (rooms_are_never_removed JSON_parse JSON_stringify ToString
                           both_in_r1 r1 ltac:(vm_compute; discriminate)))
             c1 w1 E1). }
  pose proof E1 as E1'. vm_compute in E1'. injection E1' as <-.
  destruct (clean c2 _) as [w2 |] eqn:E2;
    [ | exfalso; revert E2; vm_compute; discriminate ].
  cbn [holds_after]. split.
  - revert E2. vm_compute. intros [= <-]. reflexivity.
  - exact (proj1 (proj2 (rooms_are_never_removed JSON_parse JSON_stringify ToString
                           _ r1 H1)) c2 w2 E2).
Defined.

Lemma client_ids_are_never_reused_witness :
  fst (on_upgrade JSON_stringify computeAccept (Some key) 0 initial) = Some c1 /\
  ids_below (upgrade 0 initial) /\ nextId (upgrade 0 initial) = 2 /\
  consistent (upgrade 0 initial).
Proof.
  assert (ids_below initial) as H0 by (intros id H; exfalso; apply H; reflexivity).
  destruct (client_ids_are_never_reused JSON_parse JSON_stringify ToString computeAccept
              initial H0 ltac:(vm_compute; split; [ discriminate | reflexivity ]))
    as (Tup & _).
  destruct (Tup key 0%nat ltac:(discriminate)) as (Hid & _ & _ & Hnext & Hids & Hcons).
  split; [ etransitivity; [ exact Hid | by_running ] | ].
  split; [ exact Hids | ]. split; [ exact Hnext | exact (Hcons initial_consistent) ].
Defined.

Lemma upgrade_registers_and_welcomes_witness :
  clients_get (upgrade 1 one) c2 = Some (new_client c2 1) /\
  clients_get (upgrade 1 one) c1 = clients_get one c1 /\
  sent (upgrade 1 one) 1 =
  [switching_protocols (computeAccept key); reply (welcome_obj c2)] /\
  sent (upgrade 1 one) 0 = sent one 0.
Proof.
  destruct (upgrade_registers_and_welcomes JSON_stringify computeAccept key 1%nat one
              ltac:(discriminate))
    as (_ & Hnew & Hold & _ & Hhello & Hquiet & _).
  split; [ exact Hnew | ].
  split; [ apply Hold; discriminate | ].
  split; [ exact (Hhello ltac:(by_running)) | apply Hquiet; discriminate ].
Defined.

Lemma upgrade_without_key_is_refused_witness :
  let r := on_upgrade JSON_stringify computeAccept None 1 one in
  fst r = None /\ clients (snd r) = clients one /\
  destroyed (socket_get (snd r) 1) = true /\ sent (snd r) 1 = [bad_request] /\
  socket_get (snd r) 0 = socket_get one 0.
Proof.
  intros r.
  destruct (upgrade_without_key_is_refused JSON_stringify computeAccept None 1%nat one
              (or_introl eq_refl))
    as (Hnone & Hcl & _ & _ & Hdest & Hsent & Hother).
  split; [ exact Hnone | ]. split; [ exact Hcl | ]. split; [ exact Hdest | ].
  split; [ exact Hsent | apply Hother; discriminate ].
Defined.

Lemma status_counts_the_registered_clients_witness :
  body (on_request JSON_stringify (lit "/status") two) = json "{'ok':true,'clients':2}" /\
  body (on_request JSON_stringify (lit "/status?x") two) =
  lit "This is a minimal WebSocket relay server." ++ [10] /\
  holds_after (cleanupClient JSON_stringify ToString c1 two)
    (fun w => number (S (length (clients w))) = number 2).
Proof.
  assert (NoDup (map fst (clients two))) as Hnd.
  { repeat constructor; cbn [In]; intros H;
      repeat (destruct H as [H | H]; [ discriminate H | ]); exact H. }
  destruct (status_counts_the_registered_clients JSON_parse JSON_stringify ToString
              computeAccept two Hnd) as (Tpage & _ & _ & Tclean).
  split; [ rewrite Tpage; by_running | ].
  split; [ rewrite Tpage; by_running | ].
  destruct (Tclean c1 ltac:(vm_compute; discriminate) ltac:(printable_names))
    as (w' & E & Hcount & _).
  rewrite E. cbn [holds_after]. rewrite Hcount. by_running.
Defined.

Lemma names_stay_printable_witness :
  names_printable both_in_r1 /\
  holds_after (say c1 "{'type':'join','room':'r2','name':['bob']}" both_in_r1)
    names_printable /\
  (exists w', cleanupClient JSON_stringify ToString c2 both_in_r1 = Ok w').
Proof.
  assert (names_printable both_in_r1) as P
    by (apply names_printableb_sound; by_running).
  destruct (names_stay_printable JSON_parse JSON_stringify ToString computeAccept
              both_in_r1 P) as (_ & Thandle & Tclean & _).
  split; [ exact P | ]. split.
  - destruct (say c1 "{'type':'join','room':'r2','name':['bob']}" both_in_r1)
      as [w |] eqn:E; [ | exfalso; revert E; vm_compute; discriminate ].
    exact (Thandle c1 _ w E).
  - destruct (Tclean c2) as (w' & E & _). exists w'. exact E.
Defined.
